(** * SimpleEntEngine: the entity-component-system core

    A shallow embedding of [engine/src/Utils/Pool.hpp] and
    [engine/src/ECS/ECS.hpp] / [ECS.cpp], followed by the properties of the
    registry that the engine's systems rely on. Three pieces that sit on
    top of the registry are embedded as well: the exclusion list of
    [Components/BoxColliderComponent.hpp], the frame arithmetic of
    [Systems/AnimationSystem.hpp] and [EventManager/EventManager.hpp].

    Conventions of the embedding:
    - a C++ [int] is a [Z]; an [int] addition that leaves the [int] range is
      undefined behaviour and is reported as such; conversions to [size_t],
      [unsigned int] and back to [int] are written out as modular
      arithmetic;
    - [std::vector<T>] is a [list T], indexed through [vector_at], which
      reports an out-of-range subscript as undefined behaviour;
    - [std::bitset<64>] is a [Z] handled with [Z.testbit], [Z.setbit],
      [Z.clearbit] and [Z.land];
    - [std::set] is a [gset], iterated in ascending order;
      [std::unordered_map] is a [gmap]; [std::deque<int>] is a [list Z]
      whose head is the front;
    - every [Registry] member function is a computation in the monad [M],
      which threads the registry, collects what is written to [std::cout]
      and [std::cerr], and stops at the first fault.

    The registry functions take the component id; the process-wide
    numbering of component types by [Component<T>::GetId()] is modelled
    apart, in [ComponentIds]. Left out: the [registry] back pointer of
    [Entity], the lines the constructor and the destructor of [Registry]
    print, and the exhaustion of memory. *)

From Stdlib Require Import ZArith Lia.
From stdpp Require Import gmap strings list fin_maps fin_sets sorting.

Local Open Scope Z_scope.
#[local] Set Warnings "-clear-no-such-hyp".

(** ** Machine integers *)

Definition INT_MAX : Z := 2147483647.
Definition INT_MIN : Z := -2147483648.

(** [static_cast<size_t>(x)] on a 64-bit target. *)
Definition to_size_t (x : Z) : Z := x mod 2 ^ 64.

(** Conversion of an [int] argument to an [unsigned int] parameter. *)
Definition to_unsigned (x : Z) : Z := x mod 2 ^ 32.

(** [static_cast<int>(x)]: reduction modulo [2^32] into the [int] range. *)
Definition to_int (x : Z) : Z := (x + 2 ^ 31) mod 2 ^ 32 - 2 ^ 31.

(** ** Faults *)

Inductive fault : Type :=
| UndefinedBehaviour   (* out-of-range subscript, invalid iterator, int overflow *)
| OutOfRange           (* std::out_of_range thrown by std::bitset *)
| LengthError.         (* std::length_error thrown by std::vector::resize *)

Inductive res (A : Type) : Type :=
| Ok (a : A)
| Err (f : fault).
Arguments Ok {A} a.
Arguments Err {A} f.

Definition res_bind {A B} (x : res A) (k : A → res B) : res B :=
  match x with
  | Ok a => k a
  | Err f => Err f
  end.

(** Signed [int] addition. *)
Definition int_add (a b : Z) : res Z :=
  if decide (INT_MIN ≤ a + b ≤ INT_MAX) then Ok (a + b)
  else Err UndefinedBehaviour.

(** ** std::vector *)

(** A size [std::vector::resize] refuses with [std::length_error] whatever
    the element type: [max_size()] is at most this, and every non-negative
    [int] is below it while every negative [int] converted to [size_t] is
    above. *)
Definition vector_max_size : Z := 2 ^ 63 - 1.

(** [v.resize(n, fill)] with [n] already a [size_t]. *)
Definition vector_resize {A} (fill : A) (n : Z) (v : list A) : res (list A) :=
  if decide (vector_max_size < n) then Err LengthError
  else if decide (n ≤ Z.of_nat (length v)) then Ok (take (Z.to_nat n) v)
  else Ok (v ++ replicate (Z.to_nat n - length v)%nat fill).

(** [v[i]] with [i] already a [size_t]. *)
Definition vector_at {A} (i : Z) (v : list A) : res A :=
  if decide (0 ≤ i) then
    match v !! Z.to_nat i with
    | Some x => Ok x
    | None => Err UndefinedBehaviour
    end
  else Err UndefinedBehaviour.

(** [v[i] = x] with [i] already a [size_t]. *)
Definition vector_set {A} (i : Z) (x : A) (v : list A) : res (list A) :=
  if decide (0 ≤ i < Z.of_nat (length v)) then Ok (<[Z.to_nat i := x]> v)
  else Err UndefinedBehaviour.

(** ** Pool.hpp *)

Module Pool.
Section Pool.
(** The component type and its value-initialised element [TComponent()]. *)
Context {TComponent : Type} (value_init : TComponent).

Record Pool : Type := mkPool { data : list TComponent }.

(** [Pool(int size = 1000) { data.resize(size); }] *)
Definition new (size : Z) : res Pool :=
  res_bind (vector_resize value_init (to_size_t size) []) (λ d, Ok (mkPool d)).

Definition IsEmpty (p : Pool) : bool := bool_decide (data p = []).

Definition GetSize (p : Pool) : Z := to_int (Z.of_nat (length (data p))).

(** [void Resize(int n) { data.resize(n); }] *)
Definition Resize (n : Z) (p : Pool) : res Pool :=
  res_bind (vector_resize value_init (to_size_t n) (data p)) (λ d, Ok (mkPool d)).

Definition Clear (p : Pool) : Pool := mkPool [].

Definition Add (object : TComponent) (p : Pool) : Pool :=
  mkPool (data p ++ [object]).

(** [void Set(unsigned int index, TComponent object) { data[index] = object; }] *)
Definition Set_ (index : Z) (object : TComponent) (p : Pool) : res Pool :=
  res_bind (vector_set index object (data p)) (λ d, Ok (mkPool d)).

(** [TComponent& Get(unsigned int index)] *)
Definition Get (index : Z) (p : Pool) : res TComponent :=
  vector_at index (data p).
End Pool.
End Pool.

(** ** ECS.hpp: signatures, entities, systems *)

Definition MAX_COMPONENTS : Z := 64.

(** [typedef std::bitset<MAX_COMPONENTS> Signature;] *)
Abbreviation Signature := Z (only parsing).

(** [bitset::reset()] *)
Definition bitset_reset (s : Signature) : Signature := 0.

(** [bitset::set(pos, val)], which throws when [pos] is not below the width. *)
Definition bitset_set (pos : Z) (val : bool) (s : Signature) : res Signature :=
  if decide (0 ≤ pos < MAX_COMPONENTS) then
    Ok (if val then Z.setbit s pos else Z.clearbit s pos)
  else Err OutOfRange.

(** [bitset::test(pos)], which throws when [pos] is not below the width. *)
Definition bitset_test (pos : Z) (s : Signature) : res bool :=
  if decide (0 ≤ pos < MAX_COMPONENTS) then Ok (Z.testbit s pos)
  else Err OutOfRange.

(** An entity handle. The [registry] back pointer is left out: one registry
    is modelled and the comparison operators read the id alone. *)
Record Entity : Type := mkEntity { entity_id : Z }.

Definition GetId (e : Entity) : Z := entity_id e.

#[global] Instance Entity_eq_dec : EqDecision Entity.
Proof. solve_decision. Defined.

#[global] Instance Entity_countable : Countable Entity.
Proof. by apply (inj_countable' entity_id mkEntity); intros []. Defined.

(** [operator<] of [Entity], in its reflexive form for sorting. *)
Definition Entity_le (a b : Entity) : Prop := GetId a ≤ GetId b.

#[global] Instance Entity_le_dec : RelDecision Entity_le.
Proof. intros a b. unfold Entity_le. apply _. Defined.

(** Iteration over a [std::set<int>] and a [std::set<Entity>]: ascending. *)
Definition set_iter_int (s : gset Z) : list Z := merge_sort Z.le (elements s).
Definition set_iter_entity (s : gset Entity) : list Entity :=
  merge_sort Entity_le (elements s).

Record System : Type := mkSystem {
  componentSignature : Signature;
  entities : list Entity
}.

(** [System() = default;] *)
Definition System_new : System := mkSystem 0 [].

Definition AddEntityToSystem (entity : Entity) (s : System) : System :=
  mkSystem (componentSignature s) (entities s ++ [entity]).

(** [std::remove_if] with the predicate [entity == other], then [erase]. *)
Definition RemoveEntityFromSystem (entity : Entity) (s : System) : System :=
  mkSystem (componentSignature s)
           (filter (λ other, entity ≠ other) (entities s)).

Definition GetSystemEntities (s : System) : list Entity := entities s.

Definition GetComponentSignature (s : System) : Signature := componentSignature s.

(** [RequireComponent<TComponent>()], given [Component<TComponent>::GetId()]. *)
Definition RequireComponent (componentId : Z) (s : System) : res System :=
  res_bind (bitset_set (to_size_t componentId) true (componentSignature s))
           (λ sig, Ok (mkSystem sig (entities s))).

(** A system constructor: the [RequireComponent] calls of its body, in order,
    on a default-constructed [System]. *)
Fixpoint System_construct_from (required : list Z) (s : System) : res System :=
  match required with
  | [] => Ok s
  | c :: rest => res_bind (RequireComponent c s) (System_construct_from rest)
  end.

Definition System_construct (required : list Z) : res System :=
  System_construct_from required System_new.

(** [(entityComponentSignature & systemComponentSignature) == systemComponentSignature] *)
Definition isInterested (entitySig systemSig : Signature) : bool :=
  bool_decide (Z.land entitySig systemSig = systemSig).

(** What the registry writes to the console. *)
Inductive message : Type :=
| CoutFreeingAll
    (* std::cout << "[REGISTRY] Now Freeing All ID" *)
| CerrKillNonExistent (entityId : Z)
    (* std::cerr << "[ERROR] Attempting to kill non-existent entity: " << entityId *)
| CerrReuseMarkedForKilling (entityId : Z).
    (* std::cerr << "[Registry] Attempted to reuse entity ID that was marked for killing: " << entityId *)

Definition is_diagnostic (m : message) : bool :=
  match m with
  | CoutFreeingAll => false
  | CerrKillNonExistent _ | CerrReuseMarkedForKilling _ => true
  end.

(** [std::type_index(typeid(TSystem))] *)
Abbreviation type_index := string (only parsing).

(** *** Closed forms of the reconciliation loops

    These functions are not in the source: they name what the loops of
    [Update] and [ClearAllEntities] compute, and are related to the loops
    by [AddEntityToSystems_loop], [Update_kill_loop] and
    [ClearAllEntities_free_loop] below. *)

(** The index [entityComponentSignatures[entityId]] denotes. *)
Definition signature_index (entityId : Z) : nat := Z.to_nat (to_size_t entityId).

(** [reset()] on the signature of every id of [ids], in order. *)
Definition reset_signatures (ids : list Z) (sigs : list Signature) : list Signature :=
  foldl (λ s entityId, <[signature_index entityId := 0]> s) sigs ids.

(** The signature an in-range read of the table returns. *)
Definition signature_in (sigs : list Signature) (entity : Entity) : Signature :=
  default 0 (sigs !! signature_index (GetId entity)).

(** A system after [AddEntityToSystems] on every entity of [staged], in order. *)
Definition System_with (sigs : list Signature) (staged : list Entity) (s : System) : System :=
  mkSystem (componentSignature s)
    (entities s ++
     filter (λ e, isInterested (signature_in sigs e) (componentSignature s) = true) staged).

(** A system after [RemoveEntityFromSystem] on every entity of [gone]. *)
Definition System_without (gone : list Entity) (s : System) : System :=
  mkSystem (componentSignature s) (filter (λ e, e ∉ gone) (entities s)).

(** ** ECS.hpp / ECS.cpp: the numbering of the component types *)

Module ComponentIds.

(** [int IComponent::nextId = 0;] and, for each component type [T], the
    function-local [static int id] of [Component<T>::GetId()], which is
    initialised by the first call for [T] and kept from then on. *)
Record state : Type := mkState {
  nextId : Z;
  ids : gmap type_index Z
}.

Definition init : state := mkState 0 ∅.

(** [static int id = nextId++; return id;] *)
Definition GetId (T : type_index) (st : state) : res (Z * state) :=
  match ids st !! T with
  | Some id => Ok (id, st)
  | None =>
      res_bind (int_add (nextId st) 1) (λ next,
        Ok (nextId st, mkState next (<[T := nextId st]> (ids st))))
  end.

(** [Component<T>::GetId()] for each [T] of a list, in order. *)
Fixpoint GetIds (Ts : list type_index) (st : state) : res (list Z * state) :=
  match Ts with
  | [] => Ok ([], st)
  | T :: rest =>
      res_bind (GetId T st) (λ '(id, st1),
        res_bind (GetIds rest st1) (λ '(l, st2), Ok (id :: l, st2)))
  end.

(** The ids handed out so far lie below [nextId] and no two types share
    one. *)
Record numbered (st : state) : Prop := mk_numbered {
  numbered_nonneg : 0 ≤ nextId st;
  numbered_below : ∀ T id, ids st !! T = Some id → 0 ≤ id < nextId st;
  numbered_inj : ∀ T T' id, ids st !! T = Some id → ids st !! T' = Some id → T = T'
}.
End ComponentIds.

(** ** ECS.hpp / ECS.cpp: the registry *)

Section Registry.
(** Component values are type-erased: one type stands for every
    [TComponent], with [value_init] its value-initialised element. *)
Context {TComponent : Type} (value_init : TComponent).

Record Registry : Type := mkRegistry {
  numEntity : Z;
  componentsPools : list (option (Pool.Pool (TComponent := TComponent)));
  entityComponentSignatures : list Signature;
  systems : gmap type_index System;
  entitiesToBeAdded : gset Entity;
  entitiesToBeKilled : gset Entity;
  freeIds : list Z;
  activeEntityIds : gset Z
}.

(** The registry as its member initialisers leave it. *)
Definition Registry_new : Registry :=
  mkRegistry 0 [] [] ∅ ∅ ∅ [] ∅.

Definition set_numEntity (n : Z) (r : Registry) : Registry :=
  mkRegistry n (componentsPools r) (entityComponentSignatures r) (systems r)
    (entitiesToBeAdded r) (entitiesToBeKilled r) (freeIds r) (activeEntityIds r).

Definition set_componentsPools (p : list (option Pool.Pool)) (r : Registry) : Registry :=
  mkRegistry (numEntity r) p (entityComponentSignatures r) (systems r)
    (entitiesToBeAdded r) (entitiesToBeKilled r) (freeIds r) (activeEntityIds r).

Definition set_entityComponentSignatures (s : list Signature) (r : Registry) : Registry :=
  mkRegistry (numEntity r) (componentsPools r) s (systems r)
    (entitiesToBeAdded r) (entitiesToBeKilled r) (freeIds r) (activeEntityIds r).

Definition set_systems (s : gmap type_index System) (r : Registry) : Registry :=
  mkRegistry (numEntity r) (componentsPools r) (entityComponentSignatures r) s
    (entitiesToBeAdded r) (entitiesToBeKilled r) (freeIds r) (activeEntityIds r).

Definition set_entitiesToBeAdded (s : gset Entity) (r : Registry) : Registry :=
  mkRegistry (numEntity r) (componentsPools r) (entityComponentSignatures r) (systems r)
    s (entitiesToBeKilled r) (freeIds r) (activeEntityIds r).

Definition set_entitiesToBeKilled (s : gset Entity) (r : Registry) : Registry :=
  mkRegistry (numEntity r) (componentsPools r) (entityComponentSignatures r) (systems r)
    (entitiesToBeAdded r) s (freeIds r) (activeEntityIds r).

Definition set_freeIds (l : list Z) (r : Registry) : Registry :=
  mkRegistry (numEntity r) (componentsPools r) (entityComponentSignatures r) (systems r)
    (entitiesToBeAdded r) (entitiesToBeKilled r) l (activeEntityIds r).

Definition set_activeEntityIds (s : gset Z) (r : Registry) : Registry :=
  mkRegistry (numEntity r) (componentsPools r) (entityComponentSignatures r) (systems r)
    (entitiesToBeAdded r) (entitiesToBeKilled r) (freeIds r) s.

(** *** The monad of member functions *)

Inductive outcome (A : Type) : Type :=
| Ret (a : A) (r : Registry) (out : list message)   (* normal return *)
| Fault (f : fault)                                 (* undefined behaviour or exception *)
| Timeout.                                          (* the model ran out of fuel *)
Arguments Ret {A} a r out.
Arguments Fault {A} f.
Arguments Timeout {A}.

Definition M (A : Type) : Type := Registry → outcome A.

#[global] Instance M_ret : MRet M := λ A a r, Ret a r [].

#[global] Instance M_bind : MBind M := λ A B k m r,
  match m r with
  | Ret a r1 out1 =>
      match k a r1 with
      | Ret b r2 out2 => Ret b r2 (out1 ++ out2)
      | Fault f => Fault f
      | Timeout => Timeout
      end
  | Fault f => Fault f
  | Timeout => Timeout
  end.

Definition get : M Registry := λ r, Ret r r [].
Definition modify (f : Registry → Registry) : M unit := λ r, Ret tt (f r) [].
Definition print (m : message) : M unit := λ r, Ret tt r [m].
Definition lift {A} (x : res A) : M A := λ r,
  match x with
  | Ok a => Ret a r []
  | Err f => Fault f
  end.
Definition timeout {A} : M A := λ _, Timeout.

(** A range-based [for] over an already enumerated container. *)
Fixpoint for_each {A} (l : list A) (body : A → M unit) : M unit :=
  match l with
  | [] => mret tt
  | x :: rest => body x;; for_each rest body
  end.

(** [entityComponentSignatures[entityId]] read. *)
Definition signature_at (entityId : Z) : M Signature :=
  r ← get;
  lift (vector_at (to_size_t entityId) (entityComponentSignatures r)).

(** [entityComponentSignatures[entityId].f(...)] for a mutating [f]. *)
Definition update_signature (entityId : Z) (f : Signature → res Signature) : M unit :=
  r ← get;
  sig ← lift (vector_at (to_size_t entityId) (entityComponentSignatures r));
  sig' ← lift (f sig);
  sigs ← lift (vector_set (to_size_t entityId) sig' (entityComponentSignatures r));
  modify (set_entityComponentSignatures sigs).

(** *** Entity management, ECS.cpp *)

(** The statement sequence of [CreateEntity], lines 45-56, repeated as the
    body of its [while] loop, lines 62-73: take the front of [freeIds], or
    else the counter [numEntity++], growing the signature table. *)
Definition CreateEntity_pick : M Z :=
  r ← get;
  match freeIds r with
  | [] =>
      let entityId := numEntity r in
      next ← lift (int_add (numEntity r) 1);
      modify (set_numEntity next);;
      (if decide (Z.of_nat (length (entityComponentSignatures r)) ≤ to_size_t entityId)
       then
         n ← lift (int_add entityId 100);
         sigs ← lift (vector_resize 0 (to_size_t n) (entityComponentSignatures r));
         modify (set_entityComponentSignatures sigs)
       else mret tt);;
      mret entityId
  | front :: rest =>
      modify (set_freeIds rest);;
      mret front
  end.

(** [while (activeEntityIds.find(entityId) != activeEntityIds.end())] *)
Fixpoint CreateEntity_while (fuel : nat) (entityId : Z) : M Z :=
  match fuel with
  | O => timeout
  | S fuel' =>
      r ← get;
      if decide (entityId ∈ activeEntityIds r) then
        entityId' ← CreateEntity_pick;
        CreateEntity_while fuel' entityId'
      else mret entityId
  end.

Fixpoint CreateEntity_fuel (fuel : nat) : M Entity :=
  match fuel with
  | O => timeout
  | S fuel' =>
      entityId ← CreateEntity_pick;
      entityId ← CreateEntity_while fuel entityId;
      let entity := mkEntity entityId in
      r ← get;
      if decide (entity ∉ entitiesToBeKilled r) then
        modify (λ r, set_entitiesToBeAdded ({[entity]} ∪ entitiesToBeAdded r) r);;
        modify (λ r, set_activeEntityIds ({[entityId]} ∪ activeEntityIds r) r);;
        mret entity
      else
        print (CerrReuseMarkedForKilling entityId);;
        CreateEntity_fuel fuel'
  end.

(** Enough fuel for every registry: see [CreateEntity_fuel_enough]. *)
Definition CreateEntity_bound (r : Registry) : nat :=
  (length (freeIds r) + size (activeEntityIds r) + size (entitiesToBeKilled r) + 2)%nat.

Definition CreateEntity : M Entity :=
  λ r, CreateEntity_fuel (CreateEntity_bound r) r.

Definition RemoveEntityFromSystems (entity : Entity) : M unit :=
  modify (λ r, set_systems (RemoveEntityFromSystem entity <$> systems r) r).

Definition AddEntityToSystems (entity : Entity) : M unit :=
  let entityId := GetId entity in
  entityComponentSignature ← signature_at entityId;
  modify (λ r, set_systems
    ((λ system,
        if isInterested entityComponentSignature (GetComponentSignature system)
        then AddEntityToSystem entity system else system) <$> systems r) r).

Definition KillEntity (entity : Entity) : M unit :=
  let entityId := GetId entity in
  r ← get;
  if decide (entityId ∉ activeEntityIds r) then
    print (CerrKillNonExistent entityId)
  else
    RemoveEntityFromSystems entity;;
    update_signature entityId (λ s, Ok (bitset_reset s));;
    modify (λ r, set_entitiesToBeKilled ({[entity]} ∪ entitiesToBeKilled r) r).

(** The body of the second loop of [Update], lines 141-146. *)
Definition Update_kill (entity : Entity) : M unit :=
  let entityId := GetId entity in
  RemoveEntityFromSystems entity;;
  update_signature entityId (λ s, Ok (bitset_reset s));;
  modify (λ r, set_activeEntityIds (activeEntityIds r ∖ {[entityId]}) r);;
  modify (λ r, set_freeIds (freeIds r ++ [entityId]) r).

Definition Update : M unit :=
  r ← get;
  for_each (set_iter_entity (entitiesToBeAdded r)) AddEntityToSystems;;
  modify (set_entitiesToBeAdded ∅);;
  r ← get;
  for_each (set_iter_entity (entitiesToBeKilled r)) Update_kill;;
  modify (set_entitiesToBeKilled ∅).

(** The body of the loop of [ClearAllEntities], lines 155-158. *)
Definition ClearAllEntities_free (entityId : Z) : M unit :=
  RemoveEntityFromSystems (mkEntity entityId);;
  update_signature entityId (λ s, Ok (bitset_reset s));;
  modify (λ r, set_freeIds (freeIds r ++ [entityId]) r).

Definition ClearAllEntities : M unit :=
  print CoutFreeingAll;;
  r ← get;
  for_each (set_iter_int (activeEntityIds r)) ClearAllEntities_free;;
  modify (set_activeEntityIds ∅).

Definition GetNextAvailableId : M Z :=
  r ← get;
  match freeIds r with
  | front :: rest => modify (set_freeIds rest);; mret front
  | [] =>
      next ← lift (int_add (numEntity r) 1);
      modify (set_numEntity next);;
      mret (numEntity r)
  end.

(** *** Component management, ECS.hpp

    [componentId] stands for [Component<TComponent>::GetId()]. *)

Definition AddComponent (entity : Entity) (componentId : Z)
    (newComponent : TComponent) : M unit :=
  let entityId := GetId entity in
  r ← get;
  pools ←
    (if decide (Z.of_nat (length (componentsPools r)) ≤ to_size_t componentId) then
       n ← lift (int_add componentId 10);
       lift (vector_resize None (to_size_t n) (componentsPools r))
     else mret (componentsPools r));
  slot ← lift (vector_at (to_size_t componentId) pools);
  componentPool ←
    match slot with
    | None => lift (Pool.new value_init 1000)
    | Some pool => mret pool
    end;
  componentPool ←
    (if decide (Pool.GetSize componentPool ≤ entityId) then
       n ← lift (int_add (numEntity r) 100);
       lift (Pool.Resize value_init n componentPool)
     else mret componentPool);
  componentPool ← lift (Pool.Set_ (to_unsigned entityId) newComponent componentPool);
  pools ← lift (vector_set (to_size_t componentId) (Some componentPool) pools);
  modify (set_componentsPools pools);;
  update_signature entityId (bitset_set (to_size_t componentId) true).

Definition RemoveComponent (entity : Entity) (componentId : Z) : M unit :=
  let entityId := GetId entity in
  update_signature entityId (bitset_set (to_size_t componentId) false).

Definition HasComponent (entity : Entity) (componentId : Z) : M bool :=
  let entityId := GetId entity in
  sig ← signature_at entityId;
  lift (bitset_test (to_size_t componentId) sig).

Definition GetComponent (entity : Entity) (componentId : Z) : M TComponent :=
  let entityId := GetId entity in
  r ← get;
  slot ← lift (vector_at (to_size_t componentId) (componentsPools r));
  match slot with
  | None => lift (Err UndefinedBehaviour)   (* null pointer dereference *)
  | Some componentPool => lift (Pool.Get (to_unsigned entityId) componentPool)
  end.

(** *** System management, ECS.hpp

    [TSystem] stands for [std::type_index(typeid(TSystem))]; the
    constructor of [TSystem] is given by the components it requires. *)

Definition AddSystem (TSystem : type_index) (required : list Z) : M unit :=
  newSystem ← lift (System_construct required);
  (* unordered_map::insert keeps an element whose key is already present *)
  modify (λ r,
    match systems r !! TSystem with
    | Some _ => r
    | None => set_systems (<[TSystem := newSystem]> (systems r)) r
    end).

Definition RemoveSystem (TSystem : type_index) : M unit :=
  r ← get;
  match systems r !! TSystem with
  | None => lift (Err UndefinedBehaviour)   (* systems.erase(systems.end()) *)
  | Some _ => modify (λ r, set_systems (delete TSystem (systems r)) r)
  end.

Definition HasSystem (TSystem : type_index) : M bool :=
  r ← get;
  mret (bool_decide (is_Some (systems r !! TSystem))).

Definition GetSystem (TSystem : type_index) : M System :=
  r ← get;
  match systems r !! TSystem with
  | None => lift (Err UndefinedBehaviour)   (* systems.end()->second *)
  | Some system => mret system
  end.

(** *** Calls on a registry and the states they reach *)

Inductive call : Type :=
| CallCreateEntity
| CallKillEntity (entity : Entity)
| CallUpdate
| CallClearAllEntities
| CallAddComponent (entity : Entity) (componentId : Z) (newComponent : TComponent)
| CallRemoveComponent (entity : Entity) (componentId : Z)
| CallAddSystem (TSystem : type_index) (required : list Z)
| CallRemoveSystem (TSystem : type_index).

Definition run_call (c : call) : M unit :=
  match c with
  | CallCreateEntity => CreateEntity;; mret tt
  | CallKillEntity entity => KillEntity entity
  | CallUpdate => Update
  | CallClearAllEntities => ClearAllEntities
  | CallAddComponent entity componentId newComponent =>
      AddComponent entity componentId newComponent
  | CallRemoveComponent entity componentId => RemoveComponent entity componentId
  | CallAddSystem TSystem required => AddSystem TSystem required
  | CallRemoveSystem TSystem => RemoveSystem TSystem
  end.

(** One call that returns normally. *)
Definition step (r : Registry) (c : call) (r' : Registry) : Prop :=
  ∃ out, run_call c r = Ret tt r' out.

(** A sequence of calls, each returning normally. *)
Inductive steps : Registry → list call → Registry → Prop :=
| steps_nil r : steps r [] r
| steps_cons r c r1 cs r2 : step r c r1 → steps r1 cs r2 → steps r (c :: cs) r2.

Definition reachable (r : Registry) : Prop := ∃ cs, steps Registry_new cs r.

(** The sequence run as a program, for concrete scenarios. *)
Fixpoint run_calls (cs : list call) : M unit :=
  match cs with
  | [] => mret tt
  | c :: rest => run_call c;; run_calls rest
  end.

(** *** Invariants of the reachable states *)

(** The counter bounds every id the registry knows, and the signature
    table covers the counter. *)
Record wf (r : Registry) : Prop := mk_wf {
  wf_numEntity : 0 ≤ numEntity r ≤ INT_MAX;
  wf_signatures : numEntity r ≤ Z.of_nat (length (entityComponentSignatures r));
  wf_active : ∀ x, x ∈ activeEntityIds r → 0 ≤ x < numEntity r;
  wf_free : ∀ x, x ∈ freeIds r → 0 ≤ x < numEntity r;
  wf_killed : ∀ e, e ∈ entitiesToBeKilled r → 0 ≤ GetId e < numEntity r;
  wf_added : ∀ e, e ∈ entitiesToBeAdded r → 0 ≤ GetId e < numEntity r
}.

(** What is left for [CreateEntity] to go through: the free queue, and the
    active and pending-kill ids the counter has yet to pass. *)
Definition CreateEntity_measure (r : Registry) : nat :=
  (length (freeIds r)
   + size (filter (λ x, (numEntity r ≤ x)%Z) (activeEntityIds r))
   + size (filter (λ e, (numEntity r ≤ GetId e)%Z) (entitiesToBeKilled r)))%nat.

(** Every entity of [l] indexes the signature table. *)
Definition in_table (sigs : list Signature) (l : list Entity) : Prop :=
  Forall (λ e, is_Some (sigs !! signature_index (GetId e))) l.

(** The registry [Update] returns when it returns. *)
Definition Update_result (r : Registry) : Registry :=
  let staged := set_iter_entity (entitiesToBeAdded r) in
  let gone := set_iter_entity (entitiesToBeKilled r) in
  mkRegistry (numEntity r) (componentsPools r)
    (reset_signatures (GetId <$> gone) (entityComponentSignatures r))
    (System_without gone <$>
       (System_with (entityComponentSignatures r) staged <$> systems r))
    ∅ ∅
    (freeIds r ++ (GetId <$> gone))
    (activeEntityIds r ∖ list_to_set (GetId <$> gone)).

(** The registry [ClearAllEntities] returns when it returns. *)
Definition ClearAllEntities_result (r : Registry) : Registry :=
  let ids := set_iter_int (activeEntityIds r) in
  mkRegistry (numEntity r) (componentsPools r)
    (reset_signatures ids (entityComponentSignatures r))
    (System_without (mkEntity <$> ids) <$> systems r)
    (entitiesToBeAdded r) (entitiesToBeKilled r)
    (freeIds r ++ ids)
    ∅.

(** What [CreateEntity_pick] may change between two registries: the free
    queue loses a prefix, the counter and the signature table grow. *)
Record picked (r r' : Registry) : Prop := mk_picked {
  picked_active : activeEntityIds r' = activeEntityIds r;
  picked_killed : entitiesToBeKilled r' = entitiesToBeKilled r;
  picked_added : entitiesToBeAdded r' = entitiesToBeAdded r;
  picked_systems : systems r' = systems r;
  picked_pools : componentsPools r' = componentsPools r;
  picked_free : freeIds r' `suffix_of` freeIds r;
  picked_numEntity : numEntity r ≤ numEntity r'
}.

(** The entities handed out by [CreateEntity] whose id is still marked
    active, along a sequence of calls that all return normally. *)
Fixpoint run_live (cs : list call) (live : list Entity) (r : Registry)
    : option (list Entity * Registry) :=
  match cs with
  | [] => Some (live, r)
  | c :: rest =>
      match c with
      | CallCreateEntity =>
          match CreateEntity r with
          | Ret entity r' _ => run_live rest (entity :: live) r'
          | _ => None
          end
      | _ =>
          match run_call c r with
          | Ret _ r' _ =>
              run_live rest (filter (λ e, GetId e ∈ activeEntityIds r') live) r'
          | _ => None
          end
      end
  end.

(** Without [ClearAllEntities] the free queue stays clear of the ids in
    use: no duplicates, nothing active, and every staged kill still
    active. *)
Record tidy (r : Registry) : Prop := mk_tidy {
  tidy_NoDup : NoDup (freeIds r);
  tidy_free : ∀ x, x ∈ freeIds r → x ∉ activeEntityIds r;
  tidy_killed : ∀ e, e ∈ entitiesToBeKilled r → GetId e ∈ activeEntityIds r
}.

(** Whether every [ClearAllEntities] of the sequence [cs], run from [r],
    is called while no entity is staged for killing. *)
Fixpoint clears_idle (cs : list call) (r : Registry) : bool :=
  match cs with
  | [] => true
  | c :: rest =>
      match c with
      | CallClearAllEntities => bool_decide (entitiesToBeKilled r = ∅)
      | _ => true
      end &&
      match run_call c r with
      | Ret _ r' _ => clears_idle rest r'
      | _ => true
      end
  end.


(** No id is lost: every id below the counter is active or waits in the
    free queue. *)
Definition conserved (r : Registry) : Prop :=
  ∀ x, 0 ≤ x < numEntity r → x ∈ activeEntityIds r ∨ x ∈ freeIds r.

(** Without [ClearAllEntities] the member lists stay in step with the
    bookkeeping: a member is active and not staged either way, the staged
    additions are active, and no member list repeats an entity. *)
Record settled (r : Registry) : Prop := mk_settled {
  settled_members : ∀ (T : type_index) s e,
    systems r !! T = Some s → e ∈ entities s →
    GetId e ∈ activeEntityIds r ∧ (e ∉ entitiesToBeAdded r) ∧
    (e ∉ entitiesToBeKilled r);
  settled_added : ∀ e, e ∈ entitiesToBeAdded r → GetId e ∈ activeEntityIds r;
  settled_NoDup : ∀ (T : type_index) s, systems r !! T = Some s → NoDup (entities s)
}.

End Registry.

Arguments Ret {TComponent A} a r out.
Arguments Fault {TComponent A} f.
Arguments Timeout {TComponent A}.

(** *** Concrete scenarios

    Component values are integers here; component id 0 stands for the
    transform component and 1 for the sprite component. *)

(** The registry a sequence of calls leaves, started from a new registry. *)
Definition registry_after (cs : list (call (TComponent := Z))) : Registry :=
  match run_calls 0 cs Registry_new with
  | Ret _ r _ => r
  | _ => Registry_new
  end.

(** One entity created and nothing else. *)
Definition one_entity : list (call (TComponent := Z)) := [CallCreateEntity].

(** A render system requiring transform and sprite; an entity with both
    components and an entity with the transform only; no [Update] yet. *)
Definition two_staged : list (call (TComponent := Z)) :=
  [CallAddSystem "RenderSystem" [0; 1];
   CallCreateEntity;
   CallAddComponent (mkEntity 0) 0 10;
   CallAddComponent (mkEntity 0) 1 20;
   CallCreateEntity;
   CallAddComponent (mkEntity 1) 0 30].

(** An entity reconciled by [Update] before the audio system, which
    requires no component, is registered; then a second [Update]. *)
Definition late_system : list (call (TComponent := Z)) :=
  [CallCreateEntity; CallUpdate; CallAddSystem "AudioSystem" []; CallUpdate].

(** An entity reconciled by [Update] before it is given the rigid-body
    component (id 0) that the physics system requires; then a second
    [Update]. *)
Definition late_component : list (call (TComponent := Z)) :=
  [CallAddSystem "PhysicsSystem" [0]; CallCreateEntity; CallUpdate;
   CallAddComponent (mkEntity 0) 0 5; CallUpdate].

(** [two_staged] reconciled. *)
Definition reconciled : list (call (TComponent := Z)) := two_staged ++ [CallUpdate].

(** An entity killed and the registry cleared before the next [Update]. *)
Definition kill_then_clear : list (call (TComponent := Z)) :=
  [CallCreateEntity; CallKillEntity (mkEntity 0); CallClearAllEntities].

(** An entity created, killed and reconciled. *)
Definition kill_then_update : list (call (TComponent := Z)) :=
  [CallCreateEntity; CallKillEntity (mkEntity 0); CallUpdate].

(** [kill_then_clear] followed by an [Update] and two creations: the free
    queue then holds id 0 twice. *)
Definition clear_then_create : list (call (TComponent := Z)) :=
  kill_then_clear ++ [CallUpdate; CallCreateEntity; CallCreateEntity].

(** Two entities; the first is killed and the frame reconciled, then the
    registry is cleared with no kill pending; an entity is created again
    and killed, with no [Update] yet. *)
Definition clear_between_frames : list (call (TComponent := Z)) :=
  [CallCreateEntity; CallCreateEntity; CallKillEntity (mkEntity 0); CallUpdate;
   CallClearAllEntities; CallCreateEntity; CallKillEntity (mkEntity 0)].

(** ** BoxColliderComponent.hpp: the list of excluded tags *)

Module BoxCollider.
Section BoxCollider.
(** [glm::vec2], which the functions below do not read. *)
Context {vec2 : Type}.

Record BoxColliderComponent : Type := mkBoxColliderComponent {
  width : Z;
  height : Z;
  offset : vec2;
  excludeCollisionList : list string
}.

(** [v.erase(std::find(v.begin(), v.end(), tag))] when the tag is found. *)
Fixpoint erase_first (tag : string) (l : list string) : list string :=
  match l with
  | [] => []
  | x :: rest => if decide (x = tag) then rest else x :: erase_first tag rest
  end.

Definition AddExclusion (tag : string) (b : BoxColliderComponent) : BoxColliderComponent :=
  if decide (tag ∈ excludeCollisionList b) then b
  else mkBoxColliderComponent (width b) (height b) (offset b)
         (excludeCollisionList b ++ [tag]).

Definition RemoveExclusion (tag : string) (b : BoxColliderComponent) : BoxColliderComponent :=
  mkBoxColliderComponent (width b) (height b) (offset b)
    (erase_first tag (excludeCollisionList b)).

Definition IsExcluded (tag : string) (b : BoxColliderComponent) : bool :=
  bool_decide (tag ∈ excludeCollisionList b).

(** The constructor: the exclusion list starts empty. *)
Definition new (width height : Z) (offset : vec2) : BoxColliderComponent :=
  mkBoxColliderComponent width height offset [].

(** The two calls that change the exclusion list, and a sequence of them. *)
Inductive edit : Type :=
| CallAddExclusion (tag : string)
| CallRemoveExclusion (tag : string).

Definition run_edit (b : BoxColliderComponent) (c : edit) : BoxColliderComponent :=
  match c with
  | CallAddExclusion tag => AddExclusion tag b
  | CallRemoveExclusion tag => RemoveExclusion tag b
  end.

(** Not in the source: whether the last edit of [cs] that names [tag]
    is an [AddExclusion], [excluded] standing for the answer before [cs]. *)
Definition last_edit_adds (tag : string) (excluded : bool) (cs : list edit) : bool :=
  foldl (λ acc c,
           match c with
           | CallAddExclusion t => if decide (t = tag) then true else acc
           | CallRemoveExclusion t => if decide (t = tag) then false else acc
           end) excluded cs.
End BoxCollider.
End BoxCollider.

(** ** AnimationSystem.hpp: the frame of an animated sprite *)

Module Animation.

(** [int * int], [int - int] and [int % int]; leaving the [int] range and
    dividing by zero are undefined behaviour. *)
Definition int_mul (a b : Z) : res Z :=
  if decide (INT_MIN ≤ a * b ≤ INT_MAX) then Ok (a * b)
  else Err UndefinedBehaviour.

Definition int_sub (a b : Z) : res Z :=
  if decide (INT_MIN ≤ a - b ≤ INT_MAX) then Ok (a - b)
  else Err UndefinedBehaviour.

Definition int_rem (a b : Z) : res Z :=
  if decide (b = 0) then Err UndefinedBehaviour
  else if decide (a = INT_MIN ∧ b = -1) then Err UndefinedBehaviour
  else Ok (Z.rem a b).

Record AnimationComponent : Type := mkAnimationComponent {
  numFrames : Z;
  currentFrame : Z;
  frameSpeedRate : Z;
  isLoop : bool;
  startTime : Z
}.

Record SDL_Rect : Type := mkSDL_Rect { x : Z; y : Z; w : Z; h : Z }.

Record SpriteComponent : Type := mkSpriteComponent {
  textureId : string;
  width : Z;
  height : Z;
  srcRect : SDL_Rect;
  flip : bool
}.

(** The body of the loop of [AnimationSystem::Update], lines 46-63, on the
    two components of one entity; [ticks] is what [SDL_GetTicks()] returns,
    a [Uint32]. The subtraction is done on [unsigned int] and its result
    converted to [int]. *)
Definition Update_entity (ticks : Z) (animation : AnimationComponent)
    (sprite : SpriteComponent) : res (AnimationComponent * SpriteComponent) :=
  let elapsedTime := to_int ((ticks - to_unsigned (startTime animation)) mod 2 ^ 32) in
  res_bind (int_mul elapsedTime (frameSpeedRate animation)) (λ scaled,
  let frameIndex := Z.quot scaled 1000 in
  res_bind
    (if isLoop animation then int_rem frameIndex (numFrames animation)
     else res_bind (int_sub (numFrames animation) 1) (λ last,
            Ok (Z.min frameIndex last))) (λ frame,
  res_bind (int_mul frame (width sprite)) (λ srcX,
  Ok (mkAnimationComponent (numFrames animation) frame (frameSpeedRate animation)
        (isLoop animation) (startTime animation),
      mkSpriteComponent (textureId sprite) (width sprite) (height sprite)
        (mkSDL_Rect srcX (y (srcRect sprite)) (w (srcRect sprite)) (h (srcRect sprite)))
        (flip sprite))))).
End Animation.

(** ** EventManager.hpp *)

Module Events.
Section Events.
(** [Event] stands for the event objects of every type, and [World] for
    what the callbacks act on: the owner instances and all they reach.
    A callback is a function of the event and the world; callbacks that
    call back into the event manager are not covered (the two callbacks
    of the engine, [OverlapSystem::OnCollisionEvent] and
    [UISystem::OnClickEvent], do not). *)
Context {Event World : Type}.

(** [IEventCallback::Execute], through [EventCallback::Call]. *)
Definition IEventCallback : Type := Event → World → World.

Definition HandlerList : Type := list IEventCallback.

(** [std::map<std::type_index, std::unique_ptr<HandlerList>>]: a key may
    hold the null pointer, [None]. *)
Record EventManager : Type := mkEventManager {
  subscribers : gmap type_index (option HandlerList)
}.

Definition new : EventManager := mkEventManager ∅.

Definition Reset (em : EventManager) : EventManager := mkEventManager ∅.

(** [subscribers[key]]: a missing key is inserted with the null pointer. *)
Definition subscript (key : type_index) (m : gmap type_index (option HandlerList))
    : gmap type_index (option HandlerList) :=
  match m !! key with
  | Some _ => m
  | None => <[key := None]> m
  end.

(** The pointer [subscribers[key]] holds once the key is there. *)
Definition handlers_at (key : type_index) (m : gmap type_index (option HandlerList))
    : option HandlerList :=
  default None (m !! key).

Definition SubscribeToEvent (TEvent : type_index) (callback : IEventCallback)
    (em : EventManager) : EventManager :=
  let m := subscript TEvent (subscribers em) in
  let m :=
    match handlers_at TEvent m with
    | None => <[TEvent := Some []]> m
    | Some _ => m
    end in
  mkEventManager
    (<[TEvent := Some (default [] (handlers_at TEvent m) ++ [callback])]> m).

(** [EmitEvent<TEvent>(args...)]: [event] is the [TEvent] built from
    [args], anew for every handler. *)
Definition EmitEvent (TEvent : type_index) (event : Event) (em : EventManager)
    (world : World) : EventManager * World :=
  let m := subscript TEvent (subscribers em) in
  match handlers_at TEvent m with
  | Some handlers =>
      (mkEventManager m, foldl (λ world handler, handler event world) world handlers)
  | None => (mkEventManager m, world)
  end.

(** Not in the source: the callbacks subscribed for [TEvent], oldest
    first; none when the key is missing or holds the null pointer. *)
Definition handlers_of (TEvent : type_index) (em : EventManager) : HandlerList :=
  default [] (handlers_at TEvent (subscribers em)).

(** A sequence of [SubscribeToEvent] calls, in order. *)
Definition subscribe_all (subs : list (type_index * IEventCallback))
    (em : EventManager) : EventManager :=
  foldl (λ em sub, SubscribeToEvent sub.1 sub.2 em) em subs.
End Events.
End Events.

(** * Properties *)

(** ** Machine integers and vectors *)

Lemma to_size_t_id (x : Z) : 0 ≤ x < 2 ^ 64 → to_size_t x = x.
Proof. intros H. unfold to_size_t. by apply Z.mod_small. Qed.

Lemma to_unsigned_id (x : Z) : 0 ≤ x < 2 ^ 32 → to_unsigned x = x.
Proof. intros H. unfold to_unsigned. by apply Z.mod_small. Qed.

Lemma to_int_id (x : Z) : INT_MIN ≤ x ≤ INT_MAX → to_int x = x.
Proof.
  unfold to_int, INT_MIN, INT_MAX. intros H.
  rewrite Z.mod_small; lia.
Qed.

Lemma to_size_t_nonneg (x : Z) : 0 ≤ to_size_t x.
Proof. unfold to_size_t. apply Z.mod_pos_bound. lia. Qed.

Lemma int_add_Ok (a b c : Z) :
  int_add a b = Ok c ↔ c = a + b ∧ INT_MIN ≤ a + b ≤ INT_MAX.
Proof. unfold int_add. case_decide; naive_solver. Qed.

Lemma vector_resize_Ok {A} (fill : A) (n : Z) (v v' : list A) :
  vector_resize fill n v = Ok v' →
  0 ≤ n →
  length v' = Z.to_nat n ∧
  (∀ i, (i < length v)%nat → (i < Z.to_nat n)%nat → v' !! i = v !! i) ∧
  (∀ i, (length v ≤ i)%nat → (i < Z.to_nat n)%nat → v' !! i = Some fill).
Proof.
  unfold vector_resize. intros H Hn.
  repeat case_decide; simplify_eq.
  - split_and!.
    + rewrite length_take. lia.
    + intros i _ Hi. by rewrite lookup_take_lt.
    + intros i ? ?. lia.
  - split_and!.
    + rewrite length_app, length_replicate. lia.
    + intros i Hi _. by rewrite lookup_app_l.
    + intros i ? ?. rewrite lookup_app_r by done.
      apply lookup_replicate_2. lia.
Qed.

Lemma vector_resize_grow {A} (fill : A) (n : Z) (v : list A) :
  Z.of_nat (length v) ≤ n ≤ vector_max_size →
  ∃ v', vector_resize fill n v = Ok v' ∧ v `prefix_of` v' ∧ length v' = Z.to_nat n.
Proof.
  intros [H1 H2]. unfold vector_resize.
  rewrite decide_False by lia. case_decide.
  - assert (n = Z.of_nat (length v)) as -> by lia.
    rewrite Nat2Z.id, firstn_all. eauto.
  - eexists; split_and!; [done|by eexists|].
    rewrite length_app, length_replicate. lia.
Qed.

Lemma vector_at_Ok {A} (i : Z) (v : list A) (x : A) :
  vector_at i v = Ok x ↔ 0 ≤ i ∧ v !! Z.to_nat i = Some x.
Proof.
  unfold vector_at. case_decide; [|naive_solver].
  destruct (v !! Z.to_nat i); naive_solver.
Qed.

Lemma vector_set_Ok {A} (i : Z) (x : A) (v v' : list A) :
  vector_set i x v = Ok v' ↔
  0 ≤ i < Z.of_nat (length v) ∧ v' = <[Z.to_nat i := x]> v.
Proof. unfold vector_set. case_decide; naive_solver. Qed.

(** ** Pool *)

Section PoolProperties.
Context {TComponent : Type} (value_init : TComponent).
Implicit Types p : Pool.Pool (TComponent := TComponent).

(** C7 (as amended). [Resize(n)] for an [int] [n >= 0] makes the size
    exactly [n]: the entries below [min(n, old size)] are kept, new slots are
    value-initialised, and the entries from [n] on are dropped, so the pool
    shrinks when [n] is below its size. With [n] at least the old size every
    entry is kept and the size does not decrease. *)
Theorem Pool_Resize_spec p (n : Z) :
  0 ≤ n ≤ INT_MAX →
  ∃ p', Pool.Resize value_init n p = Ok p' ∧
    Z.of_nat (length (Pool.data p')) = n ∧
    (∀ i, (i < length (Pool.data p))%nat → Z.of_nat i < n →
          Pool.data p' !! i = Pool.data p !! i) ∧
    (∀ i, (length (Pool.data p) ≤ i)%nat → Z.of_nat i < n →
          Pool.data p' !! i = Some value_init) ∧
    (∀ i, n ≤ Z.of_nat i → Pool.data p' !! i = None) ∧
    (Z.of_nat (length (Pool.data p)) ≤ n →
       Pool.data p `prefix_of` Pool.data p' ∧
       (length (Pool.data p) ≤ length (Pool.data p'))%nat).
Proof.
  intros Hn. unfold Pool.Resize.
  assert (to_size_t n = n) as -> by (apply to_size_t_id; unfold INT_MAX in *; lia).
  destruct (vector_resize value_init n (Pool.data p)) as [d|f] eqn:Hd.
  - destruct (vector_resize_Ok _ _ _ _ Hd) as (Hlen & Hkeep & Hfill); [lia|].
    exists (Pool.mkPool d). simpl. split_and!; try done.
    + lia.
    + intros i ??. apply Hkeep; lia.
    + intros i ??. apply Hfill; lia.
    + intros i ?. apply lookup_ge_None. lia.
    + intros Hle.
      destruct (vector_resize_grow value_init n (Pool.data p)) as (d' & Hd' & Hpre & _).
      { unfold vector_max_size, INT_MAX in *. lia. }
      rewrite Hd in Hd'. simplify_eq. split; [done|]. lia.
  - unfold vector_resize in Hd. unfold vector_max_size, INT_MAX in *.
    repeat case_decide; try done. lia.
Qed.

End PoolProperties.

(** ** The monad *)

Section RegistryProperties.
Context {TComponent : Type} (value_init : TComponent).
Implicit Types r : Registry (TComponent := TComponent).
Implicit Types out : list message.

Lemma bind_Ret {A B} (m : M A) (k : A → M B) r (b : B) r2 out :
  (m ≫= k) r = Ret b r2 out ↔
  ∃ a r1 out1 out2,
    m r = Ret a r1 out1 ∧ k a r1 = Ret b r2 out2 ∧ out = out1 ++ out2.
Proof.
  unfold mbind, M_bind. split.
  - destruct (m r) as [a r1 out1| |]; try done.
    destruct (k a r1) as [b' r2' out2| |] eqn:Hk; try done.
    intros [= -> -> <-]. by exists a, r1, out1, out2.
  - intros (a & r1 & out1 & out2 & -> & -> & ->). done.
Qed.

Lemma bind_run {A B} (m : M A) (k : A → M B) r (a : A) r1 :
  m r = Ret a r1 [] → (m ≫= k) r = k a r1.
Proof.
  intros H. unfold mbind, M_bind. rewrite H.
  by destruct (k a r1).
Qed.

Lemma bind_not_Timeout {A B} (m : M A) (k : A → M B) r :
  m r ≠ Timeout →
  (∀ a r1 out1, m r = Ret a r1 out1 → k a r1 ≠ Timeout) →
  (m ≫= k) r ≠ Timeout.
Proof.
  intros Hm Hk. unfold mbind, M_bind.
  destruct (m r) as [a r1 out1| |] eqn:E; try done.
  specialize (Hk a r1 out1 eq_refl). by destruct (k a r1).
Qed.

Lemma Ret_inj {A} (a a' : A) r r' out out' :
  Ret a r out = Ret a' r' out' → a = a' ∧ r = r' ∧ out = out'.
Proof. by intros [= -> -> ->]. Qed.

Lemma lift_Ret {A} (x : res A) r (a : A) r' out :
  lift x r = Ret a r' out ↔ x = Ok a ∧ r' = r ∧ out = [].
Proof. unfold lift. destruct x; naive_solver. Qed.

Lemma lift_not_Timeout {A} (x : res A) r : lift x r ≠ @Timeout TComponent A.
Proof. unfold lift. by destruct x. Qed.

(** Inversion of a computation that returned: [inv_bind] splits one bind,
    [inv_prim] reads a primitive computation. *)
Tactic Notation "inv_bind" hyp(H) ident(a) ident(r1) ident(H1) :=
  apply bind_Ret in H as (a & r1 & ? & ? & H1 & H & ->);
  try (match type of a with unit => destruct a end).

Tactic Notation "inv_bind" hyp(H) ident(a) ident(r1) ident(H1) ident(o1) :=
  apply bind_Ret in H as (a & r1 & o1 & ? & H1 & H & ->);
  try (match type of a with unit => destruct a end).

Ltac inv_prim H :=
  lazymatch type of H with
  | lift _ _ = Ret _ ?r1 ?o =>
      apply lift_Ret in H as (H & ? & ?); try subst o; try subst r1
  | _ = Ret ?a ?r1 ?o =>
      unfold get, modify, print, mret, M_ret in H;
      apply Ret_inj in H as (? & ? & ?); try subst o; try subst r1; try subst a
  end.

Lemma update_signature_Ret (entityId : Z) (f : Signature → res Signature) r r' out :
  update_signature entityId f r = Ret tt r' out ↔
  ∃ sig sig',
    entityComponentSignatures r !! Z.to_nat (to_size_t entityId) = Some sig ∧
    f sig = Ok sig' ∧
    r' = set_entityComponentSignatures
           (<[Z.to_nat (to_size_t entityId) := sig']> (entityComponentSignatures r)) r ∧
    out = [].
Proof.
  unfold update_signature. split.
  - intros H.
    inv_bind H r0 r1 Hget. inv_prim Hget.
    inv_bind H sig r1 Hat. inv_prim Hat.
    inv_bind H sig' r1 Hf. inv_prim Hf.
    inv_bind H sigs r1 Hset. inv_prim Hset. inv_prim H.
    apply vector_at_Ok in Hat as [_ Hat]. apply vector_set_Ok in Hset as [_ ->].
    by exists sig, sig'.
  - intros (sig & sig' & Hsig & Hf & -> & ->).
    pose proof (to_size_t_nonneg entityId) as Hpos.
    rewrite (bind_run _ _ r r r) by done.
    rewrite (bind_run _ _ r sig r).
    2:{ apply lift_Ret. split; [|done]. by apply vector_at_Ok. }
    rewrite (bind_run _ _ r sig' r) by (by apply lift_Ret).
    erewrite bind_run; [done|].
    apply lift_Ret. split; [|done]. apply vector_set_Ok. split; [|done].
    apply lookup_lt_Some in Hsig. lia.
Qed.

Lemma signature_at_Ret (entityId : Z) r (sig : Signature) r' out :
  signature_at entityId r = Ret sig r' out ↔
  entityComponentSignatures r !! Z.to_nat (to_size_t entityId) = Some sig ∧
  r' = r ∧ out = [].
Proof.
  unfold signature_at. split.
  - intros H. inv_bind H r0 r1 Hget. inv_prim Hget. inv_prim H.
    apply vector_at_Ok in H as [_ H]. done.
  - intros (H & -> & ->). rewrite (bind_run _ _ r r r) by done.
    apply lift_Ret. split; [|done]. apply vector_at_Ok.
    split; [apply to_size_t_nonneg|done].
Qed.


(** ** Misuse of the registry *)

(** C2 (as amended). [KillEntity] on an id that is not active reports
    the diagnostic on [std::cerr] and returns with the registry unchanged.
    [RemoveSystem<T>()] and [GetSystem<T>()] carry no check: with no system
    of type [T] registered they erase, respectively dereference, the end
    iterator of the map, which is undefined behaviour, and nothing is
    reported. *)
Theorem misuse_operations r (entity : Entity) (TSystem : type_index) :
  GetId entity ∉ activeEntityIds r →
  systems r !! TSystem = None →
  KillEntity entity r = Ret tt r [CerrKillNonExistent (GetId entity)] ∧
  RemoveSystem TSystem r = Fault UndefinedBehaviour ∧
  GetSystem TSystem r = Fault UndefinedBehaviour.
Proof.
  intros Hactive Hsys. split_and!.
  - unfold KillEntity. rewrite (bind_run _ _ r r r) by done.
    by rewrite decide_True.
  - unfold RemoveSystem. rewrite (bind_run _ _ r r r) by done.
    by rewrite Hsys.
  - unfold GetSystem. rewrite (bind_run _ _ r r r) by done.
    by rewrite Hsys.
Qed.

(** On a registered system type both lookups are defined and silent. *)
Lemma system_lookup_registered r (TSystem : type_index) (system : System) :
  systems r !! TSystem = Some system →
  GetSystem TSystem r = Ret system r [] ∧
  RemoveSystem TSystem r = Ret tt (set_systems (delete TSystem (systems r)) r) [].
Proof.
  intros Hsys. split.
  - unfold GetSystem. rewrite (bind_run _ _ r r r) by done. by rewrite Hsys.
  - unfold RemoveSystem. rewrite (bind_run _ _ r r r) by done. by rewrite Hsys.
Qed.

(** ** Components *)

(** C9. [RemoveComponent<T>(e)], for an entity whose id indexes the
    signature table and a component id below [MAX_COMPONENTS], returns
    silently; it clears bit [T] of [e]'s signature and leaves every other
    bit, every other signature, the pools (the slot of [e] included), the
    active ids, the free ids, the staging sets and the systems as they
    were. *)
Theorem RemoveComponent_frame r (entity : Entity) (componentId : Z) (sig : Signature) :
  0 ≤ GetId entity ≤ INT_MAX →
  entityComponentSignatures r !! Z.to_nat (GetId entity) = Some sig →
  0 ≤ componentId < MAX_COMPONENTS →
  ∃ r',
    RemoveComponent entity componentId r = Ret tt r' [] ∧
    entityComponentSignatures r' =
      <[Z.to_nat (GetId entity) := Z.clearbit sig componentId]>
        (entityComponentSignatures r) ∧
    (∀ k, 0 ≤ k →
       Z.testbit (Z.clearbit sig componentId) k =
       if decide (k = componentId) then false else Z.testbit sig k) ∧
    (∀ i, i ≠ Z.to_nat (GetId entity) →
       entityComponentSignatures r' !! i = entityComponentSignatures r !! i) ∧
    componentsPools r' = componentsPools r ∧
    numEntity r' = numEntity r ∧
    activeEntityIds r' = activeEntityIds r ∧
    freeIds r' = freeIds r ∧
    entitiesToBeAdded r' = entitiesToBeAdded r ∧
    entitiesToBeKilled r' = entitiesToBeKilled r ∧
    systems r' = systems r.
Proof.
  intros Hid Hsig Hc.
  assert (to_size_t (GetId entity) = GetId entity) as Hconv.
  { apply to_size_t_id. unfold INT_MAX in Hid. lia. }
  assert (to_size_t componentId = componentId) as Hconvc.
  { apply to_size_t_id. unfold MAX_COMPONENTS in Hc. lia. }
  eexists. split.
  { unfold RemoveComponent. apply update_signature_Ret.
    exists sig, (Z.clearbit sig componentId). rewrite Hconv, Hconvc.
    split_and!; try done. unfold bitset_set. by rewrite decide_True. }
  simpl. split_and!; try done.
  - intros k Hk. case_decide as Hkc.
    + subst k. apply Z.clearbit_eq; lia.
    + apply Z.clearbit_neq; lia.
  - intros i Hi. by rewrite list_lookup_insert_ne.
Qed.

(** ** Systems *)

Lemma System_construct_from_Ok (required : list Z) (s : System) :
  Forall (λ c, 0 ≤ c < MAX_COMPONENTS) required →
  ∃ s', System_construct_from required s = Ok s' ∧ entities s' = entities s.
Proof.
  intros Hreq. revert s. induction Hreq as [|c rest Hc _ IH]; intros s.
  - by exists s.
  - simpl. unfold RequireComponent, bitset_set.
    rewrite to_size_t_id by (unfold MAX_COMPONENTS in Hc; lia).
    rewrite decide_True by done. simpl.
    destruct (IH (mkSystem (Z.setbit (componentSignature s) c) (entities s)))
      as (s' & -> & Hs'). by exists s'.
Qed.

(** C10. [AddSystem<T>(args...)] with a system of type [T] already
    registered returns silently and leaves the whole registry, the
    registered [T] instance included, as it was: the newly constructed
    system is dropped. The map holds one system per type. *)
Theorem AddSystem_registered r (TSystem : type_index) (required : list Z)
    (system : System) :
  Forall (λ c, 0 ≤ c < MAX_COMPONENTS) required →
  systems r !! TSystem = Some system →
  AddSystem TSystem required r = Ret tt r [] ∧
  GetSystem TSystem r = Ret system r [].
Proof.
  intros Hreq Hsys.
  destruct (System_construct_from_Ok required System_new Hreq) as (s' & Hs' & _).
  split.
  - unfold AddSystem, System_construct. rewrite Hs'.
    rewrite (bind_run _ _ r s' r) by done.
    unfold modify. by rewrite Hsys.
  - by apply system_lookup_registered.
Qed.

(** On a type that is not registered yet the new system is inserted, with
    no members. *)
Lemma AddSystem_fresh r (TSystem : type_index) (required : list Z) :
  Forall (λ c, 0 ≤ c < MAX_COMPONENTS) required →
  systems r !! TSystem = None →
  ∃ newSystem,
    System_construct required = Ok newSystem ∧ entities newSystem = [] ∧
    AddSystem TSystem required r =
      Ret tt (set_systems (<[TSystem := newSystem]> (systems r)) r) [].
Proof.
  intros Hreq Hsys.
  destruct (System_construct_from_Ok required System_new Hreq) as (s' & Hs' & He).
  exists s'. split_and!; try done.
  unfold AddSystem, System_construct. rewrite Hs'.
  rewrite (bind_run _ _ r s' r) by done.
  unfold modify. by rewrite Hsys.
Qed.


(** ** CreateEntity *)

Lemma CreateEntity_pick_free r (front : Z) (rest : list Z) :
  freeIds r = front :: rest →
  CreateEntity_pick r = Ret front (set_freeIds rest r) [].
Proof.
  intros Hfree. unfold CreateEntity_pick.
  rewrite (bind_run _ _ r r r) by done. by rewrite Hfree.
Qed.

Lemma CreateEntity_pick_counter r :
  freeIds r = [] →
  0 ≤ numEntity r → numEntity r + 100 ≤ INT_MAX →
  ∃ sigs,
    CreateEntity_pick r =
      Ret (numEntity r)
          (set_entityComponentSignatures sigs (set_numEntity (numEntity r + 1) r)) [] ∧
    entityComponentSignatures r `prefix_of` sigs ∧
    numEntity r + 1 ≤ Z.of_nat (length sigs).
Proof.
  intros Hfree Hnum Hmax. unfold CreateEntity_pick.
  rewrite (bind_run _ _ r r r) by done. rewrite Hfree.
  assert (int_add (numEntity r) 1 = Ok (numEntity r + 1)) as ->.
  { apply int_add_Ok. unfold INT_MIN, INT_MAX in *. lia. }
  rewrite (bind_run _ _ r (numEntity r + 1) r) by done.
  rewrite (bind_run _ _ r tt (set_numEntity (numEntity r + 1) r)) by done.
  rewrite to_size_t_id by (unfold INT_MAX in *; lia).
  case_decide as Hlen.
  - assert (int_add (numEntity r) 100 = Ok (numEntity r + 100)) as ->.
    { apply int_add_Ok. unfold INT_MIN, INT_MAX in *. lia. }
    destruct (vector_resize_grow 0 (numEntity r + 100) (entityComponentSignatures r))
      as (sigs & Hsigs & Hpre & Hl).
    { unfold vector_max_size, INT_MAX in *. lia. }
    exists sigs. split_and!; [|done|lia].
    unfold mbind, M_bind, lift, modify, mret, M_ret. simpl.
    rewrite to_size_t_id by (unfold INT_MAX in *; lia).
    by rewrite Hsigs.
  - exists (entityComponentSignatures r). split_and!; [|done|lia].
    by erewrite bind_run.
Qed.

Lemma CreateEntity_pick_Ret r (entityId : Z) r' out :
  CreateEntity_pick r = Ret entityId r' out →
  out = [] ∧
  ((∃ rest, freeIds r = entityId :: rest ∧ r' = set_freeIds rest r) ∨
   (freeIds r = [] ∧ entityId = numEntity r ∧ numEntity r + 1 ≤ INT_MAX ∧
    ∃ sigs, r' = set_entityComponentSignatures sigs
                   (set_numEntity (numEntity r + 1) r) ∧
      (0 ≤ numEntity r →
         entityComponentSignatures r `prefix_of` sigs ∧
         numEntity r + 1 ≤ Z.of_nat (length sigs)))).
Proof.
  unfold CreateEntity_pick. intros H.
  inv_bind H r0 r1 Hget. inv_prim Hget.
  destruct (freeIds r) as [|front rest] eqn:Hfree.
  - inv_bind H next r1 Hnext. inv_prim Hnext. apply int_add_Ok in Hnext as [-> Hrange].
    inv_bind H u r1 Hmod. inv_prim Hmod.
    inv_bind H u' r2 Hif. inv_prim H.
    case_decide as Hlen.
    + inv_bind Hif n r3 Hn. inv_prim Hn. apply int_add_Ok in Hn as [-> Hrange'].
      inv_bind Hif sigs r3 Hsigs. inv_prim Hsigs. inv_prim Hif.
      split; [done|]. right. split_and!; try done; try lia.
      exists sigs. split; [done|]. intros Hpos.
      rewrite to_size_t_id in Hlen by (unfold INT_MAX in *; lia).
      rewrite to_size_t_id in Hsigs by (unfold INT_MAX in *; lia).
      destruct (vector_resize_grow 0 (numEntity r + 100) (entityComponentSignatures r))
        as (sigs' & Hsigs' & Hpre & Hl).
      { unfold vector_max_size, INT_MAX in *. lia. }
      rewrite Hsigs in Hsigs'. simplify_eq. split; [done|lia].
    + inv_prim Hif.
      split; [done|]. right. split_and!; try done; try lia.
      exists (entityComponentSignatures r). split; [done|].
      intros Hpos. rewrite to_size_t_id in Hlen by (unfold INT_MAX in *; lia).
      split; [done|lia].
  - inv_bind H u r1 Hmod. inv_prim Hmod. inv_prim H.
    split; [done|]. left. by exists rest.
Qed.


Lemma picked_refl r : picked r r.
Proof. by constructor. Qed.

Lemma picked_trans r1 r2 r3 : picked r1 r2 → picked r2 r3 → picked r1 r3.
Proof.
  intros [] []. constructor; try congruence; [by etrans|lia].
Qed.

Lemma CreateEntity_pick_picked r (entityId : Z) r' out :
  CreateEntity_pick r = Ret entityId r' out → picked r r'.
Proof.
  intros H. apply CreateEntity_pick_Ret in H as (_ & [(rest & Hfree & ->)|H]).
  - constructor; try done. simpl. rewrite Hfree. by apply suffix_cons_r.
  - destruct H as (Hfree & -> & _ & sigs & -> & _).
    constructor; try done. simpl. lia.
Qed.

Lemma CreateEntity_pick_wf r (entityId : Z) r' out :
  CreateEntity_pick r = Ret entityId r' out → wf r →
  wf r' ∧ 0 ≤ entityId < numEntity r' ∧
  (numEntity r' = numEntity r ∨
   (entityId = numEntity r ∧ numEntity r' = numEntity r + 1 ∧ freeIds r' = [])).
Proof.
  intros H Hwf. destruct Hwf as [Hnum Hsigs Hact Hfree Hkill Hadd].
  apply CreateEntity_pick_Ret in H as (_ & [(rest & Hf & ->)|H]).
  - split; [|split].
    + constructor; try done. simpl. intros x Hx. apply Hfree.
      rewrite Hf. apply elem_of_cons. by right.
    + simpl. apply Hfree. rewrite Hf. apply elem_of_cons. by left.
    + by left.
  - destruct H as (Hf & -> & Hmax & sigs & -> & Hgrow).
    destruct (Hgrow (proj1 Hnum)) as [Hpre Hlen]. split; [|split].
    + constructor; simpl; try lia.
      * intros x Hx. specialize (Hact x Hx). lia.
      * intros x Hx. specialize (Hfree x Hx). lia.
      * intros e He. specialize (Hkill e He). lia.
      * intros e He. specialize (Hadd e He). lia.
    + simpl. lia.
    + right. simpl. by rewrite Hf.
Qed.

Lemma CreateEntity_while_Ret (fuel : nat) (entityId : Z) r (entityId' : Z) r' out :
  CreateEntity_while fuel entityId r = Ret entityId' r' out →
  out = [] ∧ picked r r' ∧ (entityId' ∉ activeEntityIds r) ∧
  ((entityId' = entityId ∧ r' = r) ∨ entityId ∈ activeEntityIds r) ∧
  (wf r → 0 ≤ entityId < numEntity r →
     wf r' ∧ 0 ≤ entityId' < numEntity r' ∧
     (numEntity r' = numEntity r ∨
      (entityId' = numEntity r' - 1 ∧ numEntity r < numEntity r'))).
Proof.
  revert entityId r out. induction fuel as [|fuel IH]; intros entityId r out H; [done|].
  simpl in H. inv_bind H r0 r1 Hget. inv_prim Hget.
  case_decide as Hact.
  - inv_bind H id1 r1 Hpick.
    pose proof (CreateEntity_pick_Ret _ _ _ _ Hpick) as [-> _].
    pose proof (CreateEntity_pick_picked _ _ _ _ Hpick) as Hp.
    apply IH in H as (-> & Hp' & Hnot & Hcase & Hwf').
    split; [done|]. split; [|split; [|split]].
    + by eapply picked_trans.
    + by rewrite <-(picked_active _ _ Hp).
    + by right.
    + intros Hwf Hid.
      destruct (CreateEntity_pick_wf _ _ _ _ Hpick Hwf) as (Hwf1 & Hid1 & Hnum1).
      destruct (Hwf' Hwf1 Hid1) as (Hwf2 & Hid2 & Hnum2).
      split; [done|]. split; [done|].
      pose proof (picked_numEntity _ _ Hp') as Hmono.
      destruct Hnum1 as [Hnum1|(-> & Hnum1 & _)].
      * destruct Hnum2 as [Hnum2|Hnum2]; [left; lia|right; lia].
      * right. destruct Hcase as [[-> ->]|Hin]; [lia|].
        rewrite (picked_active _ _ Hp) in Hin.
        apply (wf_active _ Hwf) in Hin. lia.
  - inv_prim H. split; [done|]. split; [|split; [|split]].
    + apply picked_refl.
    + done.
    + by left.
    + intros Hwf Hid. split; [done|]. split; [done|]. by left.
Qed.


Lemma CreateEntity_while_exit (fuel : nat) (entityId : Z) r :
  entityId ∉ activeEntityIds r →
  CreateEntity_while (S fuel) entityId r = Ret entityId r [].
Proof.
  intros H. simpl. rewrite (bind_run _ _ r r r) by done.
  by rewrite decide_False.
Qed.

(** Whatever the registry, an entity that [CreateEntity] returns carries an
    id that was neither active nor staged for killing; the entity is staged
    for addition and marked active, and nothing is written but the
    diagnostics of the retries. *)
Lemma CreateEntity_fuel_Ret (fuel : nat) r (entity : Entity) r' out :
  CreateEntity_fuel fuel r = Ret entity r' out →
  ∃ r1, picked r r1 ∧
    r' = set_activeEntityIds ({[GetId entity]} ∪ activeEntityIds r1)
           (set_entitiesToBeAdded ({[entity]} ∪ entitiesToBeAdded r1) r1) ∧
    (GetId entity ∉ activeEntityIds r) ∧
    (entity ∉ entitiesToBeKilled r) ∧
    Forall (λ m, is_diagnostic m = true) out ∧
    (wf r → wf r').
Proof.
  revert r out. induction fuel as [|fuel IH]; intros r out H; [done|].
  cbn [CreateEntity_fuel] in H.
  inv_bind H id0 r1 Hpick.
  pose proof (CreateEntity_pick_Ret _ _ _ _ Hpick) as [-> _].
  pose proof (CreateEntity_pick_picked _ _ _ _ Hpick) as Hp1.
  inv_bind H id1 r2 Hwhile.
  apply CreateEntity_while_Ret in Hwhile as (-> & Hp2 & Hnot & _ & Hwf2).
  pose proof (picked_trans _ _ _ Hp1 Hp2) as Hp.
  inv_bind H r0 r3 Hget. inv_prim Hget.
  case_decide as Hkill.
  - inv_bind H u r3 Hm1. inv_prim Hm1.
    inv_bind H u' r3 Hm2. inv_prim Hm2. inv_prim H.
    exists r2. split; [done|]. split; [done|]. split; [|split; [|split]].
    + simpl. by rewrite <-(picked_active _ _ Hp1).
    + by rewrite <-(picked_killed _ _ Hp).
    + by constructor.
    + intros Hwf.
      destruct (CreateEntity_pick_wf _ _ _ _ Hpick Hwf) as (Hwf1 & Hid1 & _).
      destruct (Hwf2 Hwf1 Hid1) as ([] & Hid2 & _).
      constructor; simpl; try done.
      * intros x [->%elem_of_singleton|Hx]%elem_of_union; auto.
      * intros e [->%elem_of_singleton|Hx]%elem_of_union; auto.
  - inv_bind H u r3 Hprint. inv_prim Hprint.
    apply IH in H as (r3 & Hp3 & -> & Hact & Hkilled & Hout & Hwf3).
    exists r3. split; [by eapply picked_trans|]. split; [done|].
    split; [|split; [|split]].
    + by rewrite <-(picked_active _ _ Hp).
    + by rewrite <-(picked_killed _ _ Hp).
    + simpl. by constructor.
    + intros Hwf. apply Hwf3.
      destruct (CreateEntity_pick_wf _ _ _ _ Hpick Hwf) as (Hwf1 & Hid1 & _).
      by destruct (Hwf2 Hwf1 Hid1) as (? & _).
Qed.

Lemma CreateEntity_while_wf (fuel : nat) (entityId : Z) r :
  wf r →
  (entityId ∈ activeEntityIds r →
     numEntity r + 100 ≤ INT_MAX ∧ (length (freeIds r) + 2 ≤ fuel)%nat) →
  (1 ≤ fuel)%nat →
  ∃ entityId' r', CreateEntity_while fuel entityId r = Ret entityId' r' [].
Proof.
  revert entityId r. induction fuel as [|fuel IH]; intros entityId r Hwf Hpre Hfuel; [lia|].
  destruct (decide (entityId ∈ activeEntityIds r)) as [Hact|Hact].
  2:{ eexists _, _. by apply CreateEntity_while_exit. }
  destruct (Hpre Hact) as [Hmax Hlen].
  simpl. rewrite (bind_run _ _ r r r) by done. rewrite decide_True by done.
  destruct (freeIds r) as [|front rest] eqn:Hfree.
  - destruct (CreateEntity_pick_counter r Hfree) as (sigs & Hpick & _).
    { apply (wf_numEntity _ Hwf). }
    { done. }
    rewrite (bind_run _ _ _ _ _ Hpick).
    destruct (CreateEntity_pick_wf _ _ _ _ Hpick Hwf) as (Hwf1 & _ & _).
    apply IH; [done| |simpl in Hlen; lia].
    simpl. intros Hin. apply (wf_active _ Hwf) in Hin. lia.
  - pose proof (CreateEntity_pick_free r front rest Hfree) as Hpick.
    rewrite (bind_run _ _ _ _ _ Hpick).
    destruct (CreateEntity_pick_wf _ _ _ _ Hpick Hwf) as (Hwf1 & _ & _).
    apply IH; [done| |simpl in Hlen; lia].
    simpl. intros _. simpl in Hlen. split; [done|lia].
Qed.

(** In a well-formed registry whose counter is clear of the [int] limit,
    [CreateEntity] returns an entity once the fuel covers the free queue. *)
Lemma CreateEntity_fuel_wf (fuel : nat) r :
  wf r → numEntity r + 100 ≤ INT_MAX →
  (length (freeIds r) + 2 ≤ fuel)%nat →
  ∃ entity r' out, CreateEntity_fuel fuel r = Ret entity r' out.
Proof.
  revert r. induction fuel as [|fuel IH]; intros r Hwf Hmax Hfuel; [lia|].
  cbn [CreateEntity_fuel].
  destruct (freeIds r) as [|front rest] eqn:Hfree.
  - destruct (CreateEntity_pick_counter r Hfree) as (sigs & Hpick & _).
    { apply (wf_numEntity _ Hwf). }
    { done. }
    rewrite (bind_run _ _ _ _ _ Hpick).
    assert (numEntity r ∉ activeEntityIds
              (set_entityComponentSignatures sigs (set_numEntity (numEntity r + 1) r)))
      as Hfresh.
    { simpl. intros Hin. apply (wf_active _ Hwf) in Hin. lia. }
    rewrite (bind_run _ _ _ _ _ (CreateEntity_while_exit fuel _ _ Hfresh)).
    erewrite bind_run by done. simpl.
    rewrite decide_True.
    2:{ intros Hin. apply (wf_killed _ Hwf) in Hin. unfold GetId in Hin. simpl in Hin. lia. }
    by eexists _, _, _.
  - pose proof (CreateEntity_pick_free r front rest Hfree) as Hpick.
    rewrite (bind_run _ _ _ _ _ Hpick).
    destruct (CreateEntity_pick_wf _ _ _ _ Hpick Hwf) as (Hwf1 & Hid1 & _).
    destruct (CreateEntity_while_wf (S fuel) front (set_freeIds rest r))
      as (id1 & r2 & Hwhile); [done| |lia|].
    { intros _. simpl in *. split; [done|lia]. }
    rewrite (bind_run _ _ _ _ _ Hwhile).
    apply CreateEntity_while_Ret in Hwhile as (_ & Hp2 & Hnot & _ & Hwf2).
    destruct (Hwf2 Hwf1 Hid1) as (Hwf2' & Hid2 & Hnum2).
    erewrite bind_run by done.
    case_decide as Hkill; [by eexists _, _, _|].
    destruct (IH r2) as (entity & r' & out & HIH); [done| | |].
    + destruct Hnum2 as [Hnum2|[Hfresh Hlt]]; [simpl in Hnum2; lia|].
      rewrite (picked_killed _ _ Hp2) in Hkill.
      apply (wf_killed _ Hwf1) in Hkill. unfold GetId in Hkill. simpl in Hkill. lia.
    + pose proof (suffix_length _ _ (picked_free _ _ Hp2)) as Hsuf.
      simpl in *. lia.
    + unfold mbind, M_bind at 1. simpl. rewrite HIH. by eexists _, _, _.
Qed.


(** ** The reconciliation loops *)

Lemma update_signature_reset (entityId : Z) r :
  update_signature entityId (λ s, Ok (bitset_reset s)) r =
  match entityComponentSignatures r !! signature_index entityId with
  | Some _ =>
      Ret tt (set_entityComponentSignatures
                (<[signature_index entityId := 0]> (entityComponentSignatures r)) r) []
  | None => Fault UndefinedBehaviour
  end.
Proof.
  unfold update_signature, signature_index, mbind, M_bind, get, lift, modify,
    vector_at, vector_set. simpl.
  rewrite decide_True by apply to_size_t_nonneg.
  destruct (entityComponentSignatures r !! Z.to_nat (to_size_t entityId)) as [sig|] eqn:Hs;
    [|done].
  apply lookup_lt_Some in Hs.
  rewrite decide_True; [done|].
  pose proof (to_size_t_nonneg entityId). lia.
Qed.

Lemma AddEntityToSystems_exact (entity : Entity) r :
  AddEntityToSystems entity r =
  match entityComponentSignatures r !! signature_index (GetId entity) with
  | Some _ =>
      Ret tt (set_systems
                (System_with (entityComponentSignatures r) [entity] <$> systems r) r) []
  | None => Fault UndefinedBehaviour
  end.
Proof.
  unfold AddEntityToSystems, signature_at, signature_index, mbind, M_bind, get,
    lift, modify, vector_at. simpl.
  rewrite decide_True by apply to_size_t_nonneg.
  destruct (entityComponentSignatures r !! Z.to_nat (to_size_t (GetId entity)))
    as [sig|] eqn:Hs; [|done].
  do 2 f_equal. apply map_fmap_ext. intros T s _.
  unfold System_with, signature_in, signature_index, AddEntityToSystem,
    GetComponentSignature.
  rewrite filter_cons, filter_nil. rewrite Hs. simpl.
  destruct (isInterested sig (componentSignature s)); simpl.
  - done.
  - rewrite app_nil_r. by destruct s.
Qed.

Lemma System_with_nil (sigs : list Signature) (s : System) : System_with sigs [] s = s.
Proof. unfold System_with. rewrite filter_nil, app_nil_r. by destruct s. Qed.

Lemma System_with_cons (sigs : list Signature) (e : Entity) (l : list Entity) (s : System) :
  System_with sigs l (System_with sigs [e] s) = System_with sigs (e :: l) s.
Proof.
  unfold System_with. simpl. f_equal.
  rewrite (filter_cons _ e l), filter_cons, filter_nil.
  case_decide; simpl; [by rewrite <-app_assoc|by rewrite app_nil_r].
Qed.

Lemma System_without_nil (s : System) : System_without [] s = s.
Proof.
  unfold System_without. destruct s as [sig ents]. simpl. f_equal.
  induction ents as [|e ents IH]; [done|].
  rewrite filter_cons, decide_True by apply not_elem_of_nil. by rewrite IH.
Qed.

Lemma System_without_cons (e : Entity) (l : list Entity) (s : System) :
  System_without l (RemoveEntityFromSystem e s) = System_without (e :: l) s.
Proof.
  unfold System_without, RemoveEntityFromSystem. simpl. f_equal.
  induction (entities s) as [|x ents IH]; [done|].
  rewrite (filter_cons _ x ents), (filter_cons (λ e0, e0 ∉ e :: l)).
  destruct (decide (e = x)) as [->|Hne].
  - rewrite decide_False by (intros H; by apply H).
    rewrite decide_False by (intros H; apply H, elem_of_cons; by left).
    done.
  - rewrite decide_True by done.
    rewrite filter_cons. destruct (decide (x ∈ l)) as [Hin|Hin].
    + rewrite decide_False by (intros H; by apply H).
      rewrite decide_False by (intros H; apply H, elem_of_cons; by right).
      done.
    + rewrite decide_True by done.
      rewrite decide_True by (intros [?|?]%elem_of_cons; congruence).
      by rewrite IH.
Qed.

Lemma in_table_insert (sigs : list Signature) (i : nat) (x : Signature) (l : list Entity) :
  in_table sigs l → in_table (<[i := x]> sigs) l.
Proof.
  unfold in_table. intros H. eapply Forall_impl; [exact H|]. intros e [y Hy].
  apply lookup_lt_is_Some. rewrite length_insert. by eapply lookup_lt_Some.
Qed.

Lemma registry_eta r :
  mkRegistry (numEntity r) (componentsPools r) (entityComponentSignatures r)
    (systems r) (entitiesToBeAdded r) (entitiesToBeKilled r) (freeIds r)
    (activeEntityIds r) = r.
Proof. by destruct r. Qed.

Lemma AddEntityToSystems_loop (l : list Entity) r :
  in_table (entityComponentSignatures r) l →
  for_each l AddEntityToSystems r =
  Ret tt (set_systems (System_with (entityComponentSignatures r) l <$> systems r) r) [].
Proof.
  revert r. induction l as [|e l IH]; intros r Hin.
  - simpl. unfold mret, M_ret. do 2 f_equal. unfold set_systems.
    rewrite (map_fmap_ext _ id), map_fmap_id; [apply eq_sym, registry_eta|].
    intros T s _. apply System_with_nil.
  - apply Forall_cons in Hin as [[sig He] Hin].
    cbn [for_each].
    pose proof (AddEntityToSystems_exact e r) as Hbody. rewrite He in Hbody.
    rewrite (bind_run _ _ _ _ _ Hbody). rewrite IH by done.
    assert (System_with (entityComponentSignatures r) l <$>
              (System_with (entityComponentSignatures r) [e] <$> systems r) =
            System_with (entityComponentSignatures r) (e :: l) <$> systems r) as Hmap.
    { rewrite <-map_fmap_compose. apply map_fmap_ext. intros T s _.
      apply System_with_cons. }
    unfold set_systems. simpl. by rewrite Hmap.
Qed.

Lemma AddEntityToSystems_loop_Ret (l : list Entity) r r' out :
  for_each l AddEntityToSystems r = Ret tt r' out →
  in_table (entityComponentSignatures r) l.
Proof.
  revert r out. induction l as [|e l IH]; intros r out H; [by constructor|].
  cbn [for_each] in H. inv_bind H u r1 Hbody.
  rewrite AddEntityToSystems_exact in Hbody.
  destruct (entityComponentSignatures r !! signature_index (GetId e)) eqn:He; [|done].
  inv_prim Hbody. apply IH in H. by constructor.
Qed.


Lemma Update_kill_exact (entity : Entity) r :
  Update_kill entity r =
  match entityComponentSignatures r !! signature_index (GetId entity) with
  | Some _ =>
      Ret tt (mkRegistry (numEntity r) (componentsPools r)
                (<[signature_index (GetId entity) := 0]> (entityComponentSignatures r))
                (RemoveEntityFromSystem entity <$> systems r)
                (entitiesToBeAdded r) (entitiesToBeKilled r)
                (freeIds r ++ [GetId entity])
                (activeEntityIds r ∖ {[GetId entity]})) []
  | None => Fault UndefinedBehaviour
  end.
Proof.
  unfold Update_kill, RemoveEntityFromSystems.
  erewrite bind_run by done.
  unfold mbind, M_bind. rewrite update_signature_reset. simpl.
  by destruct (entityComponentSignatures r !! signature_index (GetId entity)).
Qed.

Lemma ClearAllEntities_free_exact (entityId : Z) r :
  ClearAllEntities_free entityId r =
  match entityComponentSignatures r !! signature_index entityId with
  | Some _ =>
      Ret tt (mkRegistry (numEntity r) (componentsPools r)
                (<[signature_index entityId := 0]> (entityComponentSignatures r))
                (RemoveEntityFromSystem (mkEntity entityId) <$> systems r)
                (entitiesToBeAdded r) (entitiesToBeKilled r)
                (freeIds r ++ [entityId])
                (activeEntityIds r)) []
  | None => Fault UndefinedBehaviour
  end.
Proof.
  unfold ClearAllEntities_free, RemoveEntityFromSystems.
  erewrite bind_run by done.
  unfold mbind, M_bind. rewrite update_signature_reset. simpl.
  by destruct (entityComponentSignatures r !! signature_index entityId).
Qed.

Lemma System_without_nil_map (m : gmap type_index System) :
  System_without [] <$> m = m.
Proof.
  rewrite (map_fmap_ext _ id), map_fmap_id; [done|].
  intros T s _. apply System_without_nil.
Qed.

Lemma System_without_cons_map (e : Entity) (l : list Entity) (m : gmap type_index System) :
  System_without l <$> (RemoveEntityFromSystem e <$> m) = System_without (e :: l) <$> m.
Proof.
  rewrite <-map_fmap_compose. apply map_fmap_ext. intros T s _.
  apply System_without_cons.
Qed.

Lemma Update_kill_loop (l : list Entity) r :
  in_table (entityComponentSignatures r) l →
  for_each l Update_kill r =
  Ret tt (mkRegistry (numEntity r) (componentsPools r)
            (reset_signatures (GetId <$> l) (entityComponentSignatures r))
            (System_without l <$> systems r)
            (entitiesToBeAdded r) (entitiesToBeKilled r)
            (freeIds r ++ (GetId <$> l))
            (activeEntityIds r ∖ list_to_set (GetId <$> l))) [].
Proof.
  revert r. induction l as [|e l IH]; intros r Hin.
  - simpl. unfold mret, M_ret.
    rewrite System_without_nil_map, app_nil_r, difference_empty_L.
    by rewrite registry_eta.
  - apply Forall_cons in Hin as [[sig He] Hin].
    cbn [for_each].
    pose proof (Update_kill_exact e r) as Hbody. rewrite He in Hbody.
    rewrite (bind_run _ _ _ _ _ Hbody). rewrite IH by (by apply in_table_insert).
    simpl. rewrite System_without_cons_map, <-app_assoc. simpl.
    do 2 f_equal. set_solver.
Qed.

Lemma Update_kill_loop_Ret (l : list Entity) r r' out :
  for_each l Update_kill r = Ret tt r' out →
  in_table (entityComponentSignatures r) l.
Proof.
  revert r out. induction l as [|e l IH]; intros r out H; [by constructor|].
  cbn [for_each] in H. inv_bind H u r1 Hbody.
  rewrite Update_kill_exact in Hbody.
  destruct (entityComponentSignatures r !! signature_index (GetId e)) eqn:He; [|done].
  inv_prim Hbody. apply IH in H. simpl in H. constructor; [by eexists|].
  eapply Forall_impl; [exact H|]. intros e' [y Hy].
  apply lookup_lt_is_Some. apply lookup_lt_Some in Hy.
  by rewrite length_insert in Hy.
Qed.

Lemma ClearAllEntities_free_loop (l : list Z) r :
  in_table (entityComponentSignatures r) (mkEntity <$> l) →
  for_each l ClearAllEntities_free r =
  Ret tt (mkRegistry (numEntity r) (componentsPools r)
            (reset_signatures l (entityComponentSignatures r))
            (System_without (mkEntity <$> l) <$> systems r)
            (entitiesToBeAdded r) (entitiesToBeKilled r)
            (freeIds r ++ l)
            (activeEntityIds r)) [].
Proof.
  revert r. induction l as [|x l IH]; intros r Hin.
  - simpl. unfold mret, M_ret.
    rewrite System_without_nil_map, app_nil_r.
    by rewrite registry_eta.
  - rewrite fmap_cons in Hin. apply Forall_cons in Hin as [[sig He] Hin].
    cbn [for_each].
    pose proof (ClearAllEntities_free_exact x r) as Hbody.
    unfold GetId in He. simpl in He. rewrite He in Hbody.
    rewrite (bind_run _ _ _ _ _ Hbody). rewrite IH by (by apply in_table_insert).
    simpl. rewrite System_without_cons_map, <-app_assoc. done.
Qed.

Lemma ClearAllEntities_free_loop_Ret (l : list Z) r r' out :
  for_each l ClearAllEntities_free r = Ret tt r' out →
  in_table (entityComponentSignatures r) (mkEntity <$> l).
Proof.
  revert r out. induction l as [|x l IH]; intros r out H; [by constructor|].
  cbn [for_each] in H. inv_bind H u r1 Hbody.
  rewrite ClearAllEntities_free_exact in Hbody.
  destruct (entityComponentSignatures r !! signature_index x) eqn:He; [|done].
  inv_prim Hbody. apply IH in H. simpl in H.
  rewrite fmap_cons. constructor; [by eexists|].
  eapply Forall_impl; [exact H|]. intros e' [y Hy].
  apply lookup_lt_is_Some. apply lookup_lt_Some in Hy.
  by rewrite length_insert in Hy.
Qed.

(** [Update] returns exactly when the staged entities index the signature
    table, and then with [Update_result], silently. *)
Lemma Update_exact r :
  in_table (entityComponentSignatures r) (set_iter_entity (entitiesToBeAdded r)) →
  in_table (entityComponentSignatures r) (set_iter_entity (entitiesToBeKilled r)) →
  Update r = Ret tt (Update_result r) [].
Proof.
  intros Hadd Hkill. unfold Update.
  rewrite (bind_run _ _ r r r) by done.
  rewrite (bind_run _ _ _ _ _ (AddEntityToSystems_loop _ r Hadd)).
  erewrite bind_run by done.
  erewrite bind_run by done.
  erewrite bind_run by (by apply Update_kill_loop).
  done.
Qed.

Lemma Update_Ret r r' out :
  Update r = Ret tt r' out →
  r' = Update_result r ∧ out = [] ∧
  in_table (entityComponentSignatures r) (set_iter_entity (entitiesToBeAdded r)) ∧
  in_table (entityComponentSignatures r) (set_iter_entity (entitiesToBeKilled r)).
Proof.
  intros H. pose proof H as H'. unfold Update in H.
  inv_bind H r0 r1 Hget. inv_prim Hget.
  inv_bind H u r1 Hadd. pose proof (AddEntityToSystems_loop_Ret _ _ _ _ Hadd) as Hin1.
  rewrite AddEntityToSystems_loop in Hadd by done. inv_prim Hadd.
  inv_bind H u r1 Hmod. inv_prim Hmod.
  inv_bind H r0 r1 Hget. inv_prim Hget.
  inv_bind H u r1 Hkill. pose proof (Update_kill_loop_Ret _ _ _ _ Hkill) as Hin2.
  simpl in Hin2.
  rewrite Update_exact in H' by done. by inv_prim H'.
Qed.

Lemma ClearAllEntities_exact r :
  in_table (entityComponentSignatures r) (mkEntity <$> set_iter_int (activeEntityIds r)) →
  ClearAllEntities r = Ret tt (ClearAllEntities_result r) [CoutFreeingAll].
Proof.
  intros Hin. unfold ClearAllEntities.
  unfold mbind at 1, M_bind at 1. simpl.
  rewrite (bind_run _ _ r r r) by done.
  erewrite bind_run by (by apply ClearAllEntities_free_loop).
  done.
Qed.

Lemma ClearAllEntities_Ret r r' out :
  ClearAllEntities r = Ret tt r' out →
  r' = ClearAllEntities_result r ∧ out = [CoutFreeingAll] ∧
  in_table (entityComponentSignatures r) (mkEntity <$> set_iter_int (activeEntityIds r)).
Proof.
  intros H. pose proof H as H'. unfold ClearAllEntities in H.
  inv_bind H u r1 Hprint. inv_prim Hprint.
  inv_bind H r0 r1 Hget. inv_prim Hget.
  inv_bind H u r1 Hloop. apply ClearAllEntities_free_loop_Ret in Hloop.
  rewrite ClearAllEntities_exact in H' by done. by inv_prim H'.
Qed.


(** ** Well-formedness is kept by every call *)

Lemma elem_of_set_iter_entity (s : gset Entity) (e : Entity) :
  e ∈ set_iter_entity s ↔ e ∈ s.
Proof.
  unfold set_iter_entity. rewrite merge_sort_Permutation. apply elem_of_elements.
Qed.

Lemma elem_of_set_iter_int (s : gset Z) (x : Z) : x ∈ set_iter_int s ↔ x ∈ s.
Proof.
  unfold set_iter_int. rewrite merge_sort_Permutation. apply elem_of_elements.
Qed.

Lemma set_iter_int_sorted (s : gset Z) : Sorted Z.le (set_iter_int s).
Proof. apply Sorted_merge_sort. intros x y. lia. Qed.

Lemma set_iter_entity_sorted (s : gset Entity) : Sorted Entity_le (set_iter_entity s).
Proof. apply Sorted_merge_sort. intros x y. unfold Entity_le. lia. Qed.

Lemma NoDup_set_iter_entity (s : gset Entity) : NoDup (set_iter_entity s).
Proof.
  unfold set_iter_entity. rewrite merge_sort_Permutation. apply NoDup_elements.
Qed.

Lemma NoDup_set_iter_int (s : gset Z) : NoDup (set_iter_int s).
Proof.
  unfold set_iter_int. rewrite merge_sort_Permutation. apply NoDup_elements.
Qed.

Lemma signature_index_id (entityId : Z) :
  0 ≤ entityId ≤ INT_MAX → signature_index entityId = Z.to_nat entityId.
Proof.
  intros H. unfold signature_index. rewrite to_size_t_id; [done|].
  unfold INT_MAX in H. lia.
Qed.

Lemma wf_signature_index r (entityId : Z) :
  wf r → 0 ≤ entityId < numEntity r →
  signature_index entityId = Z.to_nat entityId ∧
  is_Some (entityComponentSignatures r !! signature_index entityId).
Proof.
  intros Hwf Hid.
  pose proof (wf_numEntity _ Hwf). pose proof (wf_signatures _ Hwf).
  rewrite signature_index_id by lia. split; [done|].
  apply lookup_lt_is_Some. lia.
Qed.

Lemma wf_in_table r (l : list Entity) :
  wf r → (∀ e, e ∈ l → 0 ≤ GetId e < numEntity r) →
  in_table (entityComponentSignatures r) l.
Proof.
  intros Hwf Hl. apply Forall_forall. intros e He.
  by apply wf_signature_index, Hl.
Qed.

Lemma length_reset_signatures (ids : list Z) (sigs : list Signature) :
  length (reset_signatures ids sigs) = length sigs.
Proof.
  revert sigs. induction ids as [|x ids IH]; intros sigs; [done|].
  simpl. by rewrite IH, length_insert.
Qed.

Lemma reset_signatures_lookup_ne (ids : list Z) (sigs : list Signature) (i : nat) :
  i ∉ signature_index <$> ids → reset_signatures ids sigs !! i = sigs !! i.
Proof.
  revert sigs. induction ids as [|x ids IH]; intros sigs Hi; [done|].
  rewrite fmap_cons, not_elem_of_cons in Hi. destruct Hi as [Hne Hi].
  simpl. rewrite IH by done. by apply list_lookup_insert_ne.
Qed.

Lemma reset_signatures_lookup (ids : list Z) (sigs : list Signature) (i : nat) :
  i ∈ signature_index <$> ids → (i < length sigs)%nat →
  reset_signatures ids sigs !! i = Some 0.
Proof.
  revert sigs. induction ids as [|x ids IH]; intros sigs Hi Hlen.
  { by apply elem_of_nil in Hi. }
  simpl. destruct (decide (i ∈ signature_index <$> ids)) as [Hin|Hin].
  - apply IH; [done|]. by rewrite length_insert.
  - rewrite reset_signatures_lookup_ne by done.
    rewrite fmap_cons in Hi. apply elem_of_cons in Hi as [->|Hi]; [|done].
    by apply list_lookup_insert_eq.
Qed.

Lemma wf_Registry_new : wf (Registry_new (TComponent := TComponent)).
Proof.
  constructor; simpl; try done; unfold INT_MAX; try lia.
  intros x Hx. by apply elem_of_nil in Hx.
Qed.

Lemma CreateEntity_Ret r (entity : Entity) r' out :
  CreateEntity r = Ret entity r' out →
  ∃ r1, picked r r1 ∧
    r' = set_activeEntityIds ({[GetId entity]} ∪ activeEntityIds r1)
           (set_entitiesToBeAdded ({[entity]} ∪ entitiesToBeAdded r1) r1) ∧
    (GetId entity ∉ activeEntityIds r) ∧
    (entity ∉ entitiesToBeKilled r) ∧
    Forall (λ m, is_diagnostic m = true) out ∧
    (wf r → wf r').
Proof. apply CreateEntity_fuel_Ret. Qed.

Lemma CreateEntity_wf r :
  wf r → numEntity r + 100 ≤ INT_MAX →
  ∃ entity r' out, CreateEntity r = Ret entity r' out.
Proof.
  intros Hwf Hmax. apply CreateEntity_fuel_wf; [done|done|].
  unfold CreateEntity_bound. lia.
Qed.

Lemma KillEntity_exact (entity : Entity) r :
  KillEntity entity r =
  if decide (GetId entity ∉ activeEntityIds r) then
    Ret tt r [CerrKillNonExistent (GetId entity)]
  else
    match entityComponentSignatures r !! signature_index (GetId entity) with
    | Some _ =>
        Ret tt (mkRegistry (numEntity r) (componentsPools r)
                  (<[signature_index (GetId entity) := 0]> (entityComponentSignatures r))
                  (RemoveEntityFromSystem entity <$> systems r)
                  (entitiesToBeAdded r) ({[entity]} ∪ entitiesToBeKilled r)
                  (freeIds r) (activeEntityIds r)) []
    | None => Fault UndefinedBehaviour
    end.
Proof.
  unfold KillEntity. rewrite (bind_run _ _ r r r) by done.
  case_decide; [done|].
  unfold RemoveEntityFromSystems. erewrite bind_run by done.
  unfold mbind, M_bind. rewrite update_signature_reset. simpl.
  by destruct (entityComponentSignatures r !! signature_index (GetId entity)).
Qed.

Lemma KillEntity_wf (entity : Entity) r r' out :
  KillEntity entity r = Ret tt r' out → wf r → wf r'.
Proof.
  rewrite KillEntity_exact. intros H [Hnum Hsigs Hact Hfree Hkill Hadd].
  case_decide as Hin; [by inv_prim H|].
  destruct (entityComponentSignatures r !! signature_index (GetId entity)); [|done].
  inv_prim H. constructor; simpl; try done.
  - by rewrite length_insert.
  - intros e [->%elem_of_singleton|He]%elem_of_union; auto.
Qed.

Lemma Update_result_wf r : wf r → wf (Update_result r).
Proof.
  intros [Hnum Hsigs Hact Hfree Hkill Hadd]. constructor; simpl; try done.
  - by rewrite length_reset_signatures.
  - intros x [Hx _]%elem_of_difference. auto.
  - intros x [Hx|Hx]%elem_of_app; [auto|].
    apply list_elem_of_fmap in Hx as (e & -> & He).
    by apply Hkill, elem_of_set_iter_entity.
Qed.

Lemma ClearAllEntities_result_wf r : wf r → wf (ClearAllEntities_result r).
Proof.
  intros [Hnum Hsigs Hact Hfree Hkill Hadd]. constructor; simpl; try done.
  - by rewrite length_reset_signatures.
  - intros x [Hx|Hx]%elem_of_app; [auto|].
    by apply Hact, elem_of_set_iter_int.
Qed.

(** In a well-formed registry [Update] and [ClearAllEntities] return. *)
Lemma Update_wf r : wf r → Update r = Ret tt (Update_result r) [].
Proof.
  intros Hwf. apply Update_exact; apply wf_in_table; try done.
  - intros e He%elem_of_set_iter_entity. by apply (wf_added _ Hwf).
  - intros e He%elem_of_set_iter_entity. by apply (wf_killed _ Hwf).
Qed.

Lemma ClearAllEntities_wf r :
  wf r → ClearAllEntities r = Ret tt (ClearAllEntities_result r) [CoutFreeingAll].
Proof.
  intros Hwf. apply ClearAllEntities_exact, wf_in_table; [done|].
  intros e (x & -> & Hx%elem_of_set_iter_int)%list_elem_of_fmap.
  by apply (wf_active _ Hwf).
Qed.


(** The calls on components and systems leave the bookkeeping of ids alone. *)
Lemma AddComponent_Ret (entity : Entity) (componentId : Z) (v : TComponent) r r' out :
  AddComponent value_init entity componentId v r = Ret tt r' out →
  out = [] ∧
  numEntity r' = numEntity r ∧ systems r' = systems r ∧
  entitiesToBeAdded r' = entitiesToBeAdded r ∧
  entitiesToBeKilled r' = entitiesToBeKilled r ∧
  freeIds r' = freeIds r ∧ activeEntityIds r' = activeEntityIds r ∧
  length (entityComponentSignatures r') = length (entityComponentSignatures r).
Proof.
  unfold AddComponent. intros H.
  inv_bind H r0 r1 Hget. inv_prim Hget.
  inv_bind H pools r1 Hpools o1.
  assert (r1 = r ∧ o1 = []) as [-> ->].
  { destruct (decide (Z.of_nat (length (componentsPools r)) ≤ to_size_t componentId)).
    - inv_bind Hpools n r2 Hn. inv_prim Hn. by inv_prim Hpools.
    - by inv_prim Hpools. }
  inv_bind H slot r1 Hslot. inv_prim Hslot.
  inv_bind H pool r1 Hpool o1.
  assert (r1 = r ∧ o1 = []) as [-> ->].
  { destruct slot; by inv_prim Hpool. }
  inv_bind H pool' r1 Hresize o1.
  assert (r1 = r ∧ o1 = []) as [-> ->].
  { destruct (decide (Pool.GetSize pool ≤ GetId entity)).
    - inv_bind Hresize n r2 Hn. inv_prim Hn. by inv_prim Hresize.
    - by inv_prim Hresize. }
  inv_bind H pool'' r1 Hset. inv_prim Hset.
  inv_bind H pools' r1 Hstore. inv_prim Hstore.
  inv_bind H u r1 Hmod. inv_prim Hmod.
  apply update_signature_Ret in H as (sig & sig' & Hsig & _ & -> & ->).
  simpl. by rewrite length_insert.
Qed.

Lemma RemoveComponent_Ret (entity : Entity) (componentId : Z) r r' out :
  RemoveComponent entity componentId r = Ret tt r' out →
  out = [] ∧
  numEntity r' = numEntity r ∧ systems r' = systems r ∧
  componentsPools r' = componentsPools r ∧
  entitiesToBeAdded r' = entitiesToBeAdded r ∧
  entitiesToBeKilled r' = entitiesToBeKilled r ∧
  freeIds r' = freeIds r ∧ activeEntityIds r' = activeEntityIds r ∧
  length (entityComponentSignatures r') = length (entityComponentSignatures r).
Proof.
  unfold RemoveComponent. intros H.
  apply update_signature_Ret in H as (sig & sig' & Hsig & _ & -> & ->).
  simpl. by rewrite length_insert.
Qed.

Lemma AddSystem_Ret (TSystem : type_index) (required : list Z) r r' out :
  AddSystem TSystem required r = Ret tt r' out →
  out = [] ∧ ∃ m, r' = set_systems m r.
Proof.
  unfold AddSystem. intros H.
  inv_bind H newSystem r1 Hnew. inv_prim Hnew. inv_prim H.
  split; [done|]. destruct (systems r !! TSystem).
  - exists (systems r). by destruct r.
  - by eexists.
Qed.

Lemma RemoveSystem_Ret (TSystem : type_index) r r' out :
  RemoveSystem TSystem r = Ret tt r' out →
  out = [] ∧ r' = set_systems (delete TSystem (systems r)) r ∧
  is_Some (systems r !! TSystem).
Proof.
  unfold RemoveSystem. intros H.
  inv_bind H r0 r1 Hget. inv_prim Hget.
  destruct (systems r !! TSystem) eqn:Hsys; [|done].
  inv_prim H. eauto.
Qed.

Lemma set_systems_wf (m : gmap type_index System) r : wf r → wf (set_systems m r).
Proof. by intros []. Qed.

Lemma step_wf r (c : call) r' : step value_init r c r' → wf r → wf r'.
Proof.
  intros [out H] Hwf. destruct c; simpl in H.
  - inv_bind H e r1 Hcreate. inv_prim H.
    apply CreateEntity_Ret in Hcreate as (_ & _ & _ & _ & _ & _ & Hwf'). auto.
  - by eapply KillEntity_wf.
  - apply Update_Ret in H as (-> & _). by apply Update_result_wf.
  - apply ClearAllEntities_Ret in H as (-> & _). by apply ClearAllEntities_result_wf.
  - apply AddComponent_Ret in H as (_ & Hn & _ & Ha & Hk & Hf & Hact & Hlen).
    destruct Hwf. constructor; rewrite ?Hn, ?Ha, ?Hk, ?Hf, ?Hact, ?Hlen; done.
  - apply RemoveComponent_Ret in H as (_ & Hn & _ & _ & Ha & Hk & Hf & Hact & Hlen).
    destruct Hwf. constructor; rewrite ?Hn, ?Ha, ?Hk, ?Hf, ?Hact, ?Hlen; done.
  - apply AddSystem_Ret in H as (_ & m & ->). by apply set_systems_wf.
  - apply RemoveSystem_Ret in H as (_ & -> & _). by apply set_systems_wf.
Qed.

Lemma steps_wf r (cs : list call) r' : steps value_init r cs r' → wf r → wf r'.
Proof.
  induction 1 as [|r c r1 cs r2 Hstep _ IH]; [done|].
  intros Hwf. apply IH. by eapply step_wf.
Qed.

Lemma reachable_wf r : reachable value_init r → wf r.
Proof. intros [cs Hcs]. eapply steps_wf; [done|apply wf_Registry_new]. Qed.

Lemma steps_app r (cs1 : list call) r1 (cs2 : list call) r2 :
  steps value_init r cs1 r1 → steps value_init r1 cs2 r2 →
  steps value_init r (cs1 ++ cs2) r2.
Proof.
  induction 1 as [|r c r' cs r1 Hstep _ IH]; [done|].
  intros H2. simpl. econstructor; [done|]. by apply IH.
Qed.

Lemma reachable_steps r (cs : list call) r' :
  reachable value_init r → steps value_init r cs r' → reachable value_init r'.
Proof. intros [cs0 H0] H. exists (cs0 ++ cs). by eapply steps_app. Qed.

Lemma run_calls_steps (cs : list call) r r' out :
  run_calls value_init cs r = Ret tt r' out → steps value_init r cs r'.
Proof.
  revert r out. induction cs as [|c cs IH]; intros r out H.
  - inv_prim H. constructor.
  - simpl in H. inv_bind H u r1 Hc.
    econstructor; [by eexists|]. by eapply IH.
Qed.


(** ** KillEntity *)

(** Killing an active entity of a well-formed registry: what it returns. *)
Lemma KillEntity_active r (entity : Entity) :
  wf r → GetId entity ∈ activeEntityIds r →
  KillEntity entity r =
  Ret tt (mkRegistry (numEntity r) (componentsPools r)
            (<[signature_index (GetId entity) := 0]> (entityComponentSignatures r))
            (RemoveEntityFromSystem entity <$> systems r)
            (entitiesToBeAdded r) ({[entity]} ∪ entitiesToBeKilled r)
            (freeIds r) (activeEntityIds r)) [].
Proof.
  intros Hwf Hact.
  destruct (wf_signature_index r (GetId entity) Hwf (wf_active _ Hwf _ Hact))
    as [_ [sig Hsig]].
  rewrite KillEntity_exact, decide_False by (by intros ?). by rewrite Hsig.
Qed.

(** C6. Killing an active entity of a reachable registry returns
    silently; right after it the entity is in no system's member list and
    [HasComponent] answers [false] for every component id. *)
Theorem KillEntity_isolates r (entity : Entity) :
  reachable value_init r →
  GetId entity ∈ activeEntityIds r →
  ∃ r',
    KillEntity entity r = Ret tt r' [] ∧
    (∀ (TSystem : type_index) (system : System),
       systems r' !! TSystem = Some system →
       entity ∉ GetSystemEntities system) ∧
    (∀ componentId, 0 ≤ componentId < MAX_COMPONENTS →
       HasComponent entity componentId r' = Ret false r' []).
Proof.
  intros Hwf%reachable_wf Hact.
  destruct (wf_signature_index r (GetId entity) Hwf (wf_active _ Hwf _ Hact))
    as [Hidx [sig Hsig]].
  eexists. split; [|split].
  - by apply KillEntity_active.
  - simpl. intros T system Hsys. rewrite lookup_fmap in Hsys.
    destruct (systems r !! T) as [s0|]; [|done]. simpl in Hsys. simplify_eq.
    unfold GetSystemEntities, RemoveEntityFromSystem. simpl.
    intros [Hne _]%list_elem_of_filter. by apply Hne.
  - intros c Hc. unfold HasComponent.
    erewrite bind_run.
    2:{ apply signature_at_Ret. split; [|done]. simpl.
        apply list_lookup_insert_eq. by eapply lookup_lt_Some. }
    unfold lift, bitset_test.
    rewrite to_size_t_id by (unfold MAX_COMPONENTS in Hc; lia).
    rewrite decide_True by done. by rewrite Z.bits_0.
Qed.

(** Only [Update] takes entities out of the pending-kill set. *)
Lemma step_killed_mono r (c : call) r' :
  step value_init r c r' → c ≠ CallUpdate →
  entitiesToBeKilled r ⊆ entitiesToBeKilled r'.
Proof.
  intros [out H] Hc. destruct c; simpl in H; try done.
  - inv_bind H e r1 Hcreate. inv_prim H.
    apply CreateEntity_Ret in Hcreate as (r0 & Hp & -> & _). simpl.
    by rewrite (picked_killed _ _ Hp).
  - rewrite KillEntity_exact in H. case_decide; [by inv_prim H|].
    destruct (entityComponentSignatures r !! _); [|done].
    inv_prim H. simpl. set_solver.
  - by apply ClearAllEntities_Ret in H as (-> & _).
  - apply AddComponent_Ret in H as (_ & _ & _ & _ & -> & _). done.
  - apply RemoveComponent_Ret in H as (_ & _ & _ & _ & _ & -> & _). done.
  - by apply AddSystem_Ret in H as (_ & m & ->).
  - by apply RemoveSystem_Ret in H as (_ & -> & _).
Qed.

Lemma steps_killed_mono r (cs : list call) r' :
  steps value_init r cs r' → CallUpdate ∉ cs →
  entitiesToBeKilled r ⊆ entitiesToBeKilled r'.
Proof.
  induction 1 as [|r c r1 cs r2 Hstep _ IH]; [done|].
  intros [Hc Hcs]%not_elem_of_cons.
  etrans; [by eapply step_killed_mono|by apply IH].
Qed.


(** ** CreateEntity never runs out of fuel *)

Lemma bind_ext_not_Timeout {A B} (m : M A) (k k' : A → M B) r :
  (∀ a r1 out1, m r = Ret a r1 out1 → k a r1 ≠ Timeout → k' a r1 = k a r1) →
  (m ≫= k) r ≠ Timeout → (m ≫= k') r = (m ≫= k) r.
Proof.
  unfold mbind, M_bind. intros Hk H.
  destruct (m r) as [a r1 out1| |]; try done.
  rewrite (Hk a r1 out1 eq_refl); [done|].
  intros Ht. by rewrite Ht in H.
Qed.

Lemma CreateEntity_while_fuel_mono (fuel fuel' : nat) (entityId : Z) r :
  (fuel ≤ fuel')%nat →
  CreateEntity_while fuel entityId r ≠ Timeout →
  CreateEntity_while fuel' entityId r = CreateEntity_while fuel entityId r.
Proof.
  revert fuel' entityId r. induction fuel as [|fuel IH]; intros fuel' entityId r Hle H;
    [done|].
  destruct fuel' as [|fuel']; [lia|].
  cbn [CreateEntity_while] in *.
  apply bind_ext_not_Timeout; [|done].
  intros r0 r1 out1 _. case_decide; [|done].
  apply bind_ext_not_Timeout. intros id1 r2 out2 _. apply IH. lia.
Qed.

Lemma bind_mono_not_Timeout {A B} (m m' : M A) (k k' : A → M B) r :
  (m r ≠ Timeout → m' r = m r) →
  (∀ a r1 out1, m r = Ret a r1 out1 → k a r1 ≠ Timeout → k' a r1 = k a r1) →
  (m ≫= k) r ≠ Timeout → (m' ≫= k') r = (m ≫= k) r.
Proof.
  intros Hm Hk H.
  assert (m r ≠ Timeout) as Hnt.
  { intros Ht. apply H. unfold mbind, M_bind. by rewrite Ht. }
  unfold mbind, M_bind in *. rewrite (Hm Hnt).
  destruct (m r) as [a r1 out1| |]; try done.
  rewrite (Hk a r1 out1 eq_refl); [done|].
  intros Ht. by rewrite Ht in H.
Qed.

Lemma CreateEntity_fuel_mono (fuel fuel' : nat) r :
  (fuel ≤ fuel')%nat →
  CreateEntity_fuel fuel r ≠ Timeout →
  CreateEntity_fuel fuel' r = CreateEntity_fuel fuel r.
Proof.
  revert fuel' r. induction fuel as [|fuel IH]; intros fuel' r Hle H; [done|].
  destruct fuel' as [|fuel']; [lia|].
  cbn [CreateEntity_fuel] in *.
  apply bind_ext_not_Timeout; [|done].
  intros id0 r1 out1 _.
  apply bind_mono_not_Timeout.
  { apply CreateEntity_while_fuel_mono. lia. }
  intros id1 r2 out2 _. apply bind_ext_not_Timeout.
  intros r0 r3 out3 _. case_decide; [done|].
  apply bind_ext_not_Timeout. intros u r4 out4 _. apply IH. lia.
Qed.

Lemma CreateEntity_pick_measure r (entityId : Z) r' out :
  CreateEntity_pick r = Ret entityId r' out →
  (CreateEntity_measure r' ≤ CreateEntity_measure r)%nat ∧
  (entityId ∈ activeEntityIds r ∨ mkEntity entityId ∈ entitiesToBeKilled r →
   (CreateEntity_measure r' < CreateEntity_measure r)%nat).
Proof.
  intros H. apply CreateEntity_pick_Ret in H as (_ & [(rest & Hfree & ->)|H]).
  - unfold CreateEntity_measure. simpl. rewrite Hfree. simpl. lia.
  - destruct H as (Hfree & -> & _ & sigs & -> & _).
    unfold CreateEntity_measure. simpl. rewrite Hfree. simpl.
    assert (filter (λ x, numEntity r + 1 ≤ x) (activeEntityIds r) ⊆
            filter (λ x, numEntity r ≤ x) (activeEntityIds r)) as Ha.
    { intros x [Hx ?]%elem_of_filter. apply elem_of_filter. split; [lia|done]. }
    assert (filter (λ e, numEntity r + 1 ≤ GetId e) (entitiesToBeKilled r) ⊆
            filter (λ e, numEntity r ≤ GetId e) (entitiesToBeKilled r)) as Hk.
    { intros x [Hx ?]%elem_of_filter. apply elem_of_filter. split; [lia|done]. }
    pose proof (subseteq_size _ _ Ha). pose proof (subseteq_size _ _ Hk).
    split; [lia|]. intros [Hin|Hin].
    + enough (size (filter (λ x, (numEntity r + 1 ≤ x)%Z) (activeEntityIds r)) <
              size (filter (λ x, (numEntity r ≤ x)%Z) (activeEntityIds r)))%nat by lia.
      apply subset_size. split; [done|]. intros Hsub.
      assert (numEntity r ∈ filter (λ x, numEntity r ≤ x) (activeEntityIds r)) as Hn.
      { apply elem_of_filter. split; [lia|done]. }
      apply Hsub, elem_of_filter in Hn as [? _]. lia.
    + enough (size (filter (λ e, (numEntity r + 1 ≤ GetId e)%Z) (entitiesToBeKilled r)) <
              size (filter (λ e, (numEntity r ≤ GetId e)%Z) (entitiesToBeKilled r)))%nat by lia.
      apply subset_size. split; [done|]. intros Hsub.
      assert (mkEntity (numEntity r) ∈
              filter (λ e, numEntity r ≤ GetId e) (entitiesToBeKilled r)) as Hn.
      { apply elem_of_filter. split; [unfold GetId; simpl; lia|done]. }
      apply Hsub, elem_of_filter in Hn as [Hn _]. unfold GetId in Hn. simpl in Hn. lia.
Qed.

Lemma CreateEntity_while_measure (fuel : nat) (entityId : Z) r (entityId' : Z) r' out :
  CreateEntity_while fuel entityId r = Ret entityId' r' out →
  (CreateEntity_measure r' ≤ CreateEntity_measure r)%nat.
Proof.
  revert entityId r out. induction fuel as [|fuel IH]; intros entityId r out H; [done|].
  cbn [CreateEntity_while] in H. inv_bind H r0 r1 Hget. inv_prim Hget.
  case_decide as Hact.
  - inv_bind H id1 r1 Hpick.
    apply CreateEntity_pick_measure in Hpick as [Hle _].
    apply IH in H. lia.
  - inv_prim H. done.
Qed.

Lemma CreateEntity_while_not_Timeout (fuel : nat) (entityId : Z) r :
  (CreateEntity_measure r + 2 ≤ fuel)%nat ∨
    ((entityId ∉ activeEntityIds r) ∧ (1 ≤ fuel)%nat) →
  CreateEntity_while fuel entityId r ≠ Timeout.
Proof.
  revert entityId r. induction fuel as [|fuel IH]; intros entityId r Hfuel; [lia|].
  destruct (decide (entityId ∈ activeEntityIds r)) as [Hact|Hact].
  2:{ by rewrite CreateEntity_while_exit. }
  destruct Hfuel as [Hfuel|[? _]]; [|done].
  cbn [CreateEntity_while]. rewrite (bind_run _ _ r r r) by done.
  rewrite decide_True by done.
  apply bind_not_Timeout.
  { unfold CreateEntity_pick, mbind, M_bind, get, modify, lift, mret, M_ret.
    repeat (case_match; try done). }
  intros id1 r1 out1 Hpick.
  pose proof (CreateEntity_pick_picked _ _ _ _ Hpick) as Hp.
  apply CreateEntity_pick_measure in Hpick as [Hle Hlt].
  apply IH. destruct (decide (id1 ∈ activeEntityIds r1)) as [Hin|Hin].
  - left. rewrite (picked_active _ _ Hp) in Hin.
    specialize (Hlt (or_introl Hin)). lia.
  - right. split; [done|lia].
Qed.

Lemma CreateEntity_measure_bound r :
  (CreateEntity_measure r + 2 ≤ CreateEntity_bound r)%nat.
Proof.
  unfold CreateEntity_measure, CreateEntity_bound.
  assert (filter (λ x, numEntity r ≤ x) (activeEntityIds r) ⊆ activeEntityIds r) as Ha.
  { by intros x [_ ?]%elem_of_filter. }
  assert (filter (λ e, numEntity r ≤ GetId e) (entitiesToBeKilled r)
          ⊆ entitiesToBeKilled r) as Hk.
  { by intros x [_ ?]%elem_of_filter. }
  apply subseteq_size in Ha, Hk. lia.
Qed.

(** Whatever the registry, reachable or not, [CreateEntity_bound] is fuel
    enough: the model of [CreateEntity] returns or faults, and more fuel
    does not change its outcome. *)
Lemma CreateEntity_fuel_enough (fuel : nat) r :
  (CreateEntity_measure r + 2 ≤ fuel)%nat →
  CreateEntity_fuel fuel r ≠ Timeout.
Proof.
  revert r. induction fuel as [|fuel IH]; intros r Hfuel; [lia|].
  cbn [CreateEntity_fuel].
  apply bind_not_Timeout.
  { unfold CreateEntity_pick, mbind, M_bind, get, modify, lift, mret, M_ret.
    repeat (case_match; try done). }
  intros id0 r1 out1 Hpick.
  pose proof (CreateEntity_pick_picked _ _ _ _ Hpick) as Hp1.
  apply CreateEntity_pick_measure in Hpick as [Hle1 Hlt1].
  apply bind_not_Timeout.
  { apply CreateEntity_while_not_Timeout. left. lia. }
  intros id1 r2 out2 Hwhile.
  pose proof (CreateEntity_while_measure _ _ _ _ _ _ Hwhile) as Hle2.
  apply CreateEntity_while_Ret in Hwhile as (_ & Hp2 & _ & Hcase & _).
  rewrite (bind_run _ _ r2 r2 r2) by done.
  case_decide as Hkill; [done|].
  apply bind_not_Timeout; [done|]. intros u r3 out3 Hprint. inv_prim Hprint.
  apply IH.
  destruct Hcase as [[-> ->]|Hin].
  - rewrite (picked_killed _ _ Hp1) in Hkill.
    specialize (Hlt1 (or_intror Hkill)). lia.
  - rewrite (picked_active _ _ Hp1) in Hin.
    specialize (Hlt1 (or_introl Hin)). lia.
Qed.

Lemma CreateEntity_not_Timeout r : CreateEntity r ≠ Timeout.
Proof. apply CreateEntity_fuel_enough, CreateEntity_measure_bound. Qed.

Lemma CreateEntity_fuel_stable (fuel : nat) r :
  (CreateEntity_bound r ≤ fuel)%nat → CreateEntity_fuel fuel r = CreateEntity r.
Proof.
  intros Hfuel. apply CreateEntity_fuel_mono; [done|].
  apply CreateEntity_not_Timeout.
Qed.


(** ** Termination and id reuse *)

(** C8. In every reachable registry whose counter is clear of the
    [int] limit, [CreateEntity] returns: [CreateEntity_bound] iterations of
    the [while] loop and retries together are enough, and any larger
    allowance gives the same result. The entity returned is valid: its id
    was neither active nor pending kill, it indexes the signature table,
    and it is now active and staged for addition. *)
Theorem CreateEntity_terminates r :
  reachable value_init r →
  numEntity r + 100 ≤ INT_MAX →
  ∃ entity r' out,
    (∀ fuel, (CreateEntity_bound r ≤ fuel)%nat →
             CreateEntity_fuel fuel r = Ret entity r' out) ∧
    (GetId entity ∉ activeEntityIds r) ∧
    (entity ∉ entitiesToBeKilled r) ∧
    0 ≤ GetId entity < numEntity r' ∧
    is_Some (entityComponentSignatures r' !! Z.to_nat (GetId entity)) ∧
    GetId entity ∈ activeEntityIds r' ∧
    entity ∈ entitiesToBeAdded r' ∧
    reachable value_init r'.
Proof.
  intros Hreach Hmax. pose proof (reachable_wf _ Hreach) as Hwf.
  destruct (CreateEntity_wf r Hwf Hmax) as (entity & r' & out & Hcreate).
  exists entity, r', out.
  pose proof (CreateEntity_Ret _ _ _ _ Hcreate) as (r1 & Hp & Hr' & Hact & Hkill & _ & Hwf').
  specialize (Hwf' Hwf).
  assert (GetId entity ∈ activeEntityIds r') as Hin by (subst r'; simpl; set_solver).
  pose proof (wf_active _ Hwf' _ Hin) as Hid.
  destruct (wf_signature_index r' (GetId entity) Hwf' Hid) as [Hidx Hsome].
  rewrite Hidx in Hsome.
  split; [|split; [done|split; [done|split; [done|split; [done|split; [done|split]]]]]].
  - intros fuel Hfuel. by rewrite CreateEntity_fuel_stable.
  - subst r'. simpl. set_solver.
  - eapply reachable_steps; [done|].
    apply (steps_cons _ _ CallCreateEntity r'); [|constructor].
    exists (out ++ []). simpl. unfold mbind, M_bind. by rewrite Hcreate.
Qed.

(** An entity whose kill is staged is not handed out again. *)
Lemma CreateEntity_not_killed r (entity e' : Entity) r' out :
  entity ∈ entitiesToBeKilled r →
  CreateEntity r = Ret e' r' out → GetId e' ≠ GetId entity.
Proof.
  intros Hin H. apply CreateEntity_Ret in H as (_ & _ & _ & _ & Hkill & _).
  intros Heq. destruct e', entity. unfold GetId in Heq. simpl in Heq. by subst.
Qed.

Lemma set_iter_entity_singleton (e : Entity) : set_iter_entity {[e]} = [e].
Proof. unfold set_iter_entity. by rewrite elements_singleton. Qed.

(** C5. After [KillEntity(e)] on an active entity, as long as no
    [Update] runs, whatever else is called, [CreateEntity] returns an id
    other than [e]'s (and it does return while the counter is clear of the
    [int] limit). Once [Update] has run the id can come back: with an
    empty free queue and no other kill pending, the [CreateEntity] that
    follows the [Update] returns [e] itself. *)
Theorem killed_id_reuse r (entity : Entity) :
  reachable value_init r →
  GetId entity ∈ activeEntityIds r →
  ∃ r1,
    KillEntity entity r = Ret tt r1 [] ∧
    (∀ (cs : list call) r2,
       steps value_init r1 cs r2 → CallUpdate ∉ cs →
       (∀ e' r3 out, CreateEntity r2 = Ret e' r3 out → GetId e' ≠ GetId entity) ∧
       (numEntity r2 + 100 ≤ INT_MAX →
        ∃ e' r3 out, CreateEntity r2 = Ret e' r3 out ∧ GetId e' ≠ GetId entity)) ∧
    (freeIds r = [] → entitiesToBeKilled r = ∅ →
     ∃ r2 r3, Update r1 = Ret tt r2 [] ∧ CreateEntity r2 = Ret entity r3 []).
Proof.
  intros Hreach Hact. pose proof (reachable_wf _ Hreach) as Hwf.
  pose proof (KillEntity_active r entity Hwf Hact) as Hkill.
  eexists. split; [exact Hkill|].
  match type of Hkill with _ = Ret _ ?r1 _ =>
    assert (reachable value_init r1) as Hreach1
  end.
  { eapply reachable_steps; [done|].
    eapply (steps_cons _ _ (CallKillEntity entity)); [|constructor].
    by exists []. }
  split.
  - intros cs r2 Hsteps Hcs.
    assert (entity ∈ entitiesToBeKilled r2) as Hin.
    { eapply steps_killed_mono; [done|done|]. simpl. set_solver. }
    split.
    + intros e' r3 out. by apply CreateEntity_not_killed.
    + intros Hmax.
      destruct (CreateEntity_wf r2) as (e' & r3 & out & Hcreate); [|done|].
      { apply reachable_wf. by eapply reachable_steps. }
      exists e', r3, out. split; [done|]. by eapply CreateEntity_not_killed.
  - intros Hfree Hnone.
    eexists _, _. split; [by apply Update_wf, reachable_wf|].
    unfold CreateEntity, CreateEntity_bound, Update_result. simpl.
    rewrite Hfree, Hnone, union_empty_r_L, set_iter_entity_singleton. simpl.
    cbn [CreateEntity_fuel]. erewrite bind_run by (by apply CreateEntity_pick_free).
    erewrite bind_run.
    2:{ apply CreateEntity_while_exit. simpl. set_solver. }
    erewrite bind_run by done. simpl.
    rewrite decide_True by set_solver.
    unfold mbind, M_bind, modify, mret, M_ret. simpl.
    destruct entity. done.
Qed.


(** ** Uniqueness of active ids *)

Lemma step_active_subseteq r (c : call) r' :
  step value_init r c r' → c ≠ CallCreateEntity →
  activeEntityIds r' ⊆ activeEntityIds r.
Proof.
  intros [out H] Hc. destruct c; simpl in H; try done.
  - rewrite KillEntity_exact in H. case_decide; [by inv_prim H|].
    destruct (entityComponentSignatures r !! _); [|done]. by inv_prim H.
  - apply Update_Ret in H as (-> & _). simpl. set_solver.
  - apply ClearAllEntities_Ret in H as (-> & _). simpl. set_solver.
  - by apply AddComponent_Ret in H as (_ & _ & _ & _ & _ & _ & -> & _).
  - by apply RemoveComponent_Ret in H as (_ & _ & _ & _ & _ & _ & _ & -> & _).
  - by apply AddSystem_Ret in H as (_ & m & ->).
  - by apply RemoveSystem_Ret in H as (_ & -> & _).
Qed.

Lemma run_live_invariant (cs : list call) (live live' : list Entity) r r' :
  run_live value_init cs live r = Some (live', r') →
  NoDup (GetId <$> live) →
  list_to_set (GetId <$> live) = activeEntityIds r →
  NoDup (GetId <$> live') ∧ list_to_set (GetId <$> live') = activeEntityIds r'.
Proof.
  revert live r. induction cs as [|c cs IH]; intros live r H Hnd Hset.
  { simpl in H. by simplify_eq. }
  assert (∀ out r1, c ≠ CallCreateEntity → run_call value_init c r = Ret tt r1 out →
            run_live value_init cs (filter (λ e, GetId e ∈ activeEntityIds r1) live) r1
              = Some (live', r') →
            NoDup (GetId <$> live') ∧ list_to_set (GetId <$> live') = activeEntityIds r')
    as Hother.
  { intros out r1 Hc Hrun Hrest. eapply IH; [done| |].
    - apply NoDup_fmap_2_strong; [|by apply NoDup_filter, (NoDup_fmap_1 GetId)].
      intros [x] [y] _ _. unfold GetId. simpl. by intros ->.
    - pose proof (step_active_subseteq r c r1 (ex_intro _ out Hrun) Hc) as Hsub.
      apply set_eq. intros x. rewrite elem_of_list_to_set, list_elem_of_fmap.
      split.
      + by intros (e & -> & [? _]%list_elem_of_filter).
      + intros Hx. assert (x ∈ activeEntityIds r) as Hx' by set_solver.
        rewrite <-Hset, elem_of_list_to_set, list_elem_of_fmap in Hx'.
        destruct Hx' as (e & -> & He). exists e. split; [done|].
        by apply list_elem_of_filter. }
  destruct c; simpl in H;
    try (match type of H with
         | match ?m with _ => _ end = _ =>
             destruct m as [[] r1 out| |] eqn:Hrun; [|done..]
         end; by eapply Hother).
  destruct (CreateEntity r) as [entity r1 out| |] eqn:Hcreate; [|done..].
  apply CreateEntity_Ret in Hcreate as (r0 & Hp & -> & Hact & _).
  eapply IH; [done| |].
  - rewrite fmap_cons. constructor; [|done].
    by rewrite <-(elem_of_list_to_set (C := gset Z)), Hset.
  - rewrite fmap_cons. simpl. rewrite (picked_active _ _ Hp), <-Hset. done.
Qed.

(** C3. Along every sequence of calls from the initial registry, the
    entities handed out by [CreateEntity] that are still active carry
    pairwise different ids, and they are exactly the active-id set; and
    whatever the registry, free queue with duplicates or active ids
    included, the id [CreateEntity] returns was not active before, nor
    held by a live entity. *)
Theorem active_ids_unique (cs : list call) (live : list Entity) r :
  run_live value_init cs [] Registry_new = Some (live, r) →
  NoDup (GetId <$> live) ∧
  list_to_set (GetId <$> live) = activeEntityIds r ∧
  (∀ entity r' out,
     CreateEntity r = Ret entity r' out →
     (GetId entity ∉ activeEntityIds r) ∧
     (GetId entity ∉ GetId <$> live) ∧
     activeEntityIds r' = {[GetId entity]} ∪ activeEntityIds r).
Proof.
  intros H.
  apply run_live_invariant in H as [Hnd Hset]; [|constructor|done].
  split; [done|]. split; [done|].
  intros entity r' out Hcreate.
  apply CreateEntity_Ret in Hcreate as (r0 & Hp & -> & Hact & _).
  split; [done|]. split.
  - by rewrite <-(elem_of_list_to_set (C := gset Z)), Hset.
  - simpl. by rewrite (picked_active _ _ Hp).
Qed.

(** The same for an arbitrary registry, without the ghost list. *)
Lemma CreateEntity_fresh r (entity : Entity) r' out :
  CreateEntity r = Ret entity r' out →
  (GetId entity ∉ activeEntityIds r) ∧
  activeEntityIds r' = {[GetId entity]} ∪ activeEntityIds r ∧
  size (activeEntityIds r') = S (size (activeEntityIds r)).
Proof.
  intros H. apply CreateEntity_Ret in H as (r0 & Hp & -> & Hact & _).
  simpl. rewrite (picked_active _ _ Hp). split; [done|]. split; [done|].
  rewrite size_union by set_solver. by rewrite size_singleton.
Qed.


(** ** The free queue and the pending kills *)

Lemma tidy_Registry_new : tidy (Registry_new (TComponent := TComponent)).
Proof.
  constructor; simpl.
  - constructor.
  - intros x Hx. by apply elem_of_nil in Hx.
  - intros e He. by apply elem_of_empty in He.
Qed.

(** In a tidy registry [CreateEntity] takes the first id it looks at: the
    [while] loop does not iterate and there is no retry. *)
Lemma CreateEntity_tidy r (entity : Entity) r' out :
  wf r → tidy r →
  CreateEntity r = Ret entity r' out →
  out = [] ∧
  (freeIds r = GetId entity :: freeIds r' ∨
   (freeIds r = [] ∧ freeIds r' = [] ∧ GetId entity = numEntity r)) ∧
  activeEntityIds r' = {[GetId entity]} ∪ activeEntityIds r ∧
  entitiesToBeKilled r' = entitiesToBeKilled r.
Proof.
  intros Hwf Htidy H. unfold CreateEntity, CreateEntity_bound in H.
  rewrite Nat.add_comm in H. cbn [Nat.add CreateEntity_fuel] in H.
  inv_bind H id0 r1 Hpick.
  pose proof (CreateEntity_pick_picked _ _ _ _ Hpick) as Hp.
  assert ((id0 ∉ activeEntityIds r) ∧ (mkEntity id0 ∉ entitiesToBeKilled r) ∧
          (freeIds r = id0 :: freeIds r1 ∨
           (freeIds r = [] ∧ freeIds r1 = [] ∧ id0 = numEntity r))) as (Hact & Hkill & Hfree).
  { apply CreateEntity_pick_Ret in Hpick as (_ & [(rest & Hf & ->)|Hc]).
    - assert (id0 ∉ activeEntityIds r) as Hact.
      { apply (tidy_free _ Htidy). rewrite Hf. apply elem_of_cons. by left. }
      split; [done|]. split; [|by left].
      intros Hin. by apply (tidy_killed _ Htidy) in Hin.
    - destruct Hc as (Hf & -> & _ & sigs & -> & _). split; [|split].
      + intros Hin. apply (wf_active _ Hwf) in Hin. lia.
      + intros Hin. apply (wf_killed _ Hwf) in Hin. unfold GetId in Hin. simpl in Hin. lia.
      + right. by rewrite Hf. }
  apply CreateEntity_pick_Ret in Hpick as (-> & _).
  inv_bind H id1 r2 Hwhile.
  rewrite CreateEntity_while_exit in Hwhile by (by rewrite (picked_active _ _ Hp)).
  inv_prim Hwhile.
  inv_bind H r0 r2 Hget. inv_prim Hget.
  rewrite decide_True in H by (by rewrite (picked_killed _ _ Hp)).
  inv_bind H u r2 Hm1. inv_prim Hm1. inv_bind H u r2 Hm2. inv_prim Hm2. inv_prim H.
  simpl. rewrite (picked_active _ _ Hp), (picked_killed _ _ Hp). done.
Qed.

Lemma step_tidy r (c : call) r' :
  step value_init r c r' → c ≠ CallClearAllEntities →
  wf r → tidy r → tidy r'.
Proof.
  intros [out H] Hc Hwf Htidy. pose proof Htidy as [Hnd Hfree Hkill].
  destruct c; simpl in H; try done.
  - inv_bind H e r1 Hcreate. inv_prim H.
    apply (CreateEntity_tidy _ _ _ _ Hwf Htidy) in Hcreate as (_ & Hf & Ha & Hk).
    constructor.
    + destruct Hf as [Hf|(_ & -> & _)]; [|constructor].
      rewrite Hf in Hnd. by apply NoDup_cons in Hnd as [_ ?].
    + intros y Hy. rewrite Ha. destruct Hf as [Hf|(_ & Hf & _)].
      * rewrite Hf in Hnd, Hfree. apply NoDup_cons in Hnd as [Hnot _].
        apply not_elem_of_union. split.
        -- intros ->%elem_of_singleton. done.
        -- apply Hfree, elem_of_cons. by right.
      * rewrite Hf in Hy. by apply elem_of_nil in Hy.
    + intros e0 He0. rewrite Hk in He0. rewrite Ha. set_solver.
  - rewrite KillEntity_exact in H. case_decide as Hact; [by inv_prim H|].
    destruct (entityComponentSignatures r !! _); [|done]. inv_prim H.
    constructor; simpl; try done.
    intros e [->%elem_of_singleton|He]%elem_of_union; by auto.
  - apply Update_Ret in H as (-> & _). constructor; simpl.
    + apply NoDup_app. split; [done|]. split.
      * intros x Hx (e & -> & He%elem_of_set_iter_entity)%list_elem_of_fmap.
        by apply (Hfree _ Hx), Hkill.
      * apply NoDup_fmap_2_strong; [|apply NoDup_set_iter_entity].
        intros [x] [y] _ _. unfold GetId. simpl. by intros ->.
    + intros x [Hx|Hx]%elem_of_app.
      * intros [Hin _]%elem_of_difference. by apply (Hfree _ Hx).
      * intros [_ Hin]%elem_of_difference. apply Hin.
        by apply elem_of_list_to_set.
    + intros e He. by apply elem_of_empty in He.
  - apply AddComponent_Ret in H as (_ & _ & _ & _ & Hk & Hf & Ha & _).
    constructor; rewrite ?Hk, ?Hf, ?Ha; done.
  - apply RemoveComponent_Ret in H as (_ & _ & _ & _ & _ & Hk & Hf & Ha & _).
    constructor; rewrite ?Hk, ?Hf, ?Ha; done.
  - by apply AddSystem_Ret in H as (_ & m & ->).
  - by apply RemoveSystem_Ret in H as (_ & -> & _).
Qed.

Lemma steps_tidy r (cs : list call) r' :
  steps value_init r cs r' → CallClearAllEntities ∉ cs →
  wf r → tidy r → tidy r'.
Proof.
  induction 1 as [|r c r1 cs r2 Hstep _ IH]; [done|].
  intros [Hc Hcs]%not_elem_of_cons Hwf Htidy.
  apply IH; [done|by eapply step_wf|by eapply step_tidy].
Qed.

Lemma ClearAllEntities_result_tidy r :
  tidy r → entitiesToBeKilled r = ∅ → tidy (ClearAllEntities_result r).
Proof.
  intros [Hnd Hfree Hkill] Hnone. constructor; simpl.
  - apply NoDup_app. split; [done|]. split; [|apply NoDup_set_iter_int].
    intros x Hx Hin%elem_of_set_iter_int. by apply (Hfree _ Hx).
  - intros x _. apply not_elem_of_empty.
  - intros e He. rewrite Hnone in He. by apply elem_of_empty in He.
Qed.

Lemma steps_clears_idle_tidy r (cs : list call) r' :
  steps value_init r cs r' → clears_idle value_init cs r = true →
  wf r → tidy r → tidy r'.
Proof.
  induction 1 as [|r c r1 cs r2 Hstep _ IH]; [done|].
  intros Hidle Hwf Htidy. cbn [clears_idle] in Hidle.
  apply andb_true_iff in Hidle as [Hc Hrest].
  pose proof Hstep as [out Hrun]. rewrite Hrun in Hrest.
  apply IH; [done|by eapply step_wf|].
  destruct c; try (by eapply step_tidy).
  apply bool_decide_eq_true in Hc. simpl in Hrun.
  apply ClearAllEntities_Ret in Hrun as (-> & _).
  by apply ClearAllEntities_result_tidy.
Qed.

(** A history without [ClearAllEntities] is one whose clears are idle. *)
Lemma clears_idle_no_clear r (cs : list call) r' :
  steps value_init r cs r' → CallClearAllEntities ∉ cs →
  clears_idle value_init cs r = true.
Proof.
  induction 1 as [|r c r1 cs r2 [out Hrun] _ IH]; [done|].
  intros [Hc Hcs]%not_elem_of_cons. cbn [clears_idle]. rewrite Hrun, IH by done.
  by destruct c.
Qed.

(** C4 (as amended). Take a registry reached from the initial one by any
    calls that returned. If every [ClearAllEntities] among them was called
    while no entity was staged for killing (in particular if there was
    none), then no id of the free queue belongs to an entity staged in the
    pending-kill set, the queue has no duplicates and holds no active id,
    and every entity staged for killing is still active. In any case
    [ClearAllEntities] returns, leaves the pending-kill set as it is and
    pushes every active id onto the free queue, those of the entities
    staged for killing included: called with a kill pending on an active
    entity it breaks the first property. And in any case [CreateEntity],
    which returns while the counter is clear of the [int] limit, never
    returns an entity of the pending-kill set, which it leaves as it
    is. *)
Theorem free_ids_not_pending_kill (cs : list call) r :
  steps value_init Registry_new cs r →
  (clears_idle value_init cs Registry_new = true →
   (∀ x, x ∈ freeIds r → mkEntity x ∉ entitiesToBeKilled r) ∧
   NoDup (freeIds r) ∧
   (∀ x, x ∈ freeIds r → x ∉ activeEntityIds r) ∧
   (∀ e, e ∈ entitiesToBeKilled r → GetId e ∈ activeEntityIds r)) ∧
  (∃ r',
     ClearAllEntities r = Ret tt r' [CoutFreeingAll] ∧
     entitiesToBeKilled r' = entitiesToBeKilled r ∧
     (∀ x, x ∈ freeIds r' ↔ x ∈ freeIds r ∨ x ∈ activeEntityIds r) ∧
     (∀ e, e ∈ entitiesToBeKilled r → GetId e ∈ activeEntityIds r →
           GetId e ∈ freeIds r' ∧ e ∈ entitiesToBeKilled r')) ∧
  (numEntity r + 100 ≤ INT_MAX →
   ∃ entity r' out, CreateEntity r = Ret entity r' out) ∧
  (∀ entity r' out,
     CreateEntity r = Ret entity r' out →
     (entity ∉ entitiesToBeKilled r') ∧
     entitiesToBeKilled r' = entitiesToBeKilled r).
Proof.
  intros Hsteps.
  assert (wf r) as Hwf by (apply reachable_wf; by exists cs).
  split; [|split; [|split]].
  - intros Hidle.
    destruct (steps_clears_idle_tidy _ _ _ Hsteps Hidle wf_Registry_new tidy_Registry_new)
      as [Hnd Hfree Hkill].
    split; [|done]. intros x Hx Hin. by apply (Hfree _ Hx), (Hkill _ Hin).
  - exists (ClearAllEntities_result r). split; [by apply ClearAllEntities_wf|].
    split; [done|]. simpl. split.
    + intros x. by rewrite elem_of_app, elem_of_set_iter_int.
    + intros e He Hact. split; [|done].
      apply elem_of_app. right. by apply elem_of_set_iter_int.
  - by apply CreateEntity_wf.
  - intros entity r' out (r1 & Hp & -> & _ & Hnot & _)%CreateEntity_Ret. simpl.
    by rewrite (picked_killed _ _ Hp).
Qed.

(** ** Membership after Update *)

Lemma elem_of_System_with (sigs : list Signature) (staged : list Entity)
    (s : System) (e : Entity) :
  e ∈ entities (System_with sigs staged s) ↔
  e ∈ entities s ∨
  (e ∈ staged ∧ isInterested (signature_in sigs e) (componentSignature s) = true).
Proof.
  unfold System_with. simpl. rewrite elem_of_app, list_elem_of_filter. tauto.
Qed.

Lemma elem_of_System_without (gone : list Entity) (s : System) (e : Entity) :
  e ∈ entities (System_without gone s) ↔ (e ∉ gone) ∧ e ∈ entities s.
Proof. unfold System_without. simpl. by rewrite list_elem_of_filter. Qed.

(** C1 (as amended). [Update] on a reachable registry returns silently,
    and right after it, for every registered system and every active
    entity: the entity is a member of the system if and only if it was a
    member before this [Update], or it was staged in the pending-add set
    and its signature covers the system's required signature. The
    signature of an active entity and the required signature are the ones
    from before the [Update]. *)
Theorem Update_membership r :
  reachable value_init r →
  ∃ r',
    Update r = Ret tt r' [] ∧
    ∀ (TSystem : type_index) (system' : System) (entity : Entity),
      systems r' !! TSystem = Some system' →
      GetId entity ∈ activeEntityIds r' →
      ∃ system,
        systems r !! TSystem = Some system ∧
        GetComponentSignature system' = GetComponentSignature system ∧
        signature_in (entityComponentSignatures r') entity =
          signature_in (entityComponentSignatures r) entity ∧
        (entity ∈ GetSystemEntities system' ↔
         entity ∈ GetSystemEntities system ∨
         (entity ∈ entitiesToBeAdded r ∧
          isInterested (signature_in (entityComponentSignatures r') entity)
                       (GetComponentSignature system') = true)).
Proof.
  intros Hwf%reachable_wf. exists (Update_result r).
  split; [by apply Update_wf|].
  intros T system' entity Hsys Hact. simpl in Hsys, Hact.
  rewrite !lookup_fmap in Hsys.
  destruct (systems r !! T) as [system|] eqn:Hsys0; [|done].
  simpl in Hsys. simplify_eq. exists system. split; [done|]. split; [done|].
  apply elem_of_difference in Hact as [Hact Hgone].
  assert (entity ∉ set_iter_entity (entitiesToBeKilled r)) as Hgone'.
  { intros Hin. apply Hgone, elem_of_list_to_set, list_elem_of_fmap. by exists entity. }
  assert (signature_in (entityComponentSignatures (Update_result r)) entity =
          signature_in (entityComponentSignatures r) entity) as Hsig.
  { unfold signature_in. simpl. rewrite reset_signatures_lookup_ne; [done|].
    intros (x & Hx & (e & -> & He)%list_elem_of_fmap)%list_elem_of_fmap.
    apply elem_of_set_iter_entity in He as He'.
    destruct (wf_signature_index r _ Hwf (wf_active _ Hwf _ Hact)) as [Hi1 _].
    destruct (wf_signature_index r _ Hwf (wf_killed _ Hwf _ He')) as [Hi2 _].
    rewrite Hi1, Hi2 in Hx.
    pose proof (wf_active _ Hwf _ Hact). pose proof (wf_killed _ Hwf _ He').
    assert (GetId entity = GetId e) as Heq by lia.
    destruct entity, e. unfold GetId in Heq. simpl in Heq. by subst. }
  split; [done|]. rewrite Hsig.
  unfold GetSystemEntities, GetComponentSignature.
  change (componentSignature (System_without _ (System_with _ _ system)))
    with (componentSignature system).
  rewrite elem_of_System_without, elem_of_System_with, !elem_of_set_iter_entity.
  rewrite elem_of_set_iter_entity in Hgone'. tauto.
Qed.


(** ** AddComponent, HasComponent and GetComponent *)

(** [AddComponent] returns exactly when each of its steps is defined. *)
Lemma AddComponent_Ret_iff (entity : Entity) (componentId : Z) (v : TComponent)
    r r' out :
  AddComponent value_init entity componentId v r = Ret tt r' out ↔
  ∃ pools1 slot pool0 pool1 pool2 pools2 sig sig',
    (if decide (Z.of_nat (length (componentsPools r)) ≤ to_size_t componentId)
     then ∃ n, int_add componentId 10 = Ok n ∧
               vector_resize None (to_size_t n) (componentsPools r) = Ok pools1
     else pools1 = componentsPools r) ∧
    vector_at (to_size_t componentId) pools1 = Ok slot ∧
    match slot with
    | None => Pool.new value_init 1000 = Ok pool0
    | Some pool => pool0 = pool
    end ∧
    (if decide (Pool.GetSize pool0 ≤ GetId entity)
     then ∃ n, int_add (numEntity r) 100 = Ok n ∧
               Pool.Resize value_init n pool0 = Ok pool1
     else pool1 = pool0) ∧
    Pool.Set_ (to_unsigned (GetId entity)) v pool1 = Ok pool2 ∧
    vector_set (to_size_t componentId) (Some pool2) pools1 = Ok pools2 ∧
    entityComponentSignatures r !! signature_index (GetId entity) = Some sig ∧
    bitset_set (to_size_t componentId) true sig = Ok sig' ∧
    r' = set_entityComponentSignatures
           (<[signature_index (GetId entity) := sig']> (entityComponentSignatures r))
           (set_componentsPools pools2 r) ∧
    out = [].
Proof.
  unfold AddComponent. split.
  - intros H.
    inv_bind H r0 r1 Hget. inv_prim Hget.
    inv_bind H pools1 r1 Hpools o1.
    assert (r1 = r ∧ o1 = [] ∧
            if decide (Z.of_nat (length (componentsPools r)) ≤ to_size_t componentId)
            then ∃ n, int_add componentId 10 = Ok n ∧
                      vector_resize None (to_size_t n) (componentsPools r) = Ok pools1
            else pools1 = componentsPools r) as (-> & -> & Hp1).
    { destruct (decide (Z.of_nat (length (componentsPools r)) ≤ to_size_t componentId)).
      - inv_bind Hpools n r2 Hn. inv_prim Hn. inv_prim Hpools. eauto.
      - by inv_prim Hpools. }
    inv_bind H slot r1 Hslot. inv_prim Hslot.
    inv_bind H pool0 r1 Hpool o1.
    assert (r1 = r ∧ o1 = [] ∧
            match slot with
            | None => Pool.new value_init 1000 = Ok pool0
            | Some pool => pool0 = pool
            end) as (-> & -> & Hp0).
    { destruct slot; by inv_prim Hpool. }
    inv_bind H pool1 r1 Hresize o1.
    assert (r1 = r ∧ o1 = [] ∧
            if decide (Pool.GetSize pool0 ≤ GetId entity)
            then ∃ n, int_add (numEntity r) 100 = Ok n ∧
                      Pool.Resize value_init n pool0 = Ok pool1
            else pool1 = pool0) as (-> & -> & Hp1').
    { destruct (decide (Pool.GetSize pool0 ≤ GetId entity)).
      - inv_bind Hresize n r2 Hn. inv_prim Hn. inv_prim Hresize. eauto.
      - by inv_prim Hresize. }
    inv_bind H pool2 r1 Hset. inv_prim Hset.
    inv_bind H pools2 r1 Hstore. inv_prim Hstore.
    inv_bind H u r1 Hmod. inv_prim Hmod.
    apply update_signature_Ret in H as (sig & sig' & Hsig & Hbit & -> & ->).
    exists pools1, slot, pool0, pool1, pool2, pools2, sig, sig'. done.
  - intros (pools1 & slot & pool0 & pool1 & pool2 & pools2 & sig & sig' &
            Hp1 & Hslot & Hp0 & Hp1' & Hset & Hstore & Hsig & Hbit & -> & ->).
    rewrite (bind_run _ _ r r r) by done.
    rewrite (bind_run _ _ r pools1 r).
    2:{ destruct (decide (Z.of_nat (length (componentsPools r)) ≤ to_size_t componentId));
          [|by subst].
        destruct Hp1 as (n & -> & Hn). unfold mbind, M_bind, lift. by rewrite Hn. }
    rewrite (bind_run _ _ r slot r) by (unfold lift; by rewrite Hslot).
    rewrite (bind_run _ _ r pool0 r).
    2:{ destruct slot; [by subst|]. unfold lift. by rewrite Hp0. }
    rewrite (bind_run _ _ r pool1 r).
    2:{ destruct (decide (Pool.GetSize pool0 ≤ GetId entity)); [|by subst].
        destruct Hp1' as (n & -> & Hn). unfold mbind, M_bind, lift. by rewrite Hn. }
    rewrite (bind_run _ _ r pool2 r) by (unfold lift; by rewrite Hset).
    rewrite (bind_run _ _ r pools2 r) by (unfold lift; by rewrite Hstore).
    erewrite bind_run by done.
    apply update_signature_Ret. by exists sig, sig'.
Qed.


Lemma to_int_le (n : nat) : to_int (Z.of_nat n) ≤ Z.of_nat n.
Proof.
  unfold to_int.
  pose proof (Z.mod_le (Z.of_nat n + 2 ^ 31) (2 ^ 32)). lia.
Qed.


Lemma vector_resize_lookup {A} (fill : A) (n : Z) (v v' : list A) (i : nat) (a : A) :
  vector_resize fill n v = Ok v' → v' !! i = Some a → a = fill ∨ v !! i = Some a.
Proof.
  unfold vector_resize. intros H Hi. repeat case_decide; simplify_eq.
  - right. apply lookup_take_Some in Hi. tauto.
  - apply lookup_app_Some in Hi as [Hi|[_ Hi]]; [by right|].
    left. by apply lookup_replicate_1 in Hi as [-> _].
Qed.





Lemma HasComponent_Ret (entity : Entity) (componentId : Z) r (b : bool) r' out :
  HasComponent entity componentId r = Ret b r' out ↔
  ∃ sig,
    entityComponentSignatures r !! signature_index (GetId entity) = Some sig ∧
    0 ≤ to_size_t componentId < MAX_COMPONENTS ∧
    b = Z.testbit sig (to_size_t componentId) ∧ r' = r ∧ out = [].
Proof.
  unfold HasComponent. split.
  - intros H. inv_bind H sig r1 Hsig. apply signature_at_Ret in Hsig as (Hsig & -> & ->).
    inv_prim H. unfold bitset_test in H. case_decide; [|done]. injection H as <-.
    by exists sig.
  - intros (sig & Hsig & Hc & -> & -> & ->).
    erewrite bind_run by (by apply signature_at_Ret).
    unfold lift, bitset_test. by rewrite decide_True.
Qed.

Lemma GetComponent_Ret (entity : Entity) (componentId : Z) r (v : TComponent) r' out :
  GetComponent entity componentId r = Ret v r' out ↔
  ∃ pool,
    componentsPools r !! Z.to_nat (to_size_t componentId) = Some (Some pool) ∧
    Pool.data pool !! Z.to_nat (to_unsigned (GetId entity)) = Some v ∧
    r' = r ∧ out = [].
Proof.
  unfold GetComponent. split.
  - intros H. inv_bind H r0 r1 Hget. inv_prim Hget.
    inv_bind H slot r1 Hslot. inv_prim Hslot.
    apply vector_at_Ok in Hslot as [_ Hslot].
    destruct slot as [pool|]; [|done]. inv_prim H.
    apply vector_at_Ok in H as [_ H]. by exists pool.
  - intros (pool & Hpool & Hv & -> & ->).
    rewrite (bind_run _ _ r r r) by done.
    rewrite (bind_run _ _ r (Some pool) r).
    2:{ apply lift_Ret. split; [|done]. apply vector_at_Ok.
        split; [apply to_size_t_nonneg|done]. }
    apply lift_Ret. split; [|done]. apply vector_at_Ok. split; [|done].
    unfold to_unsigned. apply Z.mod_pos_bound. lia.
Qed.






(** X3. [RemoveComponent<T>(e)] on an active entity of a reachable
    registry whose [T] reads back as [v]: afterwards [HasComponent] answers
    [false], and [GetComponent] still returns [v], the pool slot being
    kept. *)
Theorem RemoveComponent_keeps_value r (entity : Entity) (componentId : Z) (v : TComponent) :
  reachable value_init r →
  GetId entity ∈ activeEntityIds r →
  0 ≤ componentId < MAX_COMPONENTS →
  GetComponent entity componentId r = Ret v r [] →
  ∃ r',
    RemoveComponent entity componentId r = Ret tt r' [] ∧
    HasComponent entity componentId r' = Ret false r' [] ∧
    GetComponent entity componentId r' = Ret v r' [].
Proof.
  intros Hwf%reachable_wf Hact Hc (pool & Hpool & Hv & _)%GetComponent_Ret.
  destruct (wf_signature_index r (GetId entity) Hwf (wf_active _ Hwf _ Hact))
    as [Hidx [sig Hsig]].
  assert (to_size_t componentId = componentId) as Hcz
    by (apply to_size_t_id; unfold MAX_COMPONENTS in Hc; lia).
  eexists. split; [|split].
  - unfold RemoveComponent. apply update_signature_Ret.
    exists sig, (Z.clearbit sig componentId). split; [done|]. split; [|done].
    rewrite Hcz. unfold bitset_set. by rewrite decide_True.
  - apply HasComponent_Ret. exists (Z.clearbit sig componentId). simpl. rewrite Hcz.
    split; [|split; [done|split; [|done]]].
    + apply list_lookup_insert_eq. by eapply lookup_lt_Some.
    + symmetry. apply Z.clearbit_eq.
  - apply GetComponent_Ret. by exists pool.
Qed.

(** ** Systems and their signatures *)

Lemma System_construct_from_bits (required : list Z) (s : System) :
  Forall (λ c, 0 ≤ c < MAX_COMPONENTS) required →
  ∃ s', System_construct_from required s = Ok s' ∧ entities s' = entities s ∧
        ∀ k, 0 ≤ k →
          Z.testbit (componentSignature s') k =
          Z.testbit (componentSignature s) k || bool_decide (k ∈ required).
Proof.
  intros Hreq. revert s. induction Hreq as [|c rest Hc _ IH]; intros s.
  - exists s. split; [done|]. split; [done|]. intros k _.
    rewrite bool_decide_eq_false_2 by apply not_elem_of_nil. by rewrite orb_false_r.
  - simpl. unfold RequireComponent, bitset_set.
    rewrite to_size_t_id by (unfold MAX_COMPONENTS in Hc; lia).
    rewrite decide_True by done. simpl.
    destruct (IH (mkSystem (Z.setbit (componentSignature s) c) (entities s)))
      as (s' & -> & Hs' & Hbits).
    exists s'. split; [done|]. split; [done|]. intros k Hk.
    rewrite Hbits by done. simpl.
    rewrite Z.setbit_eqb by lia.
    destruct (Z.eqb_spec c k) as [->|Hck].
    + rewrite (bool_decide_eq_true_2 (k ∈ k :: rest)) by apply list_elem_of_here.
      simpl. by rewrite orb_true_r.
    + simpl. f_equal. apply bool_decide_ext. rewrite elem_of_cons. naive_solver.
Qed.

Lemma isInterested_bits (entitySig systemSig : Signature) :
  isInterested entitySig systemSig = true ↔
  ∀ k, 0 ≤ k → Z.testbit systemSig k = true → Z.testbit entitySig k = true.
Proof.
  unfold isInterested. rewrite bool_decide_eq_true. split.
  - intros Hland k Hk Hbit. rewrite <- Hland in Hbit.
    rewrite Z.land_spec in Hbit. by apply andb_true_iff in Hbit as [? _].
  - intros Hbits. apply Z.bits_inj'. intros k Hk. rewrite Z.land_spec.
    destruct (Z.testbit systemSig k) eqn:Hbit.
    + by rewrite Hbits.
    + by rewrite andb_false_r.
Qed.

(** X4. A system whose constructor requires the component ids
    [required], all below [MAX_COMPONENTS], is built with no members and
    with exactly the bits of [required] set in its signature; it is
    interested in an entity signature exactly when that signature has the
    bit of every required component. *)
Theorem System_construct_signature (required : list Z) :
  Forall (λ c, 0 ≤ c < MAX_COMPONENTS) required →
  ∃ system,
    System_construct required = Ok system ∧
    GetSystemEntities system = [] ∧
    (∀ k, 0 ≤ k →
       Z.testbit (GetComponentSignature system) k = bool_decide (k ∈ required)) ∧
    (∀ entitySig : Signature,
       isInterested entitySig (GetComponentSignature system) = true ↔
       ∀ c, c ∈ required → Z.testbit entitySig c = true).
Proof.
  intros Hreq.
  destruct (System_construct_from_bits required System_new Hreq)
    as (s & Hs & Hent & Hbits).
  exists s. split; [done|]. split; [done|].
  assert (∀ k, 0 ≤ k →
            Z.testbit (componentSignature s) k = bool_decide (k ∈ required)) as Hb.
  { intros k Hk. rewrite Hbits by done. simpl. by rewrite Z.bits_0. }
  split; [done|]. intros entitySig.
  unfold GetComponentSignature. rewrite isInterested_bits. split.
  - intros H c Hc. rewrite Forall_forall in Hreq.
    apply H; [specialize (Hreq c Hc); simpl in Hreq; lia|].
    rewrite Hb by (specialize (Hreq c Hc); simpl in Hreq; lia).
    by apply bool_decide_eq_true_2.
  - intros H k Hk Hbit. rewrite Hb in Hbit by done.
    apply bool_decide_eq_true in Hbit. by apply H.
Qed.

(** X5. A system constructor that requires a component id outside
    [0, MAX_COMPONENTS) (as converted to [size_t]) does not build a system:
    [bitset::set] throws [std::out_of_range], whatever else is required. *)
Theorem System_construct_out_of_range (required : list Z) :
  Exists (λ c, ¬ 0 ≤ to_size_t c < MAX_COMPONENTS) required →
  System_construct required = Err OutOfRange.
Proof.
  unfold System_construct. intros Hbad. generalize System_new.
  induction Hbad as [c rest Hc|c rest _ IH]; intros system; simpl.
  - unfold RequireComponent, bitset_set. by rewrite decide_False.
  - unfold RequireComponent, bitset_set.
    destruct (decide (0 ≤ to_size_t c < MAX_COMPONENTS)); [|done].
    simpl. apply IH.
Qed.

Lemma HasSystem_exact r (TSystem : type_index) :
  HasSystem TSystem r = Ret (bool_decide (is_Some (systems r !! TSystem))) r [].
Proof. unfold HasSystem. by rewrite (bind_run _ _ r r r). Qed.

(** X6. [AddSystem<T>] on a type that is not registered: afterwards
    [HasSystem<T>] answers [true] and [GetSystem<T>] returns a system with
    no members, whatever entities are alive; the systems of other types
    are as before; and [RemoveSystem<T>] brings the registry back to
    exactly what it was, where [HasSystem<T>] answers [false]. *)
Theorem AddSystem_RemoveSystem_round_trip r (TSystem : type_index) (required : list Z) :
  Forall (λ c, 0 ≤ c < MAX_COMPONENTS) required →
  systems r !! TSystem = None →
  ∃ r' system,
    AddSystem TSystem required r = Ret tt r' [] ∧
    HasSystem TSystem r' = Ret true r' [] ∧
    GetSystem TSystem r' = Ret system r' [] ∧
    System_construct required = Ok system ∧
    GetSystemEntities system = [] ∧
    (∀ T, T ≠ TSystem → systems r' !! T = systems r !! T) ∧
    RemoveSystem TSystem r' = Ret tt r [] ∧
    HasSystem TSystem r = Ret false r [].
Proof.
  intros Hreq Hnone.
  destruct (AddSystem_fresh r TSystem required Hreq Hnone) as (s & Hs & Hent & Hadd).
  eexists _, s. split; [exact Hadd|].
  split; [|split; [|split; [done|split; [done|split; [|split]]]]].
  - rewrite HasSystem_exact. simpl. rewrite lookup_insert_eq.
    by rewrite bool_decide_eq_true_2.
  - apply system_lookup_registered. simpl. by rewrite lookup_insert_eq.
  - intros T HT. simpl. by rewrite lookup_insert_ne.
  - edestruct (system_lookup_registered
                 (set_systems (<[TSystem := s]> (systems r)) r) TSystem s)
      as [_ ->]; [simpl; by rewrite lookup_insert_eq|].
    unfold set_systems. simpl.
    rewrite delete_insert_id by done. by destruct r.
  - rewrite HasSystem_exact, Hnone.
    by rewrite bool_decide_eq_false_2 by (by intros [? ?]).
Qed.

(** ** The life cycle without [ClearAllEntities] *)

(** [CreateEntity] when the first id picked is neither active nor staged
    for killing: no retry, no diagnostic. *)
Lemma CreateEntity_first_pick r (entityId : Z) r1 :
  CreateEntity_pick r = Ret entityId r1 [] →
  entityId ∉ activeEntityIds r1 →
  mkEntity entityId ∉ entitiesToBeKilled r1 →
  CreateEntity r =
    Ret (mkEntity entityId)
        (set_activeEntityIds ({[entityId]} ∪ activeEntityIds r1)
           (set_entitiesToBeAdded ({[mkEntity entityId]} ∪ entitiesToBeAdded r1) r1)) [].
Proof.
  intros Hpick Hact Hkill. unfold CreateEntity, CreateEntity_bound.
  rewrite Nat.add_comm. cbn [Nat.add CreateEntity_fuel].
  rewrite (bind_run _ _ r entityId r1) by done.
  rewrite (bind_run _ _ r1 entityId r1) by (by apply CreateEntity_while_exit).
  rewrite (bind_run _ _ r1 r1 r1) by done.
  rewrite decide_True by done.
  erewrite bind_run by reflexivity. erewrite bind_run by reflexivity. done.
Qed.

(** In a well-formed registry whose free queue is tidy, [CreateEntity]
    takes the front of the queue, or the counter when the queue is empty. *)
Lemma CreateEntity_tidy_exact r :
  wf r → tidy r → numEntity r + 100 ≤ INT_MAX →
  ∃ r1,
    CreateEntity_pick r = Ret (default (numEntity r) (head (freeIds r))) r1 [] ∧
    CreateEntity r =
      Ret (mkEntity (default (numEntity r) (head (freeIds r))))
          (set_activeEntityIds
             ({[default (numEntity r) (head (freeIds r))]} ∪ activeEntityIds r)
             (set_entitiesToBeAdded
                ({[mkEntity (default (numEntity r) (head (freeIds r)))]}
                   ∪ entitiesToBeAdded r) r1)) [] ∧
    freeIds r1 = tail (freeIds r) ∧
    numEntity r1 = (if freeIds r is [] then numEntity r + 1 else numEntity r) ∧
    entityComponentSignatures r `prefix_of` entityComponentSignatures r1 ∧
    picked r r1.
Proof.
  intros Hwf Htidy Hmax.
  pose proof (wf_numEntity _ Hwf) as Hnum.
  destruct (freeIds r) as [|front rest] eqn:Hfree; simpl.
  - destruct (CreateEntity_pick_counter r Hfree) as (sigs & Hpick & Hpre & Hlen);
      [lia|done|].
    pose proof (CreateEntity_pick_picked _ _ _ _ Hpick) as Hp.
    eexists. split; [exact Hpick|]. split; [|split; [|split; [|split]]]; try done.
    + rewrite (CreateEntity_first_pick r _ _ Hpick); [reflexivity| |]; simpl.
      * intros Hin%(wf_active _ Hwf). lia.
      * intros Hin%(wf_killed _ Hwf). unfold GetId in Hin. simpl in Hin. lia.
  - pose proof (CreateEntity_pick_free r front rest Hfree) as Hpick.
    pose proof (CreateEntity_pick_picked _ _ _ _ Hpick) as Hp.
    assert (front ∉ activeEntityIds r) as Hact.
    { apply (tidy_free _ Htidy). rewrite Hfree. apply elem_of_cons. by left. }
    eexists. split; [exact Hpick|]. split; [|split; [|split; [|split]]]; try done.
    rewrite (CreateEntity_first_pick r _ _ Hpick); [reflexivity| |]; simpl; [done|].
    intros Hin. by apply (tidy_killed _ Htidy) in Hin.
Qed.

(** X7. In a registry reached without [ClearAllEntities], with the
    counter clear of the [int] limit, [CreateEntity] returns at its first
    pick, silently: the entity carries the front of the free queue, which
    is popped (ids are reused first-in first-out), or, when the queue is
    empty, the counter, which is incremented. The id becomes active, the
    entity is staged for the next [Update]; systems, pools and the kill
    set are untouched, and the signature table is only ever extended. *)
Theorem CreateEntity_reuses_front (cs : list call) r :
  steps value_init Registry_new cs r →
  CallClearAllEntities ∉ cs →
  numEntity r + 100 ≤ INT_MAX →
  ∃ entity r',
    CreateEntity r = Ret entity r' [] ∧
    GetId entity = default (numEntity r) (head (freeIds r)) ∧
    freeIds r' = tail (freeIds r) ∧
    numEntity r' = (if freeIds r is [] then numEntity r + 1 else numEntity r) ∧
    activeEntityIds r' = {[GetId entity]} ∪ activeEntityIds r ∧
    entitiesToBeAdded r' = {[entity]} ∪ entitiesToBeAdded r ∧
    entitiesToBeKilled r' = entitiesToBeKilled r ∧
    systems r' = systems r ∧
    componentsPools r' = componentsPools r ∧
    entityComponentSignatures r `prefix_of` entityComponentSignatures r'.
Proof.
  intros Hsteps Hclear Hmax.
  assert (wf r) as Hwf by (apply reachable_wf; by exists cs).
  assert (tidy r) as Htidy.
  { eapply steps_tidy; [done|done|apply wf_Registry_new|apply tidy_Registry_new]. }
  destruct (CreateEntity_tidy_exact r Hwf Htidy Hmax)
    as (r1 & _ & Hcreate & Hfree & Hnum & Hpre & Hp).
  eexists _, _. split; [exact Hcreate|]. simpl.
  split; [done|]. split; [done|]. split; [done|]. split; [done|]. split; [done|].
  split; [apply (picked_killed _ _ Hp)|].
  split; [apply (picked_systems _ _ Hp)|].
  split; [apply (picked_pools _ _ Hp)|done].
Qed.

(** ** Killing *)

Lemma HasComponent_zero r (entity : Entity) (componentId : Z) :
  entityComponentSignatures r !! signature_index (GetId entity) = Some 0 →
  0 ≤ componentId < MAX_COMPONENTS →
  HasComponent entity componentId r = Ret false r [].
Proof.
  intros Hsig Hc. apply HasComponent_Ret. exists 0.
  rewrite to_size_t_id by (unfold MAX_COMPONENTS in Hc; lia).
  by rewrite Z.bits_0.
Qed.

(** What [Update] does to an entity staged for killing. *)
Lemma Update_result_killed r (entity : Entity) :
  wf r → entity ∈ entitiesToBeKilled r →
  (GetId entity ∉ activeEntityIds (Update_result r)) ∧
  GetId entity ∈ freeIds (Update_result r) ∧
  (∀ (T : type_index) s,
     systems (Update_result r) !! T = Some s → entity ∉ entities s) ∧
  entityComponentSignatures (Update_result r) !! signature_index (GetId entity) = Some 0.
Proof.
  intros Hwf Hin.
  assert (entity ∈ set_iter_entity (entitiesToBeKilled r)) as Hgone
    by by apply elem_of_set_iter_entity.
  assert (GetId entity ∈ GetId <$> set_iter_entity (entitiesToBeKilled r)) as Hid
    by (apply list_elem_of_fmap; by exists entity).
  unfold Update_result. simpl. split; [|split; [|split]].
  - rewrite elem_of_difference, elem_of_list_to_set. tauto.
  - apply elem_of_app. by right.
  - intros T s Hs. rewrite !lookup_fmap in Hs.
    destruct (systems r !! T) as [s0|]; [|done]. simpl in Hs. injection Hs as <-.
    rewrite elem_of_System_without. tauto.
  - apply reset_signatures_lookup.
    + rewrite <- list_fmap_compose. apply list_elem_of_fmap. by exists entity.
    + destruct (wf_signature_index r (GetId entity) Hwf (wf_killed _ Hwf _ Hin))
        as [_ Hsome]. by apply lookup_lt_is_Some.
Qed.

(** X8. Killing an active entity and then running [Update] retires it:
    both calls return silently; afterwards its id is no longer active and
    has been appended to the free queue (behind the ids already waiting,
    in ascending order with the other entities killed in the same frame),
    no system lists it, [HasComponent] answers [false] for every component
    type, both staging sets are empty, and a further [KillEntity] only
    prints the diagnostic. *)
Theorem KillEntity_Update_retires r (entity : Entity) :
  reachable value_init r →
  GetId entity ∈ activeEntityIds r →
  ∃ r1 r2,
    KillEntity entity r = Ret tt r1 [] ∧
    Update r1 = Ret tt r2 [] ∧
    (GetId entity ∉ activeEntityIds r2) ∧
    freeIds r2 =
      freeIds r ++ (GetId <$> set_iter_entity ({[entity]} ∪ entitiesToBeKilled r)) ∧
    (∀ (TSystem : type_index) (system : System),
       systems r2 !! TSystem = Some system → entity ∉ GetSystemEntities system) ∧
    (∀ componentId, 0 ≤ componentId < MAX_COMPONENTS →
       HasComponent entity componentId r2 = Ret false r2 []) ∧
    entitiesToBeAdded r2 = ∅ ∧
    entitiesToBeKilled r2 = ∅ ∧
    KillEntity entity r2 = Ret tt r2 [CerrKillNonExistent (GetId entity)].
Proof.
  intros Hwf%reachable_wf Hact.
  pose proof (KillEntity_active r entity Hwf Hact) as Hkill.
  pose proof (KillEntity_wf _ _ _ _ Hkill Hwf) as Hwf1.
  eexists _, _. split; [exact Hkill|]. split; [by apply Update_wf|].
  match goal with |- context [Update_result ?x] => set (r1 := x) in * end.
  assert (entity ∈ entitiesToBeKilled r1) as Hin by (simpl; set_solver).
  destruct (Update_result_killed r1 entity Hwf1 Hin) as (Hna & _ & Hsys & Hsig).
  split; [done|]. split; [done|]. split; [done|].
  split; [intros c Hc; by apply HasComponent_zero|].
  split; [done|]. split; [done|].
  rewrite KillEntity_exact. by rewrite decide_True.
Qed.

(** X9. [KillEntity] twice in a row on an active entity: the second call
    returns silently and changes nothing. *)
Theorem KillEntity_idempotent r (entity : Entity) :
  reachable value_init r →
  GetId entity ∈ activeEntityIds r →
  ∃ r1,
    KillEntity entity r = Ret tt r1 [] ∧
    KillEntity entity r1 = Ret tt r1 [].
Proof.
  intros Hwf%reachable_wf Hact.
  pose proof (KillEntity_active r entity Hwf Hact) as Hkill.
  pose proof (KillEntity_wf _ _ _ _ Hkill Hwf) as Hwf1.
  eexists. split; [exact Hkill|].
  rewrite (KillEntity_active _ entity Hwf1) by done. simpl. f_equal. f_equal.
  - by rewrite list_insert_insert_eq.
  - rewrite <- map_fmap_compose. apply map_fmap_ext. intros T s _.
    unfold RemoveEntityFromSystem. simpl. f_equal.
    rewrite list_filter_filter. apply list_filter_iff. tauto.
  - set_solver.
Qed.

(** ** Clearing *)

(** X10. [ClearAllEntities] on a reachable registry returns after its one
    console line. Afterwards no id is active; the ids that were active have
    been appended to the free queue in ascending order, none twice; no
    system lists an entity that was active, and [HasComponent] answers
    [false] for it. The counter, the pools and both staging sets are left
    as they were: what was staged for adding or killing stays staged. *)
Theorem ClearAllEntities_effect r :
  reachable value_init r →
  ∃ r' ids,
    ClearAllEntities r = Ret tt r' [CoutFreeingAll] ∧
    activeEntityIds r' = ∅ ∧
    freeIds r' = freeIds r ++ ids ∧
    Sorted Z.le ids ∧ NoDup ids ∧ (∀ x, x ∈ ids ↔ x ∈ activeEntityIds r) ∧
    (∀ x, x ∈ activeEntityIds r →
       (∀ (TSystem : type_index) (system : System),
          systems r' !! TSystem = Some system →
          mkEntity x ∉ GetSystemEntities system) ∧
       (∀ componentId, 0 ≤ componentId < MAX_COMPONENTS →
          HasComponent (mkEntity x) componentId r' = Ret false r' [])) ∧
    numEntity r' = numEntity r ∧
    componentsPools r' = componentsPools r ∧
    entitiesToBeAdded r' = entitiesToBeAdded r ∧
    entitiesToBeKilled r' = entitiesToBeKilled r.
Proof.
  intros Hwf%reachable_wf.
  exists (ClearAllEntities_result r), (set_iter_int (activeEntityIds r)).
  split; [by apply ClearAllEntities_wf|]. split; [done|]. split; [done|].
  split; [apply set_iter_int_sorted|]. split; [apply NoDup_set_iter_int|].
  split; [apply elem_of_set_iter_int|].
  split; [|done]. intros x Hx.
  assert (x ∈ set_iter_int (activeEntityIds r)) as Hin by by apply elem_of_set_iter_int.
  split.
  - intros T s Hs. simpl in Hs. rewrite lookup_fmap in Hs.
    destruct (systems r !! T) as [s0|]; [|done]. simpl in Hs. injection Hs as <-.
    unfold GetSystemEntities. rewrite elem_of_System_without.
    intros [Hnot _]. apply Hnot. apply list_elem_of_fmap. by exists x.
  - intros c Hc. apply HasComponent_zero; [|done]. simpl.
    apply reset_signatures_lookup.
    + apply list_elem_of_fmap. by exists x.
    + destruct (wf_signature_index r x Hwf (wf_active _ Hwf _ Hx)) as [_ Hsome].
      by apply lookup_lt_is_Some.
Qed.

(** ** What every reachable registry satisfies *)

(** X11. Whatever calls have returned since construction, the counter
    [numEntity] is a non-negative [int], the signature table has an entry
    for every id below it, and every id the registry holds (active, in the
    free queue, or of an entity staged for adding or killing) lies in
    [0, numEntity). *)
Theorem reachable_ids_below_counter r :
  reachable value_init r →
  0 ≤ numEntity r ≤ INT_MAX ∧
  (∀ x, 0 ≤ x < numEntity r →
     is_Some (entityComponentSignatures r !! Z.to_nat x)) ∧
  (∀ x, x ∈ activeEntityIds r → 0 ≤ x < numEntity r) ∧
  (∀ x, x ∈ freeIds r → 0 ≤ x < numEntity r) ∧
  (∀ entity, entity ∈ entitiesToBeAdded r → 0 ≤ GetId entity < numEntity r) ∧
  (∀ entity, entity ∈ entitiesToBeKilled r → 0 ≤ GetId entity < numEntity r).
Proof.
  intros Hwf%reachable_wf. split; [apply (wf_numEntity _ Hwf)|].
  split.
  - intros x Hx. apply lookup_lt_is_Some.
    pose proof (wf_signatures _ Hwf). lia.
  - split; [apply (wf_active _ Hwf)|]. split; [apply (wf_free _ Hwf)|].
    split; [apply (wf_added _ Hwf)|apply (wf_killed _ Hwf)].
Qed.

(** ** Invariants of the histories without [ClearAllEntities] *)

Lemma System_construct_from_entities (required : list Z) (s s' : System) :
  System_construct_from required s = Ok s' → entities s' = entities s.
Proof.
  revert s. induction required as [|c rest IH]; intros s; simpl.
  - by intros [= ->].
  - unfold RequireComponent.
    destruct (bitset_set (to_size_t c) true (componentSignature s)) as [sig|];
      [|done].
    simpl. intros H. by apply IH in H.
Qed.

Lemma AddSystem_Ret_systems (TSystem : type_index) (required : list Z) r r' out :
  AddSystem TSystem required r = Ret tt r' out →
  ∃ newSystem,
    System_construct required = Ok newSystem ∧ entities newSystem = [] ∧
    r' = set_systems
           (if systems r !! TSystem is Some _ then systems r
            else <[TSystem := newSystem]> (systems r)) r.
Proof.
  unfold AddSystem. intros H.
  inv_bind H newSystem r1 Hnew. inv_prim Hnew. inv_prim H.
  exists newSystem. split; [done|]. split.
  - by apply System_construct_from_entities in Hnew.
  - destruct (systems r !! TSystem); [by destruct r|done].
Qed.

Lemma settled_Registry_new : settled (Registry_new (TComponent := TComponent)).
Proof. constructor; simpl; intros *; by rewrite ?lookup_empty, ?elem_of_empty. Qed.

Lemma settled_ext r r' :
  systems r' = systems r → activeEntityIds r' = activeEntityIds r →
  entitiesToBeAdded r' = entitiesToBeAdded r →
  entitiesToBeKilled r' = entitiesToBeKilled r →
  settled r → settled r'.
Proof.
  intros Hs Ha Hadd Hk [Hm Hadded Hnd].
  constructor; rewrite ?Hs, ?Ha, ?Hadd, ?Hk; done.
Qed.

Lemma Update_result_settled r : settled r → settled (Update_result r).
Proof.
  intros [Hm Hadded Hnd]. constructor; simpl.
  - intros T s e Hs He. rewrite !lookup_fmap in Hs.
    destruct (systems r !! T) as [s0|] eqn:Hs0; [|done].
    simpl in Hs. injection Hs as <-.
    apply elem_of_System_without in He as [Hgone He].
    split; [|split; apply not_elem_of_empty].
    apply elem_of_difference. split.
    + apply elem_of_System_with in He as [He|[He%elem_of_set_iter_entity _]].
      * by apply (Hm T s0 e Hs0 He).
      * by apply Hadded.
    + rewrite elem_of_list_to_set.
      intros (e1 & Heq & He1)%list_elem_of_fmap. apply Hgone.
      destruct e as [x], e1 as [y]. unfold GetId in Heq. simpl in Heq. by subst.
  - intros e He. by apply elem_of_empty in He.
  - intros T s Hs. rewrite !lookup_fmap in Hs.
    destruct (systems r !! T) as [s0|] eqn:Hs0; [|done].
    simpl in Hs. injection Hs as <-. unfold System_without, System_with. simpl.
    apply NoDup_filter. apply NoDup_app. split; [by eapply Hnd|]. split.
    + intros e He [_ He'%elem_of_set_iter_entity]%list_elem_of_filter.
      by destruct (Hm T s0 e Hs0 He) as (_ & ? & _).
    + apply NoDup_filter, NoDup_set_iter_entity.
Qed.

Lemma step_settled r (c : call) r' :
  step value_init r c r' → c ≠ CallClearAllEntities → settled r → settled r'.
Proof.
  intros [out H] Hc Hset. pose proof Hset as [Hm Hadded Hnd].
  destruct c; simpl in H; try done.
  - inv_bind H e r1 Hcreate. inv_prim H.
    apply CreateEntity_Ret in Hcreate as (r0 & Hp & -> & Hfresh & _).
    destruct Hp as [Ha Hk Hadd Hs _ _ _].
    constructor; simpl; rewrite ?Hs, ?Ha, ?Hadd, ?Hk.
    + intros T s e0 Hs0 He0. destruct (Hm T s e0 Hs0 He0) as (Hact & Hna & Hnk).
      split; [set_solver|]. split; [|done].
      intros [->%elem_of_singleton|?]%elem_of_union; done.
    + intros e0 [->%elem_of_singleton|He0]%elem_of_union; [set_solver|].
      apply elem_of_union. right. by apply Hadded.
    + done.
  - rewrite KillEntity_exact in H. case_decide as Hact; [by inv_prim H|].
    destruct (entityComponentSignatures r !! _); [|done]. inv_prim H.
    constructor; simpl.
    + intros T s e Hs He. rewrite lookup_fmap in Hs.
      destruct (systems r !! T) as [s0|] eqn:Hs0; [|done].
      simpl in Hs. injection Hs as <-. simpl in He.
      apply list_elem_of_filter in He as [Hne He].
      destruct (Hm T s0 e Hs0 He) as (? & ? & ?).
      split; [done|]. split; [done|].
      intros [->%elem_of_singleton|?]%elem_of_union; done.
    + done.
    + intros T s Hs. rewrite lookup_fmap in Hs.
      destruct (systems r !! T) as [s0|] eqn:Hs0; [|done].
      simpl in Hs. injection Hs as <-. simpl. apply NoDup_filter. by eapply Hnd.
  - apply Update_Ret in H as (-> & _). by apply Update_result_settled.
  - apply AddComponent_Ret in H as (_ & _ & Hs & Hadd & Hk & _ & Ha & _).
    by eapply settled_ext.
  - apply RemoveComponent_Ret in H as (_ & _ & Hs & _ & Hadd & Hk & _ & Ha & _).
    by eapply settled_ext.
  - apply AddSystem_Ret_systems in H as (s1 & _ & Hent & ->).
    constructor; simpl; try done.
    + intros T s e Hs. destruct (systems r !! TSystem) eqn:Hsys; [by eapply Hm|].
      apply lookup_insert_Some in Hs as [[_ <-]|[_ Hs]]; [|by eapply Hm].
      rewrite Hent. by intros ?%elem_of_nil.
    + intros T s Hs. destruct (systems r !! TSystem) eqn:Hsys; [by eapply Hnd|].
      apply lookup_insert_Some in Hs as [[_ <-]|[_ Hs]]; [|by eapply Hnd].
      rewrite Hent. constructor.
  - apply RemoveSystem_Ret in H as (_ & -> & _).
    constructor; simpl; try done.
    + intros T s e [_ Hs]%lookup_delete_Some. by eapply Hm.
    + intros T s [_ Hs]%lookup_delete_Some. by eapply Hnd.
Qed.

Lemma steps_settled r (cs : list call) r' :
  steps value_init r cs r' → CallClearAllEntities ∉ cs → settled r → settled r'.
Proof.
  induction 1 as [|r c r1 cs r2 Hstep _ IH]; [done|].
  intros [Hc Hcs]%not_elem_of_cons Hset.
  apply IH; [done|by eapply step_settled].
Qed.

(** X12. In a registry reached without [ClearAllEntities], the member
    list of every system holds no entity twice, and each member is an
    entity whose id is active and which is staged neither for adding nor
    for killing. *)
Theorem system_members_settled (cs : list call) r (TSystem : type_index) (system : System) :
  steps value_init Registry_new cs r →
  CallClearAllEntities ∉ cs →
  systems r !! TSystem = Some system →
  NoDup (GetSystemEntities system) ∧
  ∀ entity, entity ∈ GetSystemEntities system →
    GetId entity ∈ activeEntityIds r ∧
    (entity ∉ entitiesToBeAdded r) ∧
    (entity ∉ entitiesToBeKilled r).
Proof.
  intros Hsteps Hclear Hsys.
  assert (settled r) as [Hm _ Hnd]
    by (eapply steps_settled; [done|done|apply settled_Registry_new]).
  split; [by eapply Hnd|]. intros e He. by eapply Hm.
Qed.

(** [CreateEntity] on a tidy free queue, when it returns: one pick. *)
Lemma CreateEntity_tidy_Ret r (entity : Entity) r' out :
  wf r → tidy r →
  CreateEntity r = Ret entity r' out →
  ∃ r1,
    CreateEntity_pick r = Ret (GetId entity) r1 [] ∧
    r' = set_activeEntityIds ({[GetId entity]} ∪ activeEntityIds r1)
           (set_entitiesToBeAdded ({[entity]} ∪ entitiesToBeAdded r1) r1).
Proof.
  intros Hwf Htidy H.
  destruct (CreateEntity_pick r) as [id0 r1 out1| |] eqn:Hpick.
  - pose proof (CreateEntity_pick_picked _ _ _ _ Hpick) as Hp.
    pose proof Hpick as Hpick'.
    apply CreateEntity_pick_Ret in Hpick' as (-> & Hcases).
    assert ((id0 ∉ activeEntityIds r1) ∧ (mkEntity id0 ∉ entitiesToBeKilled r1))
      as [Hact Hkill].
    { rewrite (picked_active _ _ Hp), (picked_killed _ _ Hp).
      destruct Hcases as [(rest & Hf & _)|(_ & -> & _)].
      - assert (id0 ∉ activeEntityIds r) as Hact.
        { apply (tidy_free _ Htidy). rewrite Hf. apply elem_of_cons. by left. }
        split; [done|]. intros Hin. by apply (tidy_killed _ Htidy) in Hin.
      - split.
        + intros Hin%(wf_active _ Hwf). lia.
        + intros Hin%(wf_killed _ Hwf). unfold GetId in Hin. simpl in Hin. lia. }
    rewrite (CreateEntity_first_pick r id0 r1 Hpick Hact Hkill) in H.
    apply Ret_inj in H as (<- & <- & _). by exists r1.
  - unfold CreateEntity, CreateEntity_bound in H.
    rewrite Nat.add_comm in H. cbn [Nat.add CreateEntity_fuel] in H.
    unfold mbind, M_bind in H. by rewrite Hpick in H.
  - unfold CreateEntity, CreateEntity_bound in H.
    rewrite Nat.add_comm in H. cbn [Nat.add CreateEntity_fuel] in H.
    unfold mbind, M_bind in H. by rewrite Hpick in H.
Qed.

Lemma conserved_Registry_new : conserved (Registry_new (TComponent := TComponent)).
Proof. intros x. simpl. lia. Qed.

Lemma step_conserved r (c : call) r' :
  step value_init r c r' → c ≠ CallClearAllEntities →
  wf r → tidy r → conserved r → conserved r'.
Proof.
  intros [out H] Hc Hwf Htidy Hcons.
  destruct c; simpl in H; try done.
  - inv_bind H e r1 Hcreate. inv_prim H.
    apply (CreateEntity_tidy_Ret _ _ _ _ Hwf Htidy) in Hcreate as (r0 & Hpick & ->).
    pose proof (CreateEntity_pick_picked _ _ _ _ Hpick) as Hp.
    apply CreateEntity_pick_Ret in Hpick as (_ & [(rest & Hf & ->)|Hcount]).
    + intros y Hy. simpl in *. destruct (Hcons y Hy) as [Hin|Hin]; [set_solver|].
      rewrite Hf in Hin. apply elem_of_cons in Hin as [->|Hin]; [set_solver|by right].
    + destruct Hcount as (Hf & Hid & _ & sigs & -> & _).
      intros y Hy. simpl in *. left.
      destruct (decide (y = numEntity r)) as [->|Hne]; [set_solver|].
      destruct (Hcons y) as [Hin|Hin]; [lia|set_solver|].
      rewrite Hf in Hin. by apply elem_of_nil in Hin.
  - rewrite KillEntity_exact in H. case_decide as Hact; [by inv_prim H|].
    destruct (entityComponentSignatures r !! _); [|done]. by inv_prim H.
  - apply Update_Ret in H as (-> & _). intros x Hx. simpl in *.
    destruct (Hcons x Hx) as [Hin|Hin].
    + destruct (decide (x ∈ GetId <$> set_iter_entity (entitiesToBeKilled r)))
        as [Hgone|Hstay].
      * right. apply elem_of_app. by right.
      * left. apply elem_of_difference. split; [done|].
        by rewrite elem_of_list_to_set.
    + right. apply elem_of_app. by left.
  - apply AddComponent_Ret in H as (_ & Hn & _ & _ & _ & Hf & Ha & _).
    intros x. rewrite Hn, Hf, Ha. apply Hcons.
  - apply RemoveComponent_Ret in H as (_ & Hn & _ & _ & _ & _ & Hf & Ha & _).
    intros x. rewrite Hn, Hf, Ha. apply Hcons.
  - by apply AddSystem_Ret in H as (_ & m & ->).
  - by apply RemoveSystem_Ret in H as (_ & -> & _).
Qed.

Lemma steps_conserved r (cs : list call) r' :
  steps value_init r cs r' → CallClearAllEntities ∉ cs →
  wf r → tidy r → conserved r → conserved r'.
Proof.
  induction 1 as [|r c r1 cs r2 Hstep _ IH]; [done|].
  intros [Hc Hcs]%not_elem_of_cons Hwf Htidy Hcons.
  apply IH; [done|by eapply step_wf|by eapply step_tidy|by eapply step_conserved].
Qed.

(** X13. In a registry reached without [ClearAllEntities] no id is ever
    lost or invented: the ids that are active or waiting in the free queue
    are exactly the ids below the counter, [0, numEntity). *)
Theorem ids_conserved (cs : list call) r (x : Z) :
  steps value_init Registry_new cs r →
  CallClearAllEntities ∉ cs →
  0 ≤ x < numEntity r ↔ x ∈ activeEntityIds r ∨ x ∈ freeIds r.
Proof.
  intros Hsteps Hclear.
  assert (wf r) as Hwf by (apply reachable_wf; by exists cs).
  split.
  - revert x. change (conserved r).
    eapply steps_conserved; [done|done|apply wf_Registry_new|
                             apply tidy_Registry_new|apply conserved_Registry_new].
  - intros [Hin|Hin]; [by apply (wf_active _ Hwf)|by apply (wf_free _ Hwf)].
Qed.

(** ** [Update] with nothing staged *)

Lemma set_iter_entity_empty : set_iter_entity ∅ = [].
Proof. unfold set_iter_entity. by rewrite elements_empty. Qed.

Lemma Update_result_idle r :
  entitiesToBeAdded r = ∅ → entitiesToBeKilled r = ∅ → Update_result r = r.
Proof.
  intros Hadd Hkill. unfold Update_result.
  rewrite Hadd, Hkill, set_iter_entity_empty. simpl.
  rewrite System_without_nil_map, app_nil_r, difference_empty_L.
  rewrite (map_fmap_ext _ id), map_fmap_id
    by (intros T s _; apply System_with_nil).
  rewrite <- Hadd at 1. rewrite <- Hkill at 1. apply registry_eta.
Qed.

(** X14. [Update] on a reachable registry returns silently and leaves
    both staging sets empty, the counter and the pools as they were; a
    second [Update] right after it changes nothing. More generally an
    [Update] with nothing staged is the identity. *)
Theorem Update_idempotent r :
  reachable value_init r →
  ∃ r1,
    Update r = Ret tt r1 [] ∧
    entitiesToBeAdded r1 = ∅ ∧ entitiesToBeKilled r1 = ∅ ∧
    numEntity r1 = numEntity r ∧ componentsPools r1 = componentsPools r ∧
    Update r1 = Ret tt r1 [] ∧
    (entitiesToBeAdded r = ∅ → entitiesToBeKilled r = ∅ → r1 = r).
Proof.
  intros Hwf%reachable_wf. exists (Update_result r).
  split; [by apply Update_wf|]. do 4 (split; [done|]). split.
  - rewrite Update_wf by by apply Update_result_wf.
    by rewrite (Update_result_idle (Update_result r)).
  - apply Update_result_idle.
Qed.

(** ** Reading a component that was never added *)

Lemma GetComponent_no_pool r (entity : Entity) (componentId : Z) :
  (∀ p, componentsPools r !! Z.to_nat (to_size_t componentId) ≠ Some (Some p)) →
  GetComponent entity componentId r = Fault UndefinedBehaviour.
Proof.
  intros Hnone. unfold GetComponent.
  rewrite (bind_run _ _ r r r) by done.
  unfold mbind, M_bind, lift, vector_at.
  rewrite decide_True by apply to_size_t_nonneg.
  destruct (componentsPools r !! Z.to_nat (to_size_t componentId)) as [[p|]|] eqn:Hp;
    [by destruct (Hnone p)|done|done].
Qed.

(** A pool is only ever created by an [AddComponent] of its type. *)
Lemma step_pools_origin r (c : call) r' (i : nat) (p : Pool.Pool) :
  step value_init r c r' →
  componentsPools r' !! i = Some (Some p) →
  (∃ p0, componentsPools r !! i = Some (Some p0)) ∨
  (∃ e componentId v, c = CallAddComponent e componentId v ∧
                      Z.to_nat (to_size_t componentId) = i).
Proof.
  intros [out H] Hi. destruct c; simpl in H.
  - inv_bind H e r1 Hcreate. inv_prim H.
    apply CreateEntity_Ret in Hcreate as (r0 & Hp & -> & _).
    simpl in Hi. rewrite (picked_pools _ _ Hp) in Hi. left. by exists p.
  - rewrite KillEntity_exact in H. left. exists p.
    case_decide; [by inv_prim H|].
    destruct (entityComponentSignatures r !! _); [|done]. by inv_prim H.
  - apply Update_Ret in H as (-> & _). left. by exists p.
  - apply ClearAllEntities_Ret in H as (-> & _). left. by exists p.
  - apply AddComponent_Ret_iff in H
      as (pools1 & slot & pool0 & pool1 & pool2 & pools2 & sig & sig' &
          Hp1 & _ & _ & _ & _ & Hstore & _ & _ & -> & _).
    apply vector_set_Ok in Hstore as [_ ->]. simpl in Hi.
    destruct (decide (i = Z.to_nat (to_size_t componentId))) as [->|Hne];
      [right; by eexists _, _, _|].
    rewrite list_lookup_insert_ne in Hi by done. left. exists p.
    destruct (decide (Z.of_nat (length (componentsPools r)) ≤ to_size_t componentId)).
    + destruct Hp1 as (n & _ & Hres).
      by destruct (vector_resize_lookup _ _ _ _ _ _ Hres Hi).
    + by subst pools1.
  - apply RemoveComponent_Ret in H as (_ & _ & _ & Hpools & _).
    rewrite Hpools in Hi. left. by exists p.
  - apply AddSystem_Ret in H as (_ & m & ->). left. by exists p.
  - apply RemoveSystem_Ret in H as (_ & -> & _). left. by exists p.
Qed.

Lemma steps_pools_origin r (cs : list call) r' (i : nat) (p : Pool.Pool) :
  steps value_init r cs r' →
  componentsPools r' !! i = Some (Some p) →
  (∃ p0, componentsPools r !! i = Some (Some p0)) ∨
  (∃ e componentId v, CallAddComponent e componentId v ∈ cs ∧
                      Z.to_nat (to_size_t componentId) = i).
Proof.
  intros Hsteps. revert p.
  induction Hsteps as [|r c r1 cs r2 Hstep _ IH]; intros p Hi.
  - left. by exists p.
  - destruct (IH p Hi) as [[p1 Hp1]|(e & c0 & v & Hin & Hc0)].
    + destruct (step_pools_origin _ _ _ _ _ Hstep Hp1) as [?|(e & c0 & v & -> & Hc0)];
        [by left|].
      right. exists e, c0, v. split; [apply elem_of_cons; by left|done].
    + right. exists e, c0, v. split; [apply elem_of_cons; by right|done].
Qed.

(** X28. [GetComponent<T>] does not check that the component exists.
    When no [AddComponent<T>] has returned since construction, for any
    entity at all, there is no pool for [T] and [GetComponent<T>] is
    undefined behaviour: a subscript past the end of the pool table, or a
    null pool pointer dereferenced. *)
Theorem GetComponent_never_added (cs : list call) r (entity : Entity) (componentId : Z) :
  steps value_init Registry_new cs r →
  (∀ e c v, CallAddComponent e c v ∈ cs → to_size_t c ≠ to_size_t componentId) →
  GetComponent entity componentId r = Fault UndefinedBehaviour.
Proof.
  intros Hsteps Hnever. apply GetComponent_no_pool. intros p Hp.
  destruct (steps_pools_origin _ _ _ _ _ Hsteps Hp) as [[p0 Hp0]|(e & c & v & Hin & Hc)].
  - simpl in Hp0. by destruct (Z.to_nat (to_size_t componentId)).
  - apply (Hnever e c v Hin).
    pose proof (to_size_t_nonneg c). pose proof (to_size_t_nonneg componentId). lia.
Qed.

Lemma reachable_run (cs : list call) r out :
  run_calls value_init cs Registry_new = Ret tt r out → reachable value_init r.
Proof. intros H. exists cs. by eapply run_calls_steps. Qed.

End RegistryProperties.

(** * Pool.hpp: access *)

Section PoolAccess.
Context {TComponent : Type} (value_init : TComponent).
Implicit Types p : Pool.Pool (TComponent := TComponent).

(** X15. [Set(index, object)] at an index below the size stores the
    object: [Get(index)] then returns it, [Get] at every other index
    returns what it returned before, and the size is unchanged. *)
Theorem Pool_Set_Get p (index : Z) (object : TComponent) :
  0 ≤ index < Z.of_nat (length (Pool.data p)) →
  ∃ p',
    Pool.Set_ index object p = Ok p' ∧
    Pool.Get index p' = Ok object ∧
    (∀ j, j ≠ index → Pool.Get j p' = Pool.Get j p) ∧
    Pool.GetSize p' = Pool.GetSize p.
Proof.
  intros Hi. exists (Pool.mkPool (<[Z.to_nat index := object]> (Pool.data p))).
  split; [|split; [|split]].
  - unfold Pool.Set_, vector_set. by rewrite decide_True.
  - apply vector_at_Ok. split; [lia|]. simpl.
    apply list_lookup_insert_eq. lia.
  - intros j Hj. unfold Pool.Get, vector_at. simpl.
    destruct (decide (0 ≤ j)); [|done].
    rewrite list_lookup_insert_ne by lia. done.
  - unfold Pool.GetSize. simpl. by rewrite length_insert.
Qed.

(** X16. The pool checks nothing itself. [Set] and [Get] at an index
    that is not below the size are undefined behaviour (a subscript past
    the end of the vector), and a negative size, given to the constructor
    or to [Resize], is converted to a [size_t] beyond [max_size()]:
    [std::length_error] is thrown. *)
Theorem Pool_misuse p (index : Z) (object : TComponent) (n : Z) :
  ¬ (0 ≤ index < Z.of_nat (length (Pool.data p))) →
  INT_MIN ≤ n < 0 →
  Pool.Set_ index object p = Err UndefinedBehaviour ∧
  Pool.Get index p = Err UndefinedBehaviour ∧
  Pool.new value_init n = Err LengthError ∧
  Pool.Resize value_init n p = Err LengthError.
Proof.
  intros Hi Hn.
  assert (vector_max_size < to_size_t n) as Hbig.
  { unfold to_size_t, vector_max_size, INT_MIN in *.
    assert (n mod 2 ^ 64 = n + 2 ^ 64) as ->; [|lia].
    symmetry. apply (Z.mod_unique_pos _ _ (-1)); lia. }
  split; [|split; [|split]].
  - unfold Pool.Set_, vector_set. by rewrite decide_False.
  - unfold Pool.Get, vector_at. destruct (decide (0 ≤ index)); [|done].
    rewrite lookup_ge_None_2; [done|lia].
  - unfold Pool.new, vector_resize. by rewrite decide_True.
  - unfold Pool.Resize, vector_resize. by rewrite decide_True.
Qed.

(** X17. [Pool(size)] with a non-negative size builds a pool of that
    size whose every slot holds the value-initialised component; it is
    empty exactly when the size is zero. *)
Theorem Pool_new_spec (size : Z) :
  0 ≤ size ≤ INT_MAX →
  ∃ p,
    Pool.new value_init size = Ok p ∧
    Pool.GetSize p = size ∧
    Pool.IsEmpty p = bool_decide (size = 0) ∧
    (∀ i, 0 ≤ i < size → Pool.Get i p = Ok value_init) ∧
    (∀ i, size ≤ i → Pool.Get i p = Err UndefinedBehaviour).
Proof.
  intros Hs. exists (Pool.mkPool (replicate (Z.to_nat size) value_init)).
  assert (to_size_t size = size) as Hsize
    by (apply to_size_t_id; unfold INT_MAX in *; lia).
  split; [|split; [|split; [|split]]].
  - unfold Pool.new, vector_resize. rewrite Hsize.
    rewrite decide_False by (unfold vector_max_size, INT_MAX in *; lia).
    simpl. destruct (decide (size ≤ Z.of_nat 0)) as [Hz|Hz]; simpl.
    + assert (size = 0) as -> by lia. done.
    + by rewrite Nat.sub_0_r.
  - unfold Pool.GetSize. simpl. rewrite length_replicate.
    rewrite to_int_id by (unfold INT_MIN, INT_MAX in *; lia). lia.
  - unfold Pool.IsEmpty. simpl. apply bool_decide_ext. split.
    + intros H. apply (f_equal length) in H. rewrite length_replicate in H.
      simpl in H. lia.
    + by intros ->.
  - intros i Hi. apply vector_at_Ok. split; [lia|]. simpl.
    apply lookup_replicate_2. lia.
  - intros i Hi. unfold Pool.Get, vector_at. simpl.
    rewrite decide_True by lia.
    rewrite lookup_ge_None_2; [done|]. rewrite length_replicate. lia.
Qed.

(** X18. [Add(object)] on a pool short of [INT_MAX] elements appends:
    the size grows by one, the object is read back at the old size, the
    earlier slots read as before and the pool is not empty. [Clear()]
    leaves an empty pool of size zero, whatever it held. *)
Theorem Pool_Add_Clear p (object : TComponent) :
  Z.of_nat (length (Pool.data p)) < INT_MAX →
  Pool.GetSize (Pool.Add object p) = Pool.GetSize p + 1 ∧
  Pool.Get (Pool.GetSize p) (Pool.Add object p) = Ok object ∧
  (∀ i, 0 ≤ i < Pool.GetSize p →
        Pool.Get i (Pool.Add object p) = Pool.Get i p) ∧
  Pool.IsEmpty (Pool.Add object p) = false ∧
  Pool.IsEmpty (Pool.Clear (Pool.Add object p)) = true ∧
  Pool.GetSize (Pool.Clear (Pool.Add object p)) = 0.
Proof.
  intros Hlen.
  assert (Pool.GetSize p = Z.of_nat (length (Pool.data p))) as Hsize.
  { unfold Pool.GetSize. apply to_int_id. unfold INT_MIN, INT_MAX in *. lia. }
  split; [|split; [|split; [|split; [|split]]]].
  - rewrite Hsize. unfold Pool.GetSize, Pool.Add. simpl.
    rewrite length_app. simpl.
    rewrite to_int_id by (unfold INT_MIN, INT_MAX in *; lia). lia.
  - rewrite Hsize. apply vector_at_Ok. split; [lia|]. simpl.
    rewrite Nat2Z.id. rewrite lookup_app_r by done.
    by rewrite Nat.sub_diag.
  - rewrite Hsize. intros i Hi. unfold Pool.Get, vector_at. simpl.
    rewrite !decide_True by lia. rewrite lookup_app_l by lia. done.
  - unfold Pool.IsEmpty, Pool.Add. simpl. apply bool_decide_eq_false_2.
    by destruct (Pool.data p).
  - done.
  - done.
Qed.

End PoolAccess.

(** * EventManager.hpp *)

Section EventsProperties.
Context {Event World : Type}.
Implicit Types em : Events.EventManager (Event := Event) (World := World).
Implicit Types h : Events.IEventCallback (Event := Event) (World := World).

Lemma EmitEvent_world (T : type_index) (ev : Event) em (w : World) :
  (Events.EmitEvent T ev em w).2 =
  foldl (λ world handler, handler ev world) w (Events.handlers_of T em).
Proof.
  unfold Events.EmitEvent, Events.handlers_of, Events.handlers_at, Events.subscript.
  destruct (Events.subscribers em !! T) as [[hs|]|] eqn:Hm; simpl.
  - by rewrite Hm.
  - by rewrite Hm.
  - by rewrite lookup_insert_eq.
Qed.

Lemma EmitEvent_handlers (T T' : type_index) (ev : Event) em (w : World) :
  Events.handlers_of T' (Events.EmitEvent T ev em w).1 = Events.handlers_of T' em.
Proof.
  unfold Events.EmitEvent, Events.handlers_of, Events.handlers_at, Events.subscript.
  destruct (Events.subscribers em !! T) as [[hs|]|] eqn:Hm; simpl.
  - by rewrite Hm.
  - by rewrite Hm.
  - rewrite lookup_insert_eq. simpl.
    destruct (decide (T' = T)) as [->|Hne].
    + by rewrite lookup_insert_eq, Hm.
    + by rewrite lookup_insert_ne.
Qed.

Lemma handlers_of_SubscribeToEvent (T T' : type_index) h em :
  Events.handlers_of T' (Events.SubscribeToEvent T h em) =
  if decide (T' = T) then Events.handlers_of T' em ++ [h]
  else Events.handlers_of T' em.
Proof.
  unfold Events.SubscribeToEvent, Events.handlers_of, Events.handlers_at,
    Events.subscript.
  destruct (decide (T' = T)) as [->|Hne].
  - simpl. rewrite lookup_insert_eq. simpl.
    destruct (Events.subscribers em !! T) as [[hs|]|] eqn:Hm; simpl;
      repeat (progress (rewrite ?Hm, ?lookup_insert_eq; simpl)); done.
  - simpl. rewrite lookup_insert_ne by done.
    destruct (Events.subscribers em !! T) as [[hs|]|] eqn:Hm; simpl;
      repeat (progress (rewrite ?Hm, ?lookup_insert_eq; simpl));
      by rewrite ?lookup_insert_ne by done.
Qed.

(** X19. A callback subscribed for an event type is called last when an
    event of that type is emitted, after the callbacks already subscribed,
    and is not called for events of other types. Emitting does not change
    who is subscribed: what a later [EmitEvent] does is the same whether or
    not an event was emitted before. *)
Theorem EmitEvent_after_SubscribeToEvent (T T' : type_index) (ev ev' : Event)
    h em (w w' : World) :
  (Events.EmitEvent T ev (Events.SubscribeToEvent T h em) w).2 =
    h ev (Events.EmitEvent T ev em w).2 ∧
  (T' ≠ T →
   (Events.EmitEvent T' ev (Events.SubscribeToEvent T h em) w).2 =
     (Events.EmitEvent T' ev em w).2) ∧
  (Events.EmitEvent T' ev' (Events.EmitEvent T ev em w).1 w').2 =
    (Events.EmitEvent T' ev' em w').2.
Proof.
  split; [|split].
  - rewrite !EmitEvent_world, handlers_of_SubscribeToEvent.
    rewrite decide_True by done. by rewrite foldl_app.
  - intros Hne. rewrite !EmitEvent_world, handlers_of_SubscribeToEvent.
    by rewrite decide_False.
  - by rewrite !EmitEvent_world, EmitEvent_handlers.
Qed.

Lemma handlers_of_subscribe_all (T : type_index)
    (subs : list (type_index * Events.IEventCallback)) em :
  Events.handlers_of T (Events.subscribe_all subs em) =
  Events.handlers_of T em ++ (filter (λ sub, sub.1 = T) subs).*2.
Proof.
  revert em. induction subs as [|[T0 h0] subs IH]; intros em.
  - simpl. by rewrite app_nil_r.
  - unfold Events.subscribe_all in *. simpl. rewrite IH.
    rewrite handlers_of_SubscribeToEvent, filter_cons. simpl.
    destruct (decide (T = T0)) as [->|Hne].
    + rewrite decide_True by done. simpl. by rewrite <- app_assoc.
    + rewrite decide_False by done. done.
Qed.

(** X20. After [Reset()] nobody is subscribed: an emitted event reaches
    no callback. After [Reset()] and a sequence of [SubscribeToEvent]
    calls, which is how the game prepares every frame, [EmitEvent<T>]
    calls exactly the callbacks subscribed for [T], each once, in the order
    of their subscription. *)
Theorem EmitEvent_subscription_order (T : type_index) (ev : Event)
    (subs : list (type_index * Events.IEventCallback)) em (w : World) :
  (Events.EmitEvent T ev (Events.Reset em) w).2 = w ∧
  (Events.EmitEvent T ev (Events.subscribe_all subs (Events.Reset em)) w).2 =
    foldl (λ world handler, handler ev world) w
          (filter (λ sub, sub.1 = T) subs).*2.
Proof.
  split.
  - by rewrite EmitEvent_world.
  - rewrite EmitEvent_world, handlers_of_subscribe_all. done.
Qed.

End EventsProperties.

(** * AnimationSystem.hpp *)

Section AnimationProperties.
Import Animation.


(** The elapsed time while the clock has not wrapped. *)
Lemma Update_entity_elapsed (ticks : Z) (animation : AnimationComponent) :
  0 ≤ startTime animation ≤ ticks → ticks < 2 ^ 32 →
  ticks - startTime animation ≤ INT_MAX →
  to_int ((ticks - to_unsigned (startTime animation)) mod 2 ^ 32) =
    ticks - startTime animation.
Proof.
  intros Hstart Hticks Hel.
  rewrite to_unsigned_id by lia. rewrite Z.mod_small by lia.
  apply to_int_id. unfold INT_MIN. lia.
Qed.

(** X21. A looping animation with at least one frame, while the clock
    has not wrapped and neither product leaves the [int] range, whatever
    the signs of [frameSpeedRate] and of the sprite width: [Update] sets
    [currentFrame] to the remainder by [numFrames] of the elapsed
    milliseconds times [frameSpeedRate] over 1000, quotient and remainder
    truncating as in C++. That frame lies strictly between [-numFrames]
    and [numFrames]; with a [frameSpeedRate] that is not negative it is the
    quotient modulo [numFrames], a frame in [0, numFrames), and with one
    that is not positive it is zero or negative. The source rectangle
    starts at the frame times the sprite width; nothing else of the two
    components changes. *)
Theorem Update_entity_loop (ticks : Z) (animation : AnimationComponent)
    (sprite : SpriteComponent) :
  isLoop animation = true →
  0 < numFrames animation →
  0 ≤ startTime animation ≤ ticks → ticks < 2 ^ 32 →
  ticks - startTime animation ≤ INT_MAX →
  INT_MIN ≤ (ticks - startTime animation) * frameSpeedRate animation ≤ INT_MAX →
  let frame :=
    Z.rem (Z.quot ((ticks - startTime animation) * frameSpeedRate animation) 1000)
          (numFrames animation) in
  INT_MIN ≤ frame * width sprite ≤ INT_MAX →
  - numFrames animation < frame < numFrames animation ∧
  (0 ≤ frameSpeedRate animation →
   0 ≤ frame < numFrames animation ∧
   frame =
     ((ticks - startTime animation) * frameSpeedRate animation / 1000)
       mod numFrames animation) ∧
  (frameSpeedRate animation ≤ 0 → - numFrames animation < frame ≤ 0) ∧
  Update_entity ticks animation sprite =
    Ok (mkAnimationComponent (numFrames animation) frame (frameSpeedRate animation)
          (isLoop animation) (startTime animation),
        mkSpriteComponent (textureId sprite) (width sprite) (height sprite)
          (mkSDL_Rect (frame * width sprite) (y (srcRect sprite))
             (w (srcRect sprite)) (h (srcRect sprite)))
          (flip sprite)).
Proof.
  intros Hloop Hframes Hstart Hticks Hel Hmul frame Hsrc.
  pose proof (Update_entity_elapsed ticks animation Hstart Hticks Hel) as Helapsed.
  split; [|split; [|split]].
  - pose proof (Z.rem_bound_abs
                  (Z.quot ((ticks - startTime animation) * frameSpeedRate animation) 1000)
                  (numFrames animation)) as Habs.
    fold frame in Habs. lia.
  - intros Hrate.
    assert (0 ≤ (ticks - startTime animation) * frameSpeedRate animation) as Hpos
      by (apply Z.mul_nonneg_nonneg; lia).
    assert (0 ≤ Z.quot ((ticks - startTime animation) * frameSpeedRate animation) 1000)
      as Hq by (apply Z.quot_pos; lia).
    split.
    + apply Z.rem_bound_pos; lia.
    + unfold frame. rewrite Z.rem_mod_nonneg by lia.
      by rewrite Z.quot_div_nonneg by lia.
  - intros Hrate.
    assert ((ticks - startTime animation) * frameSpeedRate animation ≤ 0) as Hneg
      by (apply Z.mul_nonneg_nonpos; lia).
    assert (Z.quot ((ticks - startTime animation) * frameSpeedRate animation) 1000 ≤ 0)
      as Hq.
    { pose proof (Z.quot_opp_l
                    ((ticks - startTime animation) * frameSpeedRate animation) 1000)
        as Hopp.
      pose proof (Z.quot_pos
                    (- ((ticks - startTime animation) * frameSpeedRate animation)) 1000)
        as Hp.
      lia. }
    apply Z.rem_bound_pos_neg; lia.
  - unfold Update_entity. rewrite Helapsed.
    unfold int_mul at 1. rewrite decide_True by done. simpl. rewrite Hloop.
    unfold int_rem. rewrite decide_False by lia.
    rewrite decide_False by lia. simpl. fold frame.
    unfold int_mul. by rewrite decide_True.
Qed.


(** X23. A looping animation with no frame at all: [Update] is undefined
    behaviour whatever the clock says, the frame index being taken modulo
    zero (when the product before it has not already overflowed). *)
Theorem Update_entity_loop_no_frames (ticks : Z) (animation : AnimationComponent)
    (sprite : SpriteComponent) :
  isLoop animation = true →
  numFrames animation = 0 →
  Update_entity ticks animation sprite = Err UndefinedBehaviour.
Proof.
  intros Hloop Hzero. unfold Update_entity, int_mul.
  case_decide; [|done]. simpl. rewrite Hloop, Hzero.
  unfold int_rem. by rewrite decide_True.
Qed.

End AnimationProperties.

(** * BoxColliderComponent.hpp *)

Section BoxColliderProperties.
Import BoxCollider.
Context {vec2 : Type}.
Implicit Types b : BoxColliderComponent (vec2 := vec2).

Lemma elem_of_erase_first (tag t : string) (l : list string) :
  NoDup l → t ∈ erase_first tag l ↔ t ≠ tag ∧ t ∈ l.
Proof.
  induction 1 as [|x l Hx Hnd IH]; simpl.
  - split; [by intros ?%elem_of_nil|by intros [_ ?%elem_of_nil]].
  - destruct (decide (x = tag)) as [->|Hne].
    + rewrite elem_of_cons. split; [|naive_solver].
      intros Hin. split; [by intros ->|by right].
    + rewrite !elem_of_cons, IH. naive_solver.
Qed.

Lemma NoDup_erase_first (tag : string) (l : list string) :
  NoDup l → NoDup (erase_first tag l).
Proof.
  induction 1 as [|x l Hx Hnd IH]; simpl; [constructor|].
  destruct (decide (x = tag)); [done|].
  constructor; [|done]. rewrite elem_of_erase_first by done. tauto.
Qed.

Lemma erase_first_snoc (tag : string) (l : list string) :
  tag ∉ l → erase_first tag (l ++ [tag]) = l.
Proof.
  induction l as [|x l IH]; simpl; intros Hnot.
  - by rewrite decide_True.
  - apply not_elem_of_cons in Hnot as [Hne Hnot].
    rewrite decide_False by done. by rewrite IH.
Qed.

Lemma NoDup_AddExclusion (tag : string) b :
  NoDup (excludeCollisionList b) → NoDup (excludeCollisionList (AddExclusion tag b)).
Proof.
  intros Hnd. unfold AddExclusion. case_decide as Hin; [done|]. simpl.
  apply NoDup_app. split; [done|]. split; [|apply NoDup_singleton].
  intros t Ht ->%list_elem_of_singleton. done.
Qed.

Lemma IsExcluded_AddExclusion (tag t : string) b :
  IsExcluded t (AddExclusion tag b) =
  if decide (t = tag) then true else IsExcluded t b.
Proof.
  unfold IsExcluded, AddExclusion.
  destruct (decide (tag ∈ excludeCollisionList b)) as [Hin|Hin]; simpl.
  - destruct (decide (t = tag)) as [->|_]; [by apply bool_decide_eq_true_2|done].
  - destruct (decide (t = tag)) as [->|Hne].
    + apply bool_decide_eq_true_2, elem_of_app. right. apply list_elem_of_singleton. done.
    + apply bool_decide_ext. rewrite elem_of_app, list_elem_of_singleton. tauto.
Qed.

Lemma IsExcluded_RemoveExclusion (tag t : string) b :
  NoDup (excludeCollisionList b) →
  IsExcluded t (RemoveExclusion tag b) =
  if decide (t = tag) then false else IsExcluded t b.
Proof.
  intros Hnd. unfold IsExcluded, RemoveExclusion. simpl.
  destruct (decide (t = tag)) as [->|Hne].
  - apply bool_decide_eq_false_2. rewrite elem_of_erase_first by done. tauto.
  - apply bool_decide_ext. rewrite elem_of_erase_first by done. tauto.
Qed.

(** X24. On an exclusion list without repetition, [AddExclusion(tag)]
    makes [IsExcluded(tag)] true and [RemoveExclusion(tag)] makes it
    false; neither changes the answer for any other tag, and neither
    introduces a repetition. Removing a tag right after adding it to a
    component that did not exclude it gives back the component as it was,
    and adding a tag that is already excluded changes nothing. *)
Theorem exclusion_round_trip (tag : string) b :
  NoDup (excludeCollisionList b) →
  IsExcluded tag (AddExclusion tag b) = true ∧
  IsExcluded tag (RemoveExclusion tag b) = false ∧
  (∀ t, t ≠ tag →
     IsExcluded t (AddExclusion tag b) = IsExcluded t b ∧
     IsExcluded t (RemoveExclusion tag b) = IsExcluded t b) ∧
  NoDup (excludeCollisionList (AddExclusion tag b)) ∧
  NoDup (excludeCollisionList (RemoveExclusion tag b)) ∧
  (IsExcluded tag b = false → RemoveExclusion tag (AddExclusion tag b) = b) ∧
  (IsExcluded tag b = true → AddExclusion tag b = b).
Proof.
  intros Hnd. split; [|split; [|split; [|split; [|split; [|split]]]]].
  - rewrite IsExcluded_AddExclusion. by rewrite decide_True.
  - rewrite IsExcluded_RemoveExclusion by done. by rewrite decide_True.
  - intros t Hne. rewrite IsExcluded_AddExclusion, IsExcluded_RemoveExclusion by done.
    by rewrite !decide_False.
  - by apply NoDup_AddExclusion.
  - by apply NoDup_erase_first.
  - intros Hnot%bool_decide_eq_false. unfold AddExclusion, RemoveExclusion.
    rewrite decide_False by done. simpl. rewrite erase_first_snoc by done.
    by destruct b.
  - intros Hin%bool_decide_eq_true. unfold AddExclusion. by rewrite decide_True.
Qed.

Lemma IsExcluded_edits (tag : string) (cs : list edit) b :
  NoDup (excludeCollisionList b) →
  IsExcluded tag (foldl run_edit b cs) = last_edit_adds tag (IsExcluded tag b) cs.
Proof.
  revert b. induction cs as [|c cs IH]; intros b Hnd; [done|].
  unfold last_edit_adds in *. simpl. rewrite IH.
  - f_equal. destruct c as [t|t]; simpl.
    + rewrite IsExcluded_AddExclusion.
      destruct (decide (tag = t)) as [->|Hne]; [by rewrite decide_True|].
      by rewrite decide_False by done.
    + rewrite IsExcluded_RemoveExclusion by done.
      destruct (decide (tag = t)) as [->|Hne]; [by rewrite decide_True|].
      by rewrite decide_False by done.
  - destruct c; simpl; [by apply NoDup_AddExclusion|by apply NoDup_erase_first].
Qed.

(** X25. Whatever [AddExclusion] and [RemoveExclusion] calls a freshly
    constructed collider has received, [IsExcluded(tag)] tells whether the
    last of them that named [tag] was an [AddExclusion]; it is [false]
    when none named it. *)
Theorem exclusion_last_edit_wins (tag : string) (cs : list edit)
    (width height : Z) (offset : vec2) :
  IsExcluded tag (foldl run_edit (new width height offset) cs) =
  last_edit_adds tag false cs.
Proof. rewrite IsExcluded_edits; [done|]. simpl. constructor. Qed.

End BoxColliderProperties.

(** * ECS.hpp: the numbering of the component types *)

Section ComponentIdsProperties.
Import ComponentIds.

Lemma numbered_init : numbered init.
Proof. constructor; simpl; [done|..]; intros *; by rewrite lookup_empty. Qed.

Lemma GetId_numbered (T : type_index) (st : state) (id : Z) (st' : state) :
  numbered st → GetId T st = Ok (id, st') →
  numbered st' ∧ ids st ⊆ ids st' ∧ ids st' !! T = Some id.
Proof.
  intros [Hpos Hbelow Hinj]. unfold GetId.
  destruct (ids st !! T) as [id0|] eqn:HT.
  - intros [= <- <-]. done.
  - destruct (int_add (nextId st) 1) as [next|] eqn:Hnext; [|done].
    apply int_add_Ok in Hnext as [-> Hrange]. simpl. intros [= <- <-]. simpl.
    split; [|split].
    + constructor; simpl.
      * lia.
      * intros T0 id0 [[_ <-]|[_ H0]]%lookup_insert_Some; [lia|].
        apply Hbelow in H0. lia.
      * intros T0 T1 id0 [[<- <-]|[Hne0 H0]]%lookup_insert_Some
                         [[<- Heq]|[Hne1 H1]]%lookup_insert_Some; try done.
        -- apply Hbelow in H1. lia.
        -- apply Hbelow in H0. lia.
        -- by eapply Hinj.
    + by apply insert_subseteq.
    + by rewrite lookup_insert_eq.
Qed.

Lemma GetIds_numbered (Ts : list type_index) (st : state) (l : list Z) (st' : state) :
  numbered st → GetIds Ts st = Ok (l, st') →
  numbered st' ∧ ids st ⊆ ids st' ∧
  Forall2 (λ T id, ids st' !! T = Some id) Ts l.
Proof.
  revert st l. induction Ts as [|T Ts IH]; intros st l Hnum; simpl.
  - intros [= <- <-]. done.
  - destruct (GetId T st) as [[id st1]|] eqn:Hid; [|done]. simpl.
    destruct (GetIds Ts st1) as [[l1 st2]|] eqn:Hrest; [|done]. simpl.
    intros [= <- <-].
    destruct (GetId_numbered _ _ _ _ Hnum Hid) as (Hnum1 & Hsub1 & HT).
    destruct (IH _ _ Hnum1 Hrest) as (Hnum2 & Hsub2 & Hall).
    split; [done|]. split; [by etrans|].
    constructor; [|done]. by eapply lookup_weaken.
Qed.

(** X26. Whatever sequence of [Component<T>::GetId()] calls the process
    has made, repeats included, two calls returned the same id exactly when
    they were for the same component type; every id returned is
    non-negative. *)
Theorem GetId_same_type_same_id (Ts : list type_index) (l : list Z) (st : state)
    (i j : nat) (T T' : type_index) (a b : Z) :
  GetIds Ts init = Ok (l, st) →
  Ts !! i = Some T → Ts !! j = Some T' →
  l !! i = Some a → l !! j = Some b →
  (a = b ↔ T = T') ∧ 0 ≤ a.
Proof.
  intros Hrun HT HT' Ha Hb.
  destruct (GetIds_numbered _ _ _ _ numbered_init Hrun)
    as ([_ Hbelow Hinj] & _ & Hall).
  assert (ids st !! T = Some a) as HTa.
  { destruct (Forall2_lookup_l _ _ _ _ _ Hall HT) as (a' & Ha' & ?). congruence. }
  assert (ids st !! T' = Some b) as HTb.
  { destruct (Forall2_lookup_l _ _ _ _ _ Hall HT') as (b' & Hb' & ?). congruence. }
  split.
  - split; [intros ->; by eapply Hinj|intros ->; congruence].
  - by apply Hbelow in HTa as [? _].
Qed.

Lemma GetIds_fresh (Ts : list type_index) (st : state) :
  NoDup Ts → (∀ T, T ∈ Ts → ids st !! T = None) →
  INT_MIN ≤ nextId st → nextId st + Z.of_nat (length Ts) ≤ INT_MAX →
  ∃ st',
    GetIds Ts st =
      Ok ((λ i : nat, nextId st + Z.of_nat i) <$> seq 0 (length Ts), st') ∧
    nextId st' = nextId st + Z.of_nat (length Ts).
Proof.
  intros Hnd. revert st. induction Hnd as [|T Ts HT Hnd IH]; intros st Hfresh Hmin Hmax.
  - exists st. simpl. split; [done|lia].
  - simpl in Hmax. unfold GetIds; fold GetIds. unfold GetId.
    rewrite (Hfresh T) by (apply elem_of_cons; by left).
    unfold int_add. rewrite decide_True by lia. simpl.
    destruct (IH (mkState (nextId st + 1) (<[T := nextId st]> (ids st))))
      as (st' & -> & Hnext); simpl.
    + intros T0 HT0. rewrite lookup_insert_ne by (by intros ->).
      apply Hfresh, elem_of_cons. by right.
    + lia.
    + lia.
    + exists st'. simpl in *. split; [|lia].
      do 2 f_equal. f_equal; [lia|].
      change (list_fmap nat Z) with (@fmap list _ nat Z).
      rewrite <- fmap_S_seq, <- list_fmap_compose.
      apply list_fmap_ext. intros k n _. simpl. lia.
Qed.

(** X27. The first call of [GetId()] for each of [n] distinct component
    types numbers them 0, 1, ..., n-1 in the order of the calls, so the
    ids stay below [MAX_COMPONENTS], as the signatures require, exactly
    while at most 64 component types are in use. *)
Theorem GetId_numbers_in_order (Ts : list type_index) :
  NoDup Ts →
  Z.of_nat (length Ts) ≤ INT_MAX →
  ∃ st,
    GetIds Ts init = Ok (Z.of_nat <$> seq 0 (length Ts), st) ∧
    nextId st = Z.of_nat (length Ts) ∧
    (Forall (λ id, 0 ≤ id < MAX_COMPONENTS) (Z.of_nat <$> seq 0 (length Ts)) ↔
     Z.of_nat (length Ts) ≤ MAX_COMPONENTS).
Proof.
  intros Hnd Hlen.
  destruct (GetIds_fresh Ts init Hnd) as (st & Hrun & Hnext); simpl.
  - intros T _. apply lookup_empty.
  - unfold INT_MIN. lia.
  - lia.
  - exists st. split; [|split; [done|]].
    + exact Hrun.
    + rewrite Forall_fmap, Forall_seq. simpl. split.
      * intros H. destruct (length Ts) as [|n] eqn:Hn; [unfold MAX_COMPONENTS; lia|].
        specialize (H n). lia.
      * intros H k Hk. lia.
Qed.

End ComponentIdsProperties.

(** * The properties on concrete scenarios *)

Lemma reachable_registry_after (cs : list call) out :
  run_calls 0 cs Registry_new = Ret tt (registry_after cs) out →
  reachable 0 (registry_after cs).
Proof. apply reachable_run. Qed.

Lemma steps_registry_after (cs : list call) out :
  run_calls 0 cs Registry_new = Ret tt (registry_after cs) out →
  steps 0 Registry_new cs (registry_after cs).
Proof. apply run_calls_steps. Qed.

(** C7, instance: a pool of three entries resized to two. *)
Lemma Pool_Resize_spec_witness :
  0 ≤ 2 ≤ INT_MAX ∧
  ∃ p', Pool.Resize 0 2 (Pool.mkPool [7; 8; 9]) = Ok p' ∧
        Z.of_nat (length (Pool.data p')) = 2.
Proof.
  assert (0 ≤ 2 ≤ INT_MAX) as H by compute_done.
  split; [exact H|].
  destruct (Pool_Resize_spec 0 (Pool.mkPool [7; 8; 9]) 2 H) as (p' & Hp' & Hlen & _).
  exists p'. split; [exact Hp'|exact Hlen].
Defined.

(** C7 as stated fails: [Resize(2)] on a pool of three entries leaves two,
    and the third entry is lost. *)
Lemma Pool_Resize_shrinks :
  ∃ p', Pool.Resize 0 2 (Pool.mkPool [7; 8; 9]) = Ok p' ∧
        (length (Pool.data p') < length [7; 8; 9])%nat ∧
        Pool.data p' !! 2%nat ≠ Some 9.
Proof. exists (Pool.mkPool [7; 8]). split; [reflexivity|]. split; [simpl; lia|done]. Qed.

(** C2, instance: a new registry, entity 0 and the render system. *)
Lemma misuse_operations_witness :
  KillEntity (mkEntity 0) (Registry_new (TComponent := Z)) =
    Ret tt Registry_new [CerrKillNonExistent 0] ∧
  RemoveSystem "RenderSystem" (Registry_new (TComponent := Z)) = Fault UndefinedBehaviour ∧
  GetSystem "RenderSystem" (Registry_new (TComponent := Z)) = Fault UndefinedBehaviour.
Proof.
  apply (misuse_operations Registry_new (mkEntity 0) "RenderSystem").
  - apply not_elem_of_empty.
  - apply lookup_empty.
Defined.

(** C2 as stated fails: on a registry without a render system neither
    [RemoveSystem] nor [GetSystem] returns, with or without a diagnostic. *)
Lemma missing_system_does_not_return :
  (¬ ∃ r' out, RemoveSystem "RenderSystem" (Registry_new (TComponent := Z)) = Ret tt r' out) ∧
  (¬ ∃ system r' out,
       GetSystem "RenderSystem" (Registry_new (TComponent := Z)) = Ret system r' out).
Proof. split; [intros (r' & out & H)|intros (system & r' & out & H)]; discriminate H. Qed.

(** C1, instance: after [two_staged], [Update] puts the entity with
    transform and sprite into the render system and leaves the entity with
    the transform only out of it. *)
Lemma Update_membership_witness :
  reachable 0 (registry_after two_staged) ∧
  ∃ r', Update (registry_after two_staged) = Ret tt r' [] ∧
    ∀ system', systems r' !! "RenderSystem" = Some system' →
      mkEntity 0 ∈ GetSystemEntities system' ∧
      mkEntity 1 ∉ GetSystemEntities system'.
Proof.
  assert (reachable 0 (registry_after two_staged)) as Hreach.
  { apply (reachable_registry_after two_staged []). vm_compute. reflexivity. }
  split; [exact Hreach|].
  destruct (Update_membership 0 _ Hreach) as (r' & Hup & Hmem).
  exists r'. split; [exact Hup|]. intros system' Hsys.
  assert (r' = Update_result (registry_after two_staged)) as Hr'.
  { apply Update_Ret in Hup. tauto. }
  split.
  - destruct (Hmem "RenderSystem" system' (mkEntity 0) Hsys)
      as (system & Hs & Hreq & Hsig & Hiff).
    { rewrite Hr'. compute_done. }
    apply Hiff. right. rewrite Hsig, Hreq.
    vm_compute in Hs. injection Hs as <-. split; compute_done.
  - destruct (Hmem "RenderSystem" system' (mkEntity 1) Hsys)
      as (system & Hs & Hreq & Hsig & Hiff).
    { rewrite Hr'. compute_done. }
    intros Hin. apply Hiff in Hin. rewrite Hsig, Hreq in Hin.
    vm_compute in Hs. injection Hs as <-.
    destruct Hin as [Hin|[_ Hin]].
    + by apply elem_of_nil in Hin.
    + vm_compute in Hin. discriminate Hin.
Defined.

(** C1 as stated fails. After [late_system], right after an [Update],
    entity 0 is active and covers the empty required signature of the
    audio system, and is not a member of it; after [late_component], right
    after an [Update], entity 0 is active and has the component the physics
    system requires, and is not a member of it. *)
Lemma Update_misses_reconciled_entities :
  (∃ r system,
     steps 0 Registry_new late_system r ∧
     systems r !! "AudioSystem" = Some system ∧
     0 ∈ activeEntityIds r ∧
     isInterested (signature_in (entityComponentSignatures r) (mkEntity 0))
                  (GetComponentSignature system) = true ∧
     mkEntity 0 ∉ GetSystemEntities system) ∧
  (∃ r system,
     steps 0 Registry_new late_component r ∧
     systems r !! "PhysicsSystem" = Some system ∧
     0 ∈ activeEntityIds r ∧
     isInterested (signature_in (entityComponentSignatures r) (mkEntity 0))
                  (GetComponentSignature system) = true ∧
     mkEntity 0 ∉ GetSystemEntities system).
Proof.
  split.
  - exists (registry_after late_system), (mkSystem 0 []).
    split; [|repeat split; compute_done].
    apply (steps_registry_after late_system []). vm_compute. reflexivity.
  - exists (registry_after late_component), (mkSystem 1 []).
    split; [|repeat split; compute_done].
    apply (steps_registry_after late_component []). vm_compute. reflexivity.
Qed.

(** C3, instance: [clear_then_create], along which the free queue holds
    id 0 twice and the second creation falls back on the counter. *)
Lemma active_ids_unique_witness :
  ∃ live r,
    run_live 0 clear_then_create [] Registry_new = Some (live, r) ∧
    GetId <$> live = [1; 0] ∧
    NoDup (GetId <$> live) ∧
    list_to_set (GetId <$> live) = activeEntityIds r.
Proof.
  destruct (run_live 0 clear_then_create [] Registry_new) as [[live r]|] eqn:H.
  - exists live, r. split; [reflexivity|].
    destruct (active_ids_unique 0 clear_then_create live r H) as (Hnd & Hset & _).
    split; [|split; [exact Hnd|exact Hset]].
    vm_compute in H. injection H as <- _. reflexivity.
  - vm_compute in H. discriminate H.
Defined.

(** C4, instance: in [clear_between_frames] the one [ClearAllEntities]
    finds no kill pending. At the end id 1 waits in the free queue while
    entity 0, created again, is staged for killing: the free queue is clear
    of it. A [ClearAllEntities] called now would push id 0 onto the queue
    with the kill still pending, and [CreateEntity] returns an entity that
    is not staged for killing. *)
Lemma free_ids_not_pending_kill_witness :
  ∃ r,
    steps 0 Registry_new clear_between_frames r ∧
    clears_idle 0 clear_between_frames Registry_new = true ∧
    freeIds r = [1] ∧
    entitiesToBeKilled r = {[mkEntity 0]} ∧
    (∀ x, x ∈ freeIds r → mkEntity x ∉ entitiesToBeKilled r) ∧
    NoDup (freeIds r) ∧
    (∀ x, x ∈ freeIds r → x ∉ activeEntityIds r) ∧
    (∃ r', ClearAllEntities r = Ret tt r' [CoutFreeingAll] ∧
           0 ∈ freeIds r' ∧ mkEntity 0 ∈ entitiesToBeKilled r') ∧
    (∃ entity r' out, CreateEntity r = Ret entity r' out ∧
                      entity ∉ entitiesToBeKilled r').
Proof.
  exists (registry_after clear_between_frames).
  assert (steps 0 Registry_new clear_between_frames
            (registry_after clear_between_frames)) as Hsteps.
  { apply (steps_registry_after clear_between_frames [CoutFreeingAll]).
    vm_compute. reflexivity. }
  assert (clears_idle 0 clear_between_frames Registry_new = true) as Hidle
    by (vm_compute; reflexivity).
  assert (mkEntity 0 ∈ entitiesToBeKilled (registry_after clear_between_frames))
    as Hkilled by compute_done.
  assert (GetId (mkEntity 0) ∈ activeEntityIds (registry_after clear_between_frames))
    as Hactive by compute_done.
  assert (numEntity (registry_after clear_between_frames) + 100 ≤ INT_MAX) as Hmax
    by compute_done.
  destruct (free_ids_not_pending_kill 0 clear_between_frames _ Hsteps)
    as (Hinv & (r1 & Hclear & _ & _ & Hpush) & Hreturns & Hskips).
  destruct (Hinv Hidle) as (Hfree & Hnd & Hact & _).
  destruct (Hpush _ Hkilled Hactive) as [Hin Hstill].
  destruct (Hreturns Hmax) as (entity & r2 & out & Hcreate).
  split; [exact Hsteps|]. split; [exact Hidle|]. split; [reflexivity|].
  split; [compute_done|]. split; [exact Hfree|]. split; [exact Hnd|].
  split; [exact Hact|]. split.
  - exists r1. split; [exact Hclear|]. split; [exact Hin|exact Hstill].
  - exists entity, r2, out. split; [exact Hcreate|].
    exact (proj1 (Hskips _ _ _ Hcreate)).
Defined.

(** C4 as stated fails: after [kill_then_clear] id 0 is in the free queue
    while entity 0 is still staged in the pending-kill set. *)
Lemma ClearAllEntities_frees_pending_kill :
  ∃ r,
    steps 0 Registry_new kill_then_clear r ∧
    0 ∈ freeIds r ∧
    mkEntity 0 ∈ entitiesToBeKilled r.
Proof.
  exists (registry_after kill_then_clear). split; [|split; compute_done].
  apply (steps_registry_after kill_then_clear [CoutFreeingAll]).
  vm_compute. reflexivity.
Qed.

(** C5, instance: the one entity of [one_entity] is killed. *)
Lemma killed_id_reuse_witness :
  reachable 0 (registry_after one_entity) ∧
  0 ∈ activeEntityIds (registry_after one_entity) ∧
  ∃ r1,
    KillEntity (mkEntity 0) (registry_after one_entity) = Ret tt r1 [] ∧
    (∀ e' r3 out, CreateEntity r1 = Ret e' r3 out → GetId e' ≠ 0) ∧
    ∃ r2 r3, Update r1 = Ret tt r2 [] ∧ CreateEntity r2 = Ret (mkEntity 0) r3 [].
Proof.
  assert (reachable 0 (registry_after one_entity)) as Hreach.
  { apply (reachable_registry_after one_entity []). vm_compute. reflexivity. }
  assert (GetId (mkEntity 0) ∈ activeEntityIds (registry_after one_entity)) as Hact
    by compute_done.
  split; [exact Hreach|]. split; [exact Hact|].
  destruct (killed_id_reuse 0 _ (mkEntity 0) Hreach Hact) as (r1 & Hkill & Hbefore & Hafter).
  exists r1. split; [exact Hkill|]. split.
  - destruct (Hbefore [] r1 (steps_nil 0 r1) (not_elem_of_nil _)) as [Hne _].
    exact Hne.
  - apply Hafter; reflexivity.
Defined.

(** C6, instance: the entity of [reconciled] that is a member of the
    render system is killed. *)
Lemma KillEntity_isolates_witness :
  reachable 0 (registry_after reconciled) ∧
  0 ∈ activeEntityIds (registry_after reconciled) ∧
  (∃ system, systems (registry_after reconciled) !! "RenderSystem" = Some system ∧
             mkEntity 0 ∈ GetSystemEntities system) ∧
  ∃ r',
    KillEntity (mkEntity 0) (registry_after reconciled) = Ret tt r' [] ∧
    (∀ system, systems r' !! "RenderSystem" = Some system →
               mkEntity 0 ∉ GetSystemEntities system) ∧
    HasComponent (mkEntity 0) 0 r' = Ret false r' [].
Proof.
  assert (reachable 0 (registry_after reconciled)) as Hreach.
  { apply (reachable_registry_after reconciled []). vm_compute. reflexivity. }
  assert (GetId (mkEntity 0) ∈ activeEntityIds (registry_after reconciled)) as Hact
    by compute_done.
  split; [exact Hreach|]. split; [exact Hact|]. split.
  { exists (mkSystem 3 [mkEntity 0]). split; compute_done. }
  destruct (KillEntity_isolates 0 _ (mkEntity 0) Hreach Hact) as (r' & Hkill & Hsys & Hhas).
  exists r'. split; [exact Hkill|]. split.
  - intros system. apply Hsys.
  - apply Hhas. compute_done.
Defined.

(** C8, instance: after [kill_then_clear] the only free id is staged for
    killing, so that [CreateEntity] retries once and takes the counter. *)
Lemma CreateEntity_terminates_witness :
  reachable 0 (registry_after kill_then_clear) ∧
  numEntity (registry_after kill_then_clear) + 100 ≤ INT_MAX ∧
  ∃ entity r' out,
    CreateEntity_fuel (CreateEntity_bound (registry_after kill_then_clear))
      (registry_after kill_then_clear) = Ret entity r' out ∧
    GetId entity ∉ activeEntityIds (registry_after kill_then_clear).
Proof.
  assert (reachable 0 (registry_after kill_then_clear)) as Hreach.
  { apply (reachable_registry_after kill_then_clear [CoutFreeingAll]).
    vm_compute. reflexivity. }
  assert (numEntity (registry_after kill_then_clear) + 100 ≤ INT_MAX) as Hmax
    by compute_done.
  split; [exact Hreach|]. split; [exact Hmax|].
  destruct (CreateEntity_terminates 0 _ Hreach Hmax)
    as (entity & r' & out & Hfuel & Hact & _).
  exists entity, r', out. split; [|exact Hact].
  apply Hfuel. apply Nat.le_refl.
Defined.

(** C9, instance: the sprite component of entity 0 of [two_staged]. *)
Lemma RemoveComponent_frame_witness :
  entityComponentSignatures (registry_after two_staged) !! 0%nat = Some 3 ∧
  ∃ r',
    RemoveComponent (mkEntity 0) 1 (registry_after two_staged) = Ret tt r' [] ∧
    entityComponentSignatures r' !! 0%nat = Some 1 ∧
    componentsPools r' = componentsPools (registry_after two_staged).
Proof.
  assert (entityComponentSignatures (registry_after two_staged)
            !! Z.to_nat (GetId (mkEntity 0)) = Some 3) as Hsig by compute_done.
  split; [exact Hsig|].
  destruct (RemoveComponent_frame (registry_after two_staged) (mkEntity 0) 1 3)
    as (r' & Hrm & Hsigs & _ & _ & Hpools & _).
  - compute_done.
  - exact Hsig.
  - compute_done.
  - exists r'. split; [exact Hrm|]. split; [|exact Hpools].
    rewrite Hsigs. compute_done.
Defined.

(** C10, instance: the render system of [two_staged] is added again. *)
Lemma AddSystem_registered_witness :
  systems (registry_after two_staged) !! "RenderSystem" = Some (mkSystem 3 []) ∧
  AddSystem "RenderSystem" [0; 1] (registry_after two_staged) =
    Ret tt (registry_after two_staged) [].
Proof.
  assert (systems (registry_after two_staged) !! "RenderSystem" = Some (mkSystem 3 []))
    as Hsys by compute_done.
  split; [exact Hsys|].
  apply (AddSystem_registered (registry_after two_staged) "RenderSystem" [0; 1]
           (mkSystem 3 [])).
  - repeat constructor; compute_done.
  - exact Hsys.
Defined.



(** X3, instance: in [two_staged], the sprite of entity 0 is removed and
    still reads 20. *)
Lemma RemoveComponent_keeps_value_witness :
  reachable 0 (registry_after two_staged) ∧
  0 ∈ activeEntityIds (registry_after two_staged) ∧
  GetComponent (mkEntity 0) 1 (registry_after two_staged) =
    Ret 20 (registry_after two_staged) [] ∧
  ∃ r',
    RemoveComponent (mkEntity 0) 1 (registry_after two_staged) = Ret tt r' [] ∧
    HasComponent (mkEntity 0) 1 r' = Ret false r' [] ∧
    GetComponent (mkEntity 0) 1 r' = Ret 20 r' [].
Proof.
  assert (reachable 0 (registry_after two_staged)) as Hreach.
  { apply (reachable_registry_after two_staged []). vm_compute. reflexivity. }
  assert (GetId (mkEntity 0) ∈ activeEntityIds (registry_after two_staged)) as Hact
    by compute_done.
  assert (0 ≤ 1 < MAX_COMPONENTS) as Hc by compute_done.
  assert (GetComponent (mkEntity 0) 1 (registry_after two_staged) =
            Ret 20 (registry_after two_staged) []) as Hget
    by (vm_compute; reflexivity).
  split; [exact Hreach|]. split; [exact Hact|]. split; [exact Hget|].
  exact (RemoveComponent_keeps_value 0 _ (mkEntity 0) 1 20 Hreach Hact Hc Hget).
Defined.

(** X4, instance: the render system requires the components 0 and 1; an
    entity with the signature 7 has both. *)
Lemma System_construct_signature_witness :
  Forall (λ c, 0 ≤ c < MAX_COMPONENTS) [0; 1] ∧
  ∃ system,
    System_construct [0; 1] = Ok system ∧
    GetSystemEntities system = [] ∧
    (isInterested 7 (GetComponentSignature system) = true ↔
     ∀ c, c ∈ [0; 1] → Z.testbit 7 c = true).
Proof.
  assert (Forall (λ c, 0 ≤ c < MAX_COMPONENTS) [0; 1]) as Hreq
    by (repeat constructor; compute_done).
  split; [exact Hreq|].
  destruct (System_construct_signature [0; 1] Hreq) as (system & Hs & Hent & _ & Hint).
  exists system. split; [exact Hs|]. split; [exact Hent|]. apply Hint.
Defined.

(** X5, instance: a system requiring the component ids 0 and 64. *)
Lemma System_construct_out_of_range_witness :
  Exists (λ c, ¬ 0 ≤ to_size_t c < MAX_COMPONENTS) [0; 64] ∧
  System_construct [0; 64] = Err OutOfRange.
Proof.
  assert (Exists (λ c, ¬ 0 ≤ to_size_t c < MAX_COMPONENTS) [0; 64]) as Hbad
    by (apply Exists_cons_tl, Exists_cons_hd; compute_done).
  split; [exact Hbad|]. exact (System_construct_out_of_range [0; 64] Hbad).
Defined.

(** X6, instance: a render system added to the registry of [one_entity]
    and removed again. *)
Lemma AddSystem_RemoveSystem_round_trip_witness :
  Forall (λ c, 0 ≤ c < MAX_COMPONENTS) [0; 1] ∧
  systems (registry_after one_entity) !! "RenderSystem" = None ∧
  ∃ r' system,
    AddSystem "RenderSystem" [0; 1] (registry_after one_entity) = Ret tt r' [] ∧
    GetSystem "RenderSystem" r' = Ret system r' [] ∧
    GetSystemEntities system = [] ∧
    RemoveSystem "RenderSystem" r' = Ret tt (registry_after one_entity) [].
Proof.
  assert (Forall (λ c, 0 ≤ c < MAX_COMPONENTS) [0; 1]) as Hreq
    by (repeat constructor; compute_done).
  assert (systems (registry_after one_entity) !! "RenderSystem" = None) as Hnone
    by compute_done.
  split; [exact Hreq|]. split; [exact Hnone|].
  destruct (AddSystem_RemoveSystem_round_trip
              (registry_after one_entity) "RenderSystem" [0; 1] Hreq Hnone)
    as (r' & system & Hadd & _ & Hget & _ & Hent & _ & Hrem & _).
  exists r', system. split; [exact Hadd|]. split; [exact Hget|].
  split; [exact Hent|exact Hrem].
Defined.

(** X7, instance: after [kill_then_update] the id 0 waits in the free
    queue, and the next [CreateEntity] takes it. *)
Lemma CreateEntity_reuses_front_witness :
  ∃ r,
    steps 0 Registry_new kill_then_update r ∧
    (CallClearAllEntities ∉ kill_then_update) ∧
    freeIds r = [0] ∧
    ∃ entity r',
      CreateEntity r = Ret entity r' [] ∧ GetId entity = 0 ∧ freeIds r' = [] ∧
      numEntity r' = numEntity r.
Proof.
  exists (registry_after kill_then_update).
  assert (steps 0 Registry_new kill_then_update (registry_after kill_then_update))
    as Hsteps.
  { apply (steps_registry_after kill_then_update []). vm_compute. reflexivity. }
  assert (CallClearAllEntities ∉ kill_then_update) as Hcs.
  { intros H. unfold kill_then_update in H.
    repeat (apply elem_of_cons in H as [H|H]; [discriminate H|]).
    by apply elem_of_nil in H. }
  assert (numEntity (registry_after kill_then_update) + 100 ≤ INT_MAX) as Hmax
    by compute_done.
  split; [exact Hsteps|]. split; [exact Hcs|]. split; [reflexivity|].
  destruct (CreateEntity_reuses_front 0 kill_then_update _ Hsteps Hcs Hmax)
    as (entity & r' & Hcreate & Hid & Hfree & Hnum & _).
  exists entity, r'. split; [exact Hcreate|]. split; [exact Hid|].
  split; [exact Hfree|exact Hnum].
Defined.

(** X8, instance: entity 0 of [reconciled], a member of the render
    system, is killed and the frame is reconciled. *)
Lemma KillEntity_Update_retires_witness :
  reachable 0 (registry_after reconciled) ∧
  0 ∈ activeEntityIds (registry_after reconciled) ∧
  ∃ r1 r2,
    KillEntity (mkEntity 0) (registry_after reconciled) = Ret tt r1 [] ∧
    Update r1 = Ret tt r2 [] ∧
    (0 ∉ activeEntityIds r2) ∧
    KillEntity (mkEntity 0) r2 = Ret tt r2 [CerrKillNonExistent 0].
Proof.
  assert (reachable 0 (registry_after reconciled)) as Hreach.
  { apply (reachable_registry_after reconciled []). vm_compute. reflexivity. }
  assert (GetId (mkEntity 0) ∈ activeEntityIds (registry_after reconciled)) as Hact
    by compute_done.
  split; [exact Hreach|]. split; [exact Hact|].
  destruct (KillEntity_Update_retires 0 _ (mkEntity 0) Hreach Hact)
    as (r1 & r2 & Hkill & Hupd & Hgone & _ & _ & _ & _ & _ & Hagain).
  exists r1, r2. split; [exact Hkill|]. split; [exact Hupd|].
  split; [exact Hgone|exact Hagain].
Defined.

(** X9, instance: entity 0 of [reconciled] killed twice. *)
Lemma KillEntity_idempotent_witness :
  reachable 0 (registry_after reconciled) ∧
  0 ∈ activeEntityIds (registry_after reconciled) ∧
  ∃ r1,
    KillEntity (mkEntity 0) (registry_after reconciled) = Ret tt r1 [] ∧
    KillEntity (mkEntity 0) r1 = Ret tt r1 [].
Proof.
  assert (reachable 0 (registry_after reconciled)) as Hreach.
  { apply (reachable_registry_after reconciled []). vm_compute. reflexivity. }
  assert (GetId (mkEntity 0) ∈ activeEntityIds (registry_after reconciled)) as Hact
    by compute_done.
  split; [exact Hreach|]. split; [exact Hact|].
  exact (KillEntity_idempotent 0 _ (mkEntity 0) Hreach Hact).
Defined.

(** X10, instance: [reconciled], with its two entities, cleared. *)
Lemma ClearAllEntities_effect_witness :
  reachable 0 (registry_after reconciled) ∧
  activeEntityIds (registry_after reconciled) = {[0; 1]} ∧
  ∃ r' ids,
    ClearAllEntities (registry_after reconciled) = Ret tt r' [CoutFreeingAll] ∧
    activeEntityIds r' = ∅ ∧
    freeIds r' = freeIds (registry_after reconciled) ++ ids ∧
    Sorted Z.le ids ∧ (∀ x, x ∈ ids ↔ x ∈ activeEntityIds (registry_after reconciled)).
Proof.
  assert (reachable 0 (registry_after reconciled)) as Hreach.
  { apply (reachable_registry_after reconciled []). vm_compute. reflexivity. }
  split; [exact Hreach|]. split; [compute_done|].
  destruct (ClearAllEntities_effect 0 _ Hreach)
    as (r' & ids & Hclear & Hact & Hfree & Hsorted & _ & Hids & _).
  exists r', ids. split; [exact Hclear|]. split; [exact Hact|].
  split; [exact Hfree|]. split; [exact Hsorted|exact Hids].
Defined.

(** X11, instance: the registry of [kill_then_update]. *)
Lemma reachable_ids_below_counter_witness :
  reachable 0 (registry_after kill_then_update) ∧
  freeIds (registry_after kill_then_update) = [0] ∧
  0 ≤ numEntity (registry_after kill_then_update) ≤ INT_MAX ∧
  ∀ x, x ∈ freeIds (registry_after kill_then_update) →
       0 ≤ x < numEntity (registry_after kill_then_update).
Proof.
  assert (reachable 0 (registry_after kill_then_update)) as Hreach.
  { apply (reachable_registry_after kill_then_update []). vm_compute. reflexivity. }
  split; [exact Hreach|]. split; [reflexivity|].
  destruct (reachable_ids_below_counter 0 _ Hreach) as (Hnum & _ & _ & Hfree & _).
  split; [exact Hnum|exact Hfree].
Defined.

(** X12, instance: the render system of [reconciled], with its one
    member. *)
Lemma system_members_settled_witness :
  steps 0 Registry_new reconciled (registry_after reconciled) ∧
  (CallClearAllEntities ∉ reconciled) ∧
  systems (registry_after reconciled) !! "RenderSystem" =
    Some (mkSystem 3 [mkEntity 0]) ∧
  NoDup (GetSystemEntities (mkSystem 3 [mkEntity 0])) ∧
  ∀ entity, entity ∈ GetSystemEntities (mkSystem 3 [mkEntity 0]) →
    GetId entity ∈ activeEntityIds (registry_after reconciled) ∧
    (entity ∉ entitiesToBeAdded (registry_after reconciled)) ∧
    (entity ∉ entitiesToBeKilled (registry_after reconciled)).
Proof.
  assert (steps 0 Registry_new reconciled (registry_after reconciled)) as Hsteps.
  { apply (steps_registry_after reconciled []). vm_compute. reflexivity. }
  assert (CallClearAllEntities ∉ reconciled) as Hcs.
  { intros H. unfold reconciled, two_staged in H. simpl in H.
    repeat (apply elem_of_cons in H as [H|H]; [discriminate H|]).
    by apply elem_of_nil in H. }
  assert (systems (registry_after reconciled) !! "RenderSystem" =
            Some (mkSystem 3 [mkEntity 0])) as Hsys by compute_done.
  split; [exact Hsteps|]. split; [exact Hcs|]. split; [exact Hsys|].
  exact (system_members_settled 0 reconciled _ "RenderSystem" _ Hsteps Hcs Hsys).
Defined.

(** X13, instance: after [kill_then_update] the one id below the
    counter waits in the free queue. *)
Lemma ids_conserved_witness :
  steps 0 Registry_new kill_then_update (registry_after kill_then_update) ∧
  (CallClearAllEntities ∉ kill_then_update) ∧
  numEntity (registry_after kill_then_update) = 1 ∧
  (0 ≤ 0 < numEntity (registry_after kill_then_update) ↔
   0 ∈ activeEntityIds (registry_after kill_then_update) ∨
   0 ∈ freeIds (registry_after kill_then_update)).
Proof.
  assert (steps 0 Registry_new kill_then_update (registry_after kill_then_update))
    as Hsteps.
  { apply (steps_registry_after kill_then_update []). vm_compute. reflexivity. }
  assert (CallClearAllEntities ∉ kill_then_update) as Hcs.
  { intros H. unfold kill_then_update in H.
    repeat (apply elem_of_cons in H as [H|H]; [discriminate H|]).
    by apply elem_of_nil in H. }
  split; [exact Hsteps|]. split; [exact Hcs|]. split; [reflexivity|].
  exact (ids_conserved 0 kill_then_update _ 0 Hsteps Hcs).
Defined.

(** X14, instance: [two_staged] reconciled twice. *)
Lemma Update_idempotent_witness :
  reachable 0 (registry_after two_staged) ∧
  entitiesToBeAdded (registry_after two_staged) = {[mkEntity 0; mkEntity 1]} ∧
  ∃ r1,
    Update (registry_after two_staged) = Ret tt r1 [] ∧
    entitiesToBeAdded r1 = ∅ ∧
    Update r1 = Ret tt r1 [].
Proof.
  assert (reachable 0 (registry_after two_staged)) as Hreach.
  { apply (reachable_registry_after two_staged []). vm_compute. reflexivity. }
  split; [exact Hreach|]. split; [compute_done|].
  destruct (Update_idempotent 0 _ Hreach) as (r1 & Hupd & Hadd & _ & _ & _ & Hagain & _).
  exists r1. split; [exact Hupd|]. split; [exact Hadd|exact Hagain].
Defined.

(** X15, instance: the middle slot of a pool of three is set. *)
Lemma Pool_Set_Get_witness :
  0 ≤ 1 < Z.of_nat (length (Pool.data (Pool.mkPool [7; 8; 9]))) ∧
  ∃ p',
    Pool.Set_ 1 5 (Pool.mkPool [7; 8; 9]) = Ok p' ∧
    Pool.Get 1 p' = Ok 5 ∧
    Pool.Get 2 p' = Pool.Get 2 (Pool.mkPool [7; 8; 9]).
Proof.
  assert (0 ≤ 1 < Z.of_nat (length (Pool.data (Pool.mkPool [7; 8; 9])))) as Hi
    by compute_done.
  split; [exact Hi|].
  destruct (Pool_Set_Get (Pool.mkPool [7; 8; 9]) 1 5 Hi) as (p' & Hset & Hget & Hother & _).
  exists p'. split; [exact Hset|]. split; [exact Hget|].
  apply Hother. compute_done.
Defined.

(** X16, instance: a pool of three read at index 3, and the size -1. *)
Lemma Pool_misuse_witness :
  ¬ (0 ≤ 3 < Z.of_nat (length (Pool.data (Pool.mkPool [7; 8; 9])))) ∧
  INT_MIN ≤ -1 < 0 ∧
  Pool.Get 3 (Pool.mkPool [7; 8; 9]) = Err UndefinedBehaviour ∧
  Pool.new 0 (-1) = Err LengthError.
Proof.
  assert (¬ (0 ≤ 3 < Z.of_nat (length (Pool.data (Pool.mkPool [7; 8; 9]))))) as Hi
    by compute_done.
  assert (INT_MIN ≤ -1 < 0) as Hn by compute_done.
  split; [exact Hi|]. split; [exact Hn|].
  destruct (Pool_misuse 0 (Pool.mkPool [7; 8; 9]) 3 5 (-1) Hi Hn)
    as (_ & Hget & Hnew & _).
  split; [exact Hget|exact Hnew].
Defined.

(** X17, instance: a pool of four. *)
Lemma Pool_new_spec_witness :
  0 ≤ 4 ≤ INT_MAX ∧
  ∃ p, Pool.new 0 4 = Ok p ∧ Pool.GetSize p = 4 ∧ Pool.Get 3 p = Ok 0.
Proof.
  assert (0 ≤ 4 ≤ INT_MAX) as Hs by compute_done.
  split; [exact Hs|].
  destruct (Pool_new_spec 0 4 Hs) as (p & Hnew & Hsize & _ & Hget & _).
  exists p. split; [exact Hnew|]. split; [exact Hsize|].
  apply Hget. compute_done.
Defined.

(** X18, instance: a fourth element pushed on a pool of three. *)
Lemma Pool_Add_Clear_witness :
  Z.of_nat (length (Pool.data (Pool.mkPool [7; 8; 9]))) < INT_MAX ∧
  Pool.GetSize (Pool.Add 5 (Pool.mkPool [7; 8; 9])) =
    Pool.GetSize (Pool.mkPool [7; 8; 9]) + 1 ∧
  Pool.Get (Pool.GetSize (Pool.mkPool [7; 8; 9])) (Pool.Add 5 (Pool.mkPool [7; 8; 9])) =
    Ok 5.
Proof.
  assert (Z.of_nat (length (Pool.data (Pool.mkPool [7; 8; 9]))) < INT_MAX) as Hlen
    by compute_done.
  split; [exact Hlen|].
  destruct (Pool_Add_Clear (Pool.mkPool [7; 8; 9]) 5 Hlen) as (Hsize & Hget & _).
  split; [exact Hsize|exact Hget].
Defined.

(** X19, instance: a callback that logs the event, subscribed for clicks
    on an empty event manager. *)
Lemma EmitEvent_after_SubscribeToEvent_witness :
  "CollisionEvent" ≠ "ClickEvent" ∧
  (Events.EmitEvent "ClickEvent" 5
     (Events.SubscribeToEvent "ClickEvent" (λ ev w, w ++ [ev]) Events.new)
     ([] : list Z)).2 = [5] ∧
  (Events.EmitEvent "CollisionEvent" 5
     (Events.SubscribeToEvent "ClickEvent" (λ ev w, w ++ [ev]) Events.new)
     ([] : list Z)).2 =
  (Events.EmitEvent "CollisionEvent" 5 Events.new ([] : list Z)).2.
Proof.
  assert ("CollisionEvent" ≠ "ClickEvent") as Hne by compute_done.
  split; [exact Hne|].
  destruct (EmitEvent_after_SubscribeToEvent "ClickEvent" "CollisionEvent" 5 5
              (λ ev w, w ++ [ev]) Events.new ([] : list Z) ([] : list Z))
    as (Hlast & Hother & _).
  split; [exact Hlast|]. apply Hother. exact Hne.
Defined.

(** X21, instance: four frames, one second in, at ten frames a second
    and at minus ten. *)
Lemma Update_entity_loop_witness :
  (∃ animation' sprite',
     Animation.Update_entity 1000
       (Animation.mkAnimationComponent 4 1 10 true 0)
       (Animation.mkSpriteComponent "walk" 32 32 (Animation.mkSDL_Rect 0 0 32 32) false) =
       Ok (animation', sprite') ∧
     Animation.currentFrame animation' = 2 ∧
     Animation.x (Animation.srcRect sprite') = 64) ∧
  (∃ animation' sprite',
     Animation.Update_entity 1000
       (Animation.mkAnimationComponent 4 1 (-10) true 0)
       (Animation.mkSpriteComponent "walk" 32 32 (Animation.mkSDL_Rect 0 0 32 32) false) =
       Ok (animation', sprite') ∧
     Animation.currentFrame animation' = -2 ∧
     Animation.x (Animation.srcRect sprite') = -64).
Proof.
  split.
  - destruct (Update_entity_loop 1000
                (Animation.mkAnimationComponent 4 1 10 true 0)
                (Animation.mkSpriteComponent "walk" 32 32
                   (Animation.mkSDL_Rect 0 0 32 32) false))
      as (_ & _ & _ & Hupd); [reflexivity|compute_done..|].
    eexists _, _. split; [exact Hupd|]. split; reflexivity.
  - destruct (Update_entity_loop 1000
                (Animation.mkAnimationComponent 4 1 (-10) true 0)
                (Animation.mkSpriteComponent "walk" 32 32
                   (Animation.mkSDL_Rect 0 0 32 32) false))
      as (_ & _ & _ & Hupd); [reflexivity|compute_done..|].
    eexists _, _. split; [exact Hupd|]. split; reflexivity.
Defined.


(** X23, instance: a looping animation built with zero frames. *)
Lemma Update_entity_loop_no_frames_witness :
  Animation.Update_entity 1000
    (Animation.mkAnimationComponent 0 1 10 true 0)
    (Animation.mkSpriteComponent "walk" 32 32 (Animation.mkSDL_Rect 0 0 32 32) false) =
  Err UndefinedBehaviour.
Proof.
  apply Update_entity_loop_no_frames; reflexivity.
Defined.

(** X24, instance: a collider that excludes walls is told to exclude
    enemies, and then not to. *)
Lemma exclusion_round_trip_witness :
  NoDup (BoxCollider.excludeCollisionList
           (BoxCollider.mkBoxColliderComponent 16 16 tt ["wall"])) ∧
  BoxCollider.IsExcluded "enemy"
    (BoxCollider.AddExclusion "enemy"
       (BoxCollider.mkBoxColliderComponent 16 16 tt ["wall"])) = true ∧
  BoxCollider.RemoveExclusion "enemy"
    (BoxCollider.AddExclusion "enemy"
       (BoxCollider.mkBoxColliderComponent 16 16 tt ["wall"])) =
  BoxCollider.mkBoxColliderComponent 16 16 tt ["wall"].
Proof.
  assert (NoDup (BoxCollider.excludeCollisionList
                   (BoxCollider.mkBoxColliderComponent 16 16 tt ["wall"]))) as Hnd
    by (apply NoDup_singleton).
  split; [exact Hnd|].
  destruct (exclusion_round_trip "enemy"
              (BoxCollider.mkBoxColliderComponent 16 16 tt ["wall"]) Hnd)
    as (Hadd & _ & _ & _ & _ & Hback & _).
  split; [exact Hadd|]. apply Hback. reflexivity.
Defined.

(** X26, instance: the transform component asked for its id before and
    after the sprite component. *)
Lemma GetId_same_type_same_id_witness :
  ∃ l st,
    ComponentIds.GetIds ["TransformComponent"; "SpriteComponent"; "TransformComponent"]
      ComponentIds.init = Ok (l, st) ∧
    l = [0; 1; 0] ∧
    (0 = 0 ↔ "TransformComponent" = "TransformComponent") ∧
    (0 = 1 ↔ "TransformComponent" = "SpriteComponent").
Proof.
  assert (ComponentIds.GetIds
            ["TransformComponent"; "SpriteComponent"; "TransformComponent"]
            ComponentIds.init =
          Ok ([0; 1; 0],
              ComponentIds.mkState 2
                (<["SpriteComponent" := 1]> (<["TransformComponent" := 0]> ∅))))
    as Hrun by reflexivity.
  eexists _, _. split; [exact Hrun|]. split; [reflexivity|]. split.
  - apply (GetId_same_type_same_id _ _ _ 0 2 _ _ 0 0 Hrun); reflexivity.
  - apply (GetId_same_type_same_id _ _ _ 0 1 _ _ 0 1 Hrun); reflexivity.
Defined.

(** X27, instance: two component types. *)
Lemma GetId_numbers_in_order_witness :
  NoDup ["TransformComponent"; "SpriteComponent"] ∧
  ∃ st,
    ComponentIds.GetIds ["TransformComponent"; "SpriteComponent"] ComponentIds.init =
      Ok ([0; 1], st) ∧
    ComponentIds.nextId st = 2.
Proof.
  assert (NoDup ["TransformComponent"; "SpriteComponent"]) as Hnd.
  { apply NoDup_cons. split; [|apply NoDup_singleton].
    intros H%list_elem_of_singleton. discriminate H. }
  assert (Z.of_nat (length ["TransformComponent"; "SpriteComponent"]) ≤ INT_MAX)
    as Hlen by compute_done.
  split; [exact Hnd|].
  destruct (GetId_numbers_in_order ["TransformComponent"; "SpriteComponent"] Hnd Hlen)
    as (st & Hrun & Hnext & _).
  exists st. split; [exact Hrun|exact Hnext].
Defined.

(** X28, instance: in [two_staged] the components 0 and 1 have been
    added, the component 2 never. *)
Lemma GetComponent_never_added_witness :
  steps 0 Registry_new two_staged (registry_after two_staged) ∧
  (∀ e c v, CallAddComponent e c v ∈ two_staged → to_size_t c ≠ to_size_t 2) ∧
  GetComponent (mkEntity 0) 2 (registry_after two_staged) = Fault UndefinedBehaviour.
Proof.
  assert (steps 0 Registry_new two_staged (registry_after two_staged)) as Hsteps.
  { apply (steps_registry_after two_staged []). vm_compute. reflexivity. }
  assert (∀ e c v, CallAddComponent e c v ∈ two_staged → to_size_t c ≠ to_size_t 2)
    as Hnever.
  { intros e c v H. unfold two_staged in H.
    repeat (apply elem_of_cons in H as [H|H];
            [first [discriminate H | injection H as _ -> _; compute_done]|]).
    by apply elem_of_nil in H. }
  split; [exact Hsteps|]. split; [exact Hnever|].
  exact (GetComponent_never_added 0 two_staged _ (mkEntity 0) 2 Hsteps Hnever).
Defined.
